(** * napari: dimensional slicing, layer composition and label editing

    A shallow embedding of the parts of
      - [napari/components/viewer_model.py] (class [ViewerModel]) and
      - [napari/layers/labels/labels.py]    (class [Labels])
    that reconcile the axes of layers of differing rank with the viewer's
    global axes, and that edit raster label data (paint, fill, pick).

    Python objects are records, attribute mutation is explicit state
    passing, exceptions are a result type whose state survives the raise,
    and numpy arrays are a shape together with an index function; a slice
    of an array is a view that reads and writes the array it was taken
    from. *)

From Stdlib Require Import ZArith QArith Qround Lia List Bool String.
From Stdlib Require Import Permutation FinFun Lqa.
Import ListNotations.

Set Implicit Arguments.

(* ------------------------------------------------------------------ *)
(** ** Python floats *)

(** Range bounds, steps, slider points and cursor coordinates are Python
    floats.  The code compares them ([min], [max], [<], [==]) and rounds
    them to integers, which is exact, and adds half a brush to a cursor
    coordinate, which is taken in exact arithmetic.  So a float is a
    rational or one of the two infinities ([math.inf] is the neutral
    element of the range union).  NaN is left out: no range, point or
    coordinate of the program is one. *)
Module Float.

Inductive float : Type :=
| NegInf
| Fin (q : Q)
| PosInf.

Definition Qltb (x y : Q) : bool :=
  match Qcompare x y with Lt => true | _ => false end.

(** [a < b] *)
Definition ltb (a b : float) : bool :=
  match a, b with
  | NegInf, NegInf => false
  | NegInf, _ => true
  | Fin _, NegInf => false
  | Fin x, Fin y => Qltb x y
  | Fin _, PosInf => true
  | PosInf, _ => false
  end.

(** [a <= b] *)
Definition leb (a b : float) : bool := negb (ltb b a).

(** [a == b] *)
Definition eqb (a b : float) : bool := leb a b && leb b a.

Definition lt (a b : float) : Prop := ltb a b = true.
Definition le (a b : float) : Prop := leb a b = true.
Definition feq (a b : float) : Prop := eqb a b = true.

(** Python's two-argument [min(a, b)]: [b] when [b < a], else [a]. *)
Definition py_min (a b : float) : float := if ltb b a then b else a.

(** Python's two-argument [max(a, b)]: [b] when [b > a], else [a]. *)
Definition py_max (a b : float) : float := if ltb a b then b else a.

(** [np.round] on a finite value: round half to even. *)
Definition np_round (q : Q) : Z :=
  let f := Qfloor q in
  match Qcompare (q - inject_Z f) (1 # 2) with
  | Lt => f
  | Gt => (f + 1)%Z
  | Eq => if Z.even f then f else (f + 1)%Z
  end.

(** [np.clip(x, lo, hi)] = [minimum(maximum(x, lo), hi)] on finite values. *)
Definition np_clip (x lo hi : Q) : Q :=
  let y := if Qltb x lo then lo else x in
  if Qltb hi y then hi else y.

(** [int(x)] on a finite float: truncation toward zero. *)
Definition py_int (q : Q) : Z :=
  if Qltb q 0 then Qceiling q else Qfloor q.

(** [np.round(x).astype(int)]; an infinity converts to the smallest
    64-bit integer, as numpy does on the usual platforms. *)
Definition round_int (a : float) : Z :=
  match a with
  | Fin q => np_round q
  | _ => (- 2 ^ 63)%Z
  end.

Definition of_Z (z : Z) : float := Fin (inject_Z z).

End Float.

(* ------------------------------------------------------------------ *)
(** ** Exceptions and in-place mutation *)

Module Py.

Inductive exn : Type :=
| ValueError
| IndexError
| OverflowError
| ZeroDivisionError.

(** The outcome of a call: a value, or a raised exception. *)
Inductive result (A : Type) : Type :=
| Ok (a : A)
| Raise (e : exn).
Arguments Ok {A} a.
Arguments Raise {A} e.

(** A method of an object with state [S]: the state after the call is
    returned also when the call raises, so that "the setter raised and
    left the attribute alone" can be said. *)
Definition M (S A : Type) : Type := S -> result A * S.

Definition ret {S A} (a : A) : M S A := fun s => (Ok a, s).
Definition raise {S A} (e : exn) : M S A := fun s => (Raise e, s).
Definition bind {S A B} (m : M S A) (k : A -> M S B) : M S B :=
  fun s => match m s with
           | (Ok a, s') => k a s'
           | (Raise e, s') => (Raise e, s')
           end.
Definition get {S} : M S S := fun s => (Ok s, s).
Definition put {S} (s : S) : M S unit := fun _ => (Ok tt, s).
Definition modify {S} (f : S -> S) : M S unit := fun s => (Ok tt, f s).

(** Lift a partial pure computation, raising [e] where it has no value. *)
Definition orRaise {S A} (e : exn) (o : option A) : M S A :=
  match o with Some a => ret a | None => raise e end.

(** [for x in xs: body x] *)
Fixpoint for_each {S A} (xs : list A) (body : A -> M S unit) : M S unit :=
  match xs with
  | [] => ret tt
  | x :: xs' => bind (body x) (fun _ => for_each xs' body)
  end.

(** [seq[i]] on a list or tuple: a negative index counts from the end,
    and an index outside [-len, len) raises [IndexError]. *)
Definition subscript {A} (l : list A) (i : Z) : option A :=
  let n := Z.of_nat (List.length l) in
  if (0 <=? i)%Z then nth_error l (Z.to_nat i)
  else if (- n <=? i)%Z then nth_error l (Z.to_nat (n + i))
  else None.

(** The list [l] with position [i] holding [x]. *)
Fixpoint replace_nth {A} (l : list A) (i : nat) (x : A) : list A :=
  match l, i with
  | [], _ => []
  | _ :: l', O => x :: l'
  | y :: l', S i' => y :: replace_nth l' i' x
  end.

(** [l[i] = x] on a list, with the same reading of [i] as [l[i]]. *)
Definition assign {A} (l : list A) (i : Z) (x : A) : option (list A) :=
  let n := Z.of_nat (List.length l) in
  if ((0 <=? i) && (i <? n))%Z then Some (replace_nth l (Z.to_nat i) x)
  else if ((- n <=? i) && (i <? 0))%Z
       then Some (replace_nth l (Z.to_nat (n + i)) x)
       else None.

(** [list(range(n))] for an integer [n] (empty when [n <= 0]). *)
Definition range (n : Z) : list Z := map Z.of_nat (seq 0 (Z.to_nat n)).

End Py.

Declare Scope py_scope.
Delimit Scope py_scope with py.
Notation "x <- m ;; k" := (Py.bind m (fun x => k))
(at level 61, m at next level, right associativity) : py_scope.
Notation "m ;;; k" := (Py.bind m (fun _ => k))
(at level 61, right associativity) : py_scope.

(* ------------------------------------------------------------------ *)
(** ** numpy arrays, basic indexing and views *)

Module NDArray.

(** An n-dimensional integer array: its shape and the value at each index.
    Only the values at indices inside the shape are meaningful. *)
Record ndarray : Type := {
  shape : list nat;
  item : list nat -> Z
}.

Definition ndim (a : ndarray) : nat := List.length (shape a).

Fixpoint in_bounds (sh idx : list nat) : bool :=
  match sh, idx with
  | [], [] => true
  | s :: sh', i :: idx' => (i <? s)%nat && in_bounds sh' idx'
  | _, _ => false
  end.

(** All indices of a shape, in row-major (raster) order. *)
Fixpoint indices (sh : list nat) : list (list nat) :=
  match sh with
  | [] => [[]]
  | s :: sh' => flat_map (fun i => map (cons i) (indices sh')) (seq 0 s)
  end.

(** Array literals as nested lists, for two and three axes. *)
Definition of_list2 (rows : list (list Z)) : ndarray :=
  {| shape := [List.length rows; List.length (hd [] rows)];
     item := fun i => match i with
                      | [r; c] => nth c (nth r rows []) 0%Z
                      | _ => 0%Z
                      end |}.

Definition to_list2 (a : ndarray) : list (list Z) :=
  match shape a with
  | [r; c] => map (fun i => map (fun j => item a [i; j]) (seq 0 c)) (seq 0 r)
  | _ => []
  end.

Definition of_list3 (planes : list (list (list Z))) : ndarray :=
  {| shape := [List.length planes; List.length (hd [] planes);
               List.length (hd [] (hd [] planes))];
     item := fun i => match i with
                      | [p; r; c] => nth c (nth r (nth p planes []) []) 0%Z
                      | _ => 0%Z
                      end |}.

Definition to_list3 (a : ndarray) : list (list (list Z)) :=
  match shape a with
  | [p; r; c] =>
      map (fun k => map (fun i => map (fun j => item a [k; i; j]) (seq 0 c))
                        (seq 0 r)) (seq 0 p)
  | _ => []
  end.

(** One entry of a basic index tuple: an integer, [slice(start, stop, 1)],
    or [slice(None)]. *)
Inductive index : Type :=
| Int (i : Z)
| Slice (start stop : Z)
| All.

(** What an index entry selects on an axis once numpy has resolved it:
    one position, or the positions [lo, lo + len). *)
Inductive axis_sel : Type :=
| Pin (k : nat)
| Span (lo len : nat).

(** An integer index: a negative one counts from the end, and one outside
    [-s, s) raises [IndexError]. *)
Definition resolve_int (s : nat) (i : Z) : option nat :=
  let i' := if (i <? 0)%Z then (i + Z.of_nat s)%Z else i in
  if ((0 <=? i') && (i' <? Z.of_nat s))%Z then Some (Z.to_nat i') else None.

(** A slice bound, as [slice.indices] clips it for step 1. *)
Definition clip_bound (s : nat) (a : Z) : nat :=
  if (a <? 0)%Z then Z.to_nat (Z.max (a + Z.of_nat s) 0)
  else Z.to_nat (Z.min a (Z.of_nat s)).

Definition resolve_slice (s : nat) (a b : Z) : axis_sel :=
  let lo := clip_bound s a in
  let hi := clip_bound s b in
  Span lo (hi - lo).

Definition resolve_entry (s : nat) (ix : index) : option axis_sel :=
  match ix with
  | Int k => option_map Pin (resolve_int s k)
  | Slice a b => Some (resolve_slice s a b)
  | All => Some (Span 0 s)
  end.

(** A whole index tuple against a shape; axes the tuple does not reach are
    taken whole, and a tuple longer than the shape raises [IndexError]
    ([None]). *)
Fixpoint resolve (sh : list nat) (ix : list index) : option (list axis_sel) :=
  match sh, ix with
  | [], [] => Some []
  | [], _ :: _ => None
  | s :: sh', [] => option_map (cons (Span 0 s)) (resolve sh' [])
  | s :: sh', i :: ix' =>
      match resolve_entry s i with
      | Some x => option_map (cons x) (resolve sh' ix')
      | None => None
      end
  end.

Fixpoint sel_shape (sel : list axis_sel) : list nat :=
  match sel with
  | [] => []
  | Pin _ :: sel' => sel_shape sel'
  | Span _ len :: sel' => len :: sel_shape sel'
  end.

(** The index in the base array of position [i] of the selection. *)
Fixpoint sel_to_base (sel : list axis_sel) (i : list nat) : list nat :=
  match sel with
  | [] => []
  | Pin k :: sel' => k :: sel_to_base sel' i
  | Span lo _ :: sel' =>
      match i with
      | x :: i' => (lo + x)%nat :: sel_to_base sel' i'
      | [] => lo :: sel_to_base sel' []
      end
  end.

(** The position in the selection of base index [j], when it is selected. *)
Fixpoint sel_of_base (sel : list axis_sel) (j : list nat) : option (list nat) :=
  match sel, j with
  | [], [] => Some []
  | Pin k :: sel', x :: j' =>
      if (x =? k)%nat then sel_of_base sel' j' else None
  | Span lo len :: sel', x :: j' =>
      if ((lo <=? x) && (x <? lo + len))%nat
      then option_map (cons (x - lo)%nat) (sel_of_base sel' j')
      else None
  | _, _ => None
  end.

Definition selected (sel : list axis_sel) (j : list nat) : bool :=
  match sel_of_base sel j with Some _ => true | None => false end.

(** A view: an array that owns no data but reads and writes the cells of a
    base array.  [to_base] sends an index of the view to the base index it
    stands for, [of_base] goes back (and is [None] on base cells the view
    does not cover). *)
Record view : Type := {
  vshape : list nat;
  to_base : list nat -> list nat;
  of_base : list nat -> option (list nat)
}.

(** The view of the whole array, [a] itself. *)
Definition whole (sh : list nat) : view :=
  {| vshape := sh;
     to_base := fun i => i;
     of_base := fun j => if in_bounds sh j then Some j else None |}.

(** [a[ix]] for a basic index tuple is a view of [a]. *)
Definition basic_view (sel : list axis_sel) : view :=
  {| vshape := sel_shape sel;
     to_base := sel_to_base sel;
     of_base := sel_of_base sel |}.

(** Position of [m] in [axes] (the length of [axes] when absent). *)
Fixpoint position (m : nat) (axes : list nat) : nat :=
  match axes with
  | [] => 0
  | a :: axes' => if (a =? m)%nat then 0 else S (position m axes')
  end.

Definition is_axes (axes : list nat) (n : nat) : bool :=
  (List.length axes =? n)%nat
  && forallb (fun m => existsb (Nat.eqb m) axes) (seq 0 n).

(** [v.transpose(axes)]: axis [k] of the result is axis [axes[k]] of [v],
    so the result at [i] is [v] at the [j] with [j[axes[k]] = i[k]].
    [axes] must be a permutation of the axes, else [ValueError] ([None]). *)
Definition transpose (axes : list nat) (v : view) : option view :=
  let n := List.length (vshape v) in
  if is_axes axes n then
    Some {| vshape := map (fun a => nth a (vshape v) 0%nat) axes;
            to_base := fun i =>
              to_base v (map (fun m => nth (position m axes) i 0%nat) (seq 0 n));
            of_base := fun j =>
              option_map (fun i => map (fun a => nth a i 0%nat) axes)
                         (of_base v j) |}
  else None.

(** The values seen through a view. *)
Definition read (a : ndarray) (v : view) : ndarray :=
  {| shape := vshape v; item := fun i => item a (to_base v i) |}.

(** [a[ix] = value] for a scalar value. *)
Definition setitem_scalar (a : ndarray) (sel : list axis_sel) (value : Z)
  : ndarray :=
  {| shape := shape a;
     item := fun j => if selected sel j then value else item a j |}.

(** [v[mask] = value] for a boolean array [mask] of the view's shape: the
    write goes through the view into the base array. *)
Definition setitem_mask (a : ndarray) (v : view) (mask : list nat -> bool)
  (value : Z) : ndarray :=
  {| shape := shape a;
     item := fun j => match of_base v j with
                      | Some i => if mask i then value else item a j
                      | None => item a j
                      end |}.

(** Broadcasting of a value of shape [vs] to a target of shape [ts] of the
    same rank: on every axis the lengths agree or the value's is 1. *)
Fixpoint broadcastable (vs ts : list nat) : bool :=
  match vs, ts with
  | [], [] => true
  | v :: vs', t :: ts' => ((v =? t) || (v =? 1))%nat && broadcastable vs' ts'
  | _, _ => false
  end.

Fixpoint broadcast_index (vs i : list nat) : list nat :=
  match vs, i with
  | v :: vs', x :: i' =>
      (if (v =? 1)%nat then 0%nat else x) :: broadcast_index vs' i'
  | _, _ => []
  end.

(** [a[ix] = value] for an array value, where [v] is the view [a[ix]]:
    [ValueError] ([None]) when the value does not broadcast to the view's
    shape.  The value is read in full before anything is written, as numpy
    does when source and target overlap. *)
Definition setitem_array (a : ndarray) (v : view) (value : ndarray)
  : option ndarray :=
  if broadcastable (shape value) (vshape v) then
    Some {| shape := shape a;
            item := fun j => match of_base v j with
                             | Some i => item value (broadcast_index (shape value) i)
                             | None => item a j
                             end |}
  else None.

(** Two arrays agree when they have the same shape and the same values at
    every index of it. *)
Definition agree (a b : ndarray) : Prop :=
  shape a = shape b /\
  forall i, in_bounds (shape a) i = true -> item a i = item b i.

End NDArray.

(* ------------------------------------------------------------------ *)
(** ** Dims *)

(** [napari/components/dims.py] is not among the sources; its attributes
    and setters are used by [ViewerModel] and [Labels] and are modelled
    here from section 3 and 4.1 of the specification. *)
Module Dims.

Import Float.
Import Py.

Definition range_t : Type := (float * float * float)%type.

(** Notifications a [Dims] emits, in the order emitted. *)
Inductive event : Type :=
| EvNdim
| EvRange (axis : nat)
| EvAxis (axis : nat)
| EvOrder
| EvNdisplay.

(** Modelled from the spec: the state of a [Dims] (dims.py is missing):
    axis count, per-axis [(min, max, step)], current point, display order
    and number of displayed axes, with the log of what it has notified. *)
Record t : Type := {
  ndim : nat;
  range : list range_t;
  point : list float;
  order : list Z;
  ndisplay : Z;
  emitted : list event
}.

Definition emit (e : event) (d : t) : t :=
  {| ndim := ndim d; range := range d; point := point d; order := order d;
     ndisplay := ndisplay d; emitted := emitted d ++ [e] |}.

Definition with_order (o : list Z) (d : t) : t :=
  {| ndim := ndim d; range := range d; point := point d; order := o;
     ndisplay := ndisplay d; emitted := emitted d |}.

Definition with_ndisplay (n : Z) (d : t) : t :=
  {| ndim := ndim d; range := range d; point := point d; order := order d;
     ndisplay := n; emitted := emitted d |}.

Definition with_point (p : list float) (d : t) : t :=
  {| ndim := ndim d; range := range d; point := p; order := order d;
     ndisplay := ndisplay d; emitted := emitted d |}.

Definition with_range (r : list range_t) (d : t) : t :=
  {| ndim := ndim d; range := r; point := point d; order := order d;
     ndisplay := ndisplay d; emitted := emitted d |}.

Fixpoint list_eqb {A} (eqb : A -> A -> bool) (l1 l2 : list A) : bool :=
  match l1, l2 with
  | [], [] => true
  | x :: l1', y :: l2' => eqb x y && list_eqb eqb l1' l2'
  | _, _ => false
  end.

(** Modelled from the spec: "a permutation of [range(ndim)]", the check
    of the [order] setter (dims.py is missing). *)
Definition is_permutation (o : list Z) (n : nat) : bool :=
  (List.length o =? n)%nat
  && forallb (fun i => existsb (Z.eqb (Z.of_nat i)) o) (seq 0 n).

(** Modelled from the spec: the [order] setter (dims.py is missing):
    "validates the argument is a permutation of [range(ndim)]; rejects
    otherwise"; dependents are notified of a change. *)
Definition set_order (o : list Z) : M t unit := fun d =>
  if negb (is_permutation o (ndim d)) then (Raise ValueError, d)
  else if list_eqb Z.eqb (order d) o then (Ok tt, d)
  else (Ok tt, emit EvOrder (with_order o d)).

(** Modelled from the spec: the [ndisplay] setter (dims.py is missing):
    "accepts only 2 or 3; changing it ... signals dependents to re-slice;
    invalid values signal a ValueError-kind error". *)
Definition set_ndisplay (n : Z) : M t unit := fun d =>
  if negb ((n =? 2)%Z || (n =? 3)%Z) then (Raise ValueError, d)
  else if (ndisplay d =? n)%Z then (Ok tt, d)
  else (Ok tt, emit EvNdisplay (with_ndisplay n d)).

(** The value of [lo <= v <= hi] nearest to [v]. *)
Definition clamp (lo hi v : float) : float :=
  if ltb v lo then lo else if ltb hi v then hi else v.

(** Modelled from the spec: [set_point(axis, value)] (dims.py is
    missing): "clamps value to [min,max] for that axis before storing;
    no-op (no notification) if unchanged".  An axis the [Dims] does not
    have is an [IndexError], as for [set_range]. *)
Definition set_point (axis : nat) (value : float) : M t unit := fun d =>
  match nth_error (range d) axis, nth_error (point d) axis with
  | Some (lo, hi, _), Some old =>
      let v := clamp lo hi value in
      if eqb old v then (Ok tt, d)
      else (Ok tt, emit (EvAxis axis) (with_point (replace_nth (point d) axis v) d))
  | _, _ => (Raise IndexError, d)
  end.

(** Modelled from the spec: [set_range(axis, (min, max, step))] (dims.py
    is missing): "replaces an axis's range; if point[axis] now falls
    outside, clamp it; fails with IndexError-kind if axis out of bounds". *)
Definition set_range (axis : nat) (r : range_t) : M t unit := fun d =>
  match nth_error (range d) axis, nth_error (point d) axis with
  | Some _, Some p =>
      let '(lo, hi, _) := r in
      let d1 := emit (EvRange axis)
                     (with_range (replace_nth (range d) axis r) d) in
      let p' := clamp lo hi p in
      if eqb p p' then (Ok tt, d1)
      else (Ok tt, emit (EvAxis axis)
                        (with_point (replace_nth (point d1) axis p') d1))
  | _, _ => (Raise IndexError, d)
  end.

Definition zero_range : range_t := (of_Z 0, of_Z 0, of_Z 0).

(** Modelled from the spec: the [ndim] setter (dims.py is missing):
    "growing ndim appends new axes with default range (0,0,0) at the front
    (so existing trailing axes keep their positions) and extends
    order/point accordingly; shrinking truncates from the front". *)
Definition set_ndim (n : nat) : M t unit := fun d =>
  if (n =? ndim d)%nat then (Ok tt, d)
  else if (ndim d <? n)%nat then
    let k := (n - ndim d)%nat in
    (Ok tt,
     {| ndim := n;
        range := repeat zero_range k ++ range d;
        point := repeat (of_Z 0) k ++ point d;
        order := Py.range (Z.of_nat k)
                 ++ map (fun o => (o + Z.of_nat k)%Z) (order d);
        ndisplay := ndisplay d;
        emitted := emitted d ++ [EvNdim] |})
  else
    let k := (ndim d - n)%nat in
    (Ok tt,
     {| ndim := n;
        range := skipn k (range d);
        point := skipn k (point d);
        order := map (fun o => (o - Z.of_nat k)%Z)
                     (filter (fun o => (Z.of_nat k <=? o)%Z) (order d));
        ndisplay := ndisplay d;
        emitted := emitted d ++ [EvNdim] |}).

(** Modelled from the spec: [displayed], "last [ndisplay] entries of
    [order]" (dims.py is missing). *)
Definition displayed (d : t) : list Z :=
  skipn (List.length (order d) - Z.to_nat (ndisplay d)) (order d).

(** Modelled from the spec: [not_displayed], "the rest" (dims.py is
    missing). *)
Definition not_displayed (d : t) : list Z :=
  firstn (List.length (order d) - Z.to_nat (ndisplay d)) (order d).

(** Modelled from the spec: [indices], "a per-axis index/slice
    specification built by rounding point to integer for non-displayed
    axes and taking a full slice for displayed axes" (dims.py is
    missing). *)
Definition indices (d : t) : list NDArray.index :=
  map (fun axis =>
         if existsb (Z.eqb (Z.of_nat axis)) (not_displayed d)
         then NDArray.Int (round_int (nth axis (point d) (of_Z 0)))
         else NDArray.All)
      (seq 0 (ndim d)).

(** Modelled from the spec: [displayed_order] (dims.py is missing), the
    axes argument of the transpose that makes the axes of a slice, which
    numpy leaves in ascending order, "appear in dims.displayed order":
    entry [k] is the rank of [displayed[k]] among the displayed axes. *)
Definition displayed_order (d : t) : list nat :=
  map (fun a => List.length (filter (fun b => (b <? a)%Z) (displayed d)))
      (displayed d).

(** The invariants section 3 of the specification states for a [Dims]. *)
Definition wf (d : t) : Prop :=
  List.length (range d) = ndim d /\
  List.length (point d) = ndim d /\
  is_permutation (order d) (ndim d) = true /\
  (ndisplay d = 2 \/ ndisplay d = 3)%Z.

End Dims.

(* ------------------------------------------------------------------ *)
(** ** Layers as the viewer sees them *)

(** [napari/layers/base] is not among the sources.  A layer is modelled by
    the attributes [ViewerModel] reads and writes: its identity, its rank,
    its own [Dims], whether it is selected, and the status, help, cursor
    and interactivity it asks the viewer to show. *)
Module Layer.

Record t : Type := {
  uid : nat;
  ndim : nat;
  dims : Dims.t;
  selected : bool;
  status : string;
  help : string;
  cursor : string;
  interactive : bool
}.

Definition with_dims (d : Dims.t) (l : t) : t :=
  {| uid := uid l; ndim := ndim l; dims := d; selected := selected l;
     status := status l; help := help l; cursor := cursor l;
     interactive := interactive l |}.

(** Run a method of the layer's [dims] on the layer. *)
Definition on_dims {A} (m : Py.M Dims.t A) : Py.M t A := fun l =>
  let (r, d') := m (dims l) in (r, with_dims d' l).

(** Section 3 of the specification: "a Layer's [dims.ndim] always equals
    the rank derived from its current data". *)
Definition consistent (l : t) : Prop :=
  Dims.ndim (dims l) = ndim l /\
  List.length (Dims.range (dims l)) = ndim l /\
  List.length (Dims.point (dims l)) = ndim l.

End Layer.

(* ------------------------------------------------------------------ *)
(** ** ViewerModel *)

Module ViewerModel.

Import Float.
Import Py.
Local Open Scope py_scope.

(** Notifications of the viewer's own emitter group. *)
Inductive event : Type :=
| EvStatus (text : string)
| EvHelp (text : string)
| EvInteractive
| EvCursor
| EvActiveLayer (item : option nat).

(** The attributes of a [ViewerModel] that the modelled methods touch.
    [active_layer] refers to a layer by its identity. *)
Record t : Type := {
  dims : Dims.t;
  layers : list Layer.t;
  status : string;
  help : string;
  cursor : string;
  interactive : bool;
  active_layer : option nat;
  emitted : list event
}.

Definition with_dims (d : Dims.t) (v : t) : t :=
  {| dims := d; layers := layers v; status := status v; help := help v;
     cursor := cursor v; interactive := interactive v;
     active_layer := active_layer v; emitted := emitted v |}.

Definition with_layers (ls : list Layer.t) (v : t) : t :=
  {| dims := dims v; layers := ls; status := status v; help := help v;
     cursor := cursor v; interactive := interactive v;
     active_layer := active_layer v; emitted := emitted v |}.

Definition on_dims {A} (m : M Dims.t A) : M t A := fun v =>
  let (r, d') := m (dims v) in (r, with_dims d' v).

(** *** Property setters: each stores and notifies only on a change *)

Definition set_status (s : string) : M t unit := fun v =>
  if String.eqb s (status v) then (Ok tt, v)
  else (Ok tt,
        {| dims := dims v; layers := layers v; status := s; help := help v;
           cursor := cursor v; interactive := interactive v;
           active_layer := active_layer v;
           emitted := emitted v ++ [EvStatus s] |}).

Definition set_help (s : string) : M t unit := fun v =>
  if String.eqb s (help v) then (Ok tt, v)
  else (Ok tt,
        {| dims := dims v; layers := layers v; status := status v; help := s;
           cursor := cursor v; interactive := interactive v;
           active_layer := active_layer v;
           emitted := emitted v ++ [EvHelp s] |}).

Definition set_cursor (s : string) : M t unit := fun v =>
  if String.eqb s (cursor v) then (Ok tt, v)
  else (Ok tt,
        {| dims := dims v; layers := layers v; status := status v;
           help := help v; cursor := s; interactive := interactive v;
           active_layer := active_layer v;
           emitted := emitted v ++ [EvCursor] |}).

Definition set_interactive (b : bool) : M t unit := fun v =>
  if Bool.eqb b (interactive v) then (Ok tt, v)
  else (Ok tt,
        {| dims := dims v; layers := layers v; status := status v;
           help := help v; cursor := cursor v; interactive := b;
           active_layer := active_layer v;
           emitted := emitted v ++ [EvInteractive] |}).

Definition option_nat_eqb (a b : option nat) : bool :=
  match a, b with
  | None, None => true
  | Some x, Some y => (x =? y)%nat
  | _, _ => false
  end.

Definition set_active_layer (a : option nat) : M t unit := fun v =>
  if option_nat_eqb a (active_layer v) then (Ok tt, v)
  else (Ok tt,
        {| dims := dims v; layers := layers v; status := status v;
           help := help v; cursor := cursor v; interactive := interactive v;
           active_layer := a;
           emitted := emitted v ++ [EvActiveLayer a] |}).

(** *** [_update_layers] *)

(** The order a layer gets from the global order, for
    [offset = self.dims.ndim - layer.dims.ndim]. *)
Definition layer_order (offset : Z) (order : list Z) : list Z :=
  if (offset <=? 0)%Z
  then Py.range (- offset) ++ map (fun o => (o - offset)%Z) order
  else map (fun o => (o - offset)%Z)
           (filter (fun o => (offset <=? o)%Z) order).

(** The body of the loop of [_update_layers]: everything it does, it does
    to [layer.dims] ([d] below), given the viewer's [dims] ([g]).  What
    the observers of the layer's [dims] do when they are notified is not
    replayed: the notification is recorded. *)
Definition reconcile (g : Dims.t) : M Dims.t unit := fun d =>
  let offset := (Z.of_nat (Dims.ndim g) - Z.of_nat (Dims.ndim d))%Z in
  let order := layer_order offset (Dims.order g) in
  (Dims.set_order order ;;;
   Dims.set_ndisplay (Dims.ndisplay g) ;;;
   for_each (seq 0 (Dims.ndim d))
     (fun axis =>
        point <- orRaise IndexError
                   (Py.subscript (Dims.point g) (Z.of_nat axis + offset)) ;;
        Dims.set_point axis point)) d.

Definition update_layer (g : Dims.t) : M Layer.t unit :=
  Layer.on_dims (reconcile g).

(** [for layer in layers: ...]: the layers after the loop, those behind a
    raise untouched. *)
Fixpoint update_each (g : Dims.t) (ls : list Layer.t)
  : result unit * list Layer.t :=
  match ls with
  | [] => (Ok tt, [])
  | l :: ls' =>
      match update_layer g l with
      | (Ok _, l') =>
          let (r, ls'') := update_each g ls' in (r, l' :: ls'')
      | (Raise e, l') => (Raise e, l' :: ls')
      end
  end.

(** [_update_layers(layers=None)]: [layers = layers or self.layers], so no
    argument and an empty list both mean all layers of the viewer.  The
    result lists the layers iterated over, as the loop left them. *)
Definition _update_layers (arg : option (list Layer.t)) (v : t)
  : result unit * list Layer.t :=
  let ls := match arg with
            | Some (l :: ls') => l :: ls'
            | _ => layers v
            end in
  update_each (dims v) ls.

(** *** [_update_active_layer] *)

(** The loop of [_update_active_layer]: [acc] is the local [active_layer];
    a second selected layer resets it and breaks. *)
Fixpoint find_active (acc : option Layer.t) (ls : list Layer.t)
  : option Layer.t :=
  match ls with
  | [] => acc
  | l :: ls' =>
      match acc with
      | None =>
          if Layer.selected l then find_active (Some l) ls'
          else find_active None ls'
      | Some a =>
          if Layer.selected l then None
          else find_active (Some a) ls'
      end
  end.

Definition _update_active_layer : M t unit := fun v =>
  match find_active None (layers v) with
  | None =>
      (set_status "Ready" ;;;
       set_help "" ;;;
       set_cursor "standard" ;;;
       set_interactive true ;;;
       set_active_layer None) v
  | Some a =>
      (set_status (Layer.status a) ;;;
       set_help (Layer.help a) ;;;
       set_cursor (Layer.cursor a) ;;;
       set_interactive (Layer.interactive a) ;;;
       set_active_layer (Some (Layer.uid a))) v
  end.

(** *** [_calc_layers_num_dims], [_calc_layers_ranges], [_on_layers_change] *)

Definition _calc_layers_num_dims (v : t) : nat :=
  fold_left (fun max_dims layer =>
               if (max_dims <? Layer.ndim layer)%nat then Layer.ndim layer
               else max_dims)
            (layers v) 0%nat.

(** [itertools.zip_longest(xs, ys, fillvalue=fill)] *)
Fixpoint zip_longest {A} (fill : A) (xs ys : list A) : list (A * A) :=
  match xs with
  | [] => map (fun y => (fill, y)) ys
  | x :: xs' =>
      match ys with
      | [] => (x, fill) :: zip_longest fill xs' []
      | y :: ys' => (x, y) :: zip_longest fill xs' ys'
      end
  end.

Definition empty_range : Dims.range_t := (PosInf, NegInf, PosInf).

(** [(min(a, b), max(c, d), min(e, f))] *)
Definition union_range (p : Dims.range_t * Dims.range_t) : Dims.range_t :=
  match p with
  | ((a, c, e), (b, d, f)) => (py_min a b, py_max c d, py_min e f)
  end.

Definition _calc_layers_ranges (v : t) : list Dims.range_t :=
  let ndims := _calc_layers_num_dims v in
  let ranges :=
    fold_left (fun ranges layer =>
                 let layer_range := rev (Dims.range (Layer.dims layer)) in
                 map union_range (zip_longest empty_range ranges layer_range))
              (layers v) (repeat empty_range ndims) in
  rev ranges.

(** [for i, r in enumerate(rs): self.dims.set_range(i, r)] *)
Fixpoint set_ranges (i : nat) (rs : list Dims.range_t) : M Dims.t unit :=
  match rs with
  | [] => ret tt
  | r :: rs' => Dims.set_range i r ;;; set_ranges (S i) rs'
  end.

Definition _on_layers_change : M t unit := fun v =>
  let layer_range := _calc_layers_ranges v in
  (on_dims (Dims.set_ndim (List.length layer_range)) ;;;
   on_dims (set_ranges 0 layer_range)) v.

End ViewerModel.

(* ------------------------------------------------------------------ *)
(** ** Connected components *)

(** [scipy.ndimage.label] is a library outside the repository.  [fill]
    takes it as a parameter; this module states what a labelling with the
    default (cross-shaped) structuring element is, and gives one that runs,
    for the concrete images below. *)
Module Ndimage.

Import NDArray.

Definition idx_eqb (p q : list nat) : bool :=
  Dims.list_eqb Nat.eqb p q.

(** The indices one step away from [i] along one axis. *)
Fixpoint neighbours (i : list nat) : list (list nat) :=
  match i with
  | [] => []
  | x :: r =>
      map (cons x) (neighbours r)
      ++ (S x :: r) :: match x with O => [] | S p => [p :: r] end
  end.




(** *** A labelling that runs *)

Definition table : Type := list (list nat * nat).

Definition lookup (tbl : table) (i : list nat) : nat :=
  match find (fun e => idx_eqb (fst e) i) tbl with
  | Some e => snd e
  | None => 0%nat
  end.

(** Every cell of the mask starts with its raster position plus one. *)
Definition seed (sh : list nat) (mask : list nat -> bool) : table :=
  map (fun e => (fst e, if mask (fst e) then snd e else 0%nat))
      (combine (indices sh) (seq 1 (List.length (indices sh)))).

(** One round: a cell of the mask takes the least label among itself and
    its neighbours in the mask. *)
Definition relax (tbl : table) : table :=
  map (fun e =>
         if (snd e =? 0)%nat then e
         else (fst e,
               fold_left Nat.min
                 (filter (fun l => negb (l =? 0)%nat)
                         (map (lookup tbl) (neighbours (fst e))))
                 (snd e)))
      tbl.

Fixpoint relax_n (n : nat) (tbl : table) : table :=
  match n with
  | O => tbl
  | S n' => relax_n n' (relax tbl)
  end.

(** The cells that kept their own seed are the first cells of their
    components in raster order; components are numbered in that order. *)
Definition roots (sd final : table) : list nat :=
  map snd (filter (fun e => negb (snd e =? 0)%nat
                            && (snd e =? lookup sd (fst e))%nat) final).

Fixpoint rank (l : nat) (rs : list nat) : nat :=
  match rs with
  | [] => 0
  | r :: rs' => if (r =? l)%nat then 1 else
                  match rank l rs' with O => O | S k => S (S k) end
  end.

Definition label (sh : list nat) (mask : list nat -> bool)
  : (list nat -> nat) * nat :=
  let sd := seed sh mask in
  let final := relax_n (List.length sd) sd in
  let rs := roots sd final in
  (fun p => rank (lookup final p) rs, List.length rs).

End Ndimage.

(* ------------------------------------------------------------------ *)
(** ** Labels *)

Module Labels.

Import Float.
Import Py.
Import NDArray.
Local Open Scope py_scope.

Definition color : Type := (Q * Q * Q * Q)%type.

Inductive event : Type :=
| EvSetData
| EvBrushSize
| EvSelectedLabel.

(** The attributes of a [Labels] layer that the modelled methods touch.
    [color_of] stands for the colormap lookup of [get_color] (the colormap
    utilities are outside the sources); [coordinates], [scale_factor] and
    [cursor_size] are attributes of the base class.

    [_data_labels] is not a field: [_set_view_slice] makes it a view of
    [data], sliced at [dims.indices] and transposed by
    [dims.displayed_order], and every change of [data] or [dims] re-slices,
    so it is read off [data] and [dims] (see [_data_labels]). *)
Record t : Type := {
  data : ndarray;
  dims : Dims.t;
  n_dimensional : bool;
  contiguous : bool;
  brush_size : Z;
  scale_factor : Q;
  cursor_size : Q;
  selected_label : Z;
  selected_color : option color;
  color_of : Z -> color;
  coordinates : list Q;
  emitted : list event
}.

Definition with_data (a : ndarray) (st : t) : t :=
  {| data := a; dims := dims st; n_dimensional := n_dimensional st;
     contiguous := contiguous st; brush_size := brush_size st;
     scale_factor := scale_factor st; cursor_size := cursor_size st;
     selected_label := selected_label st;
     selected_color := selected_color st; color_of := color_of st;
     coordinates := coordinates st; emitted := emitted st |}.

Definition emit (e : event) (st : t) : t :=
  {| data := data st; dims := dims st; n_dimensional := n_dimensional st;
     contiguous := contiguous st; brush_size := brush_size st;
     scale_factor := scale_factor st; cursor_size := cursor_size st;
     selected_label := selected_label st;
     selected_color := selected_color st; color_of := color_of st;
     coordinates := coordinates st; emitted := emitted st ++ [e] |}.

(** [self.ndim], from [_get_ndim]: the rank of the data. *)
Definition ndim (st : t) : nat := NDArray.ndim (data st).

(** [self.shape]: the extent [_get_extent] reports, the shape of the data. *)
Definition shape (st : t) : list nat := NDArray.shape (data st).

(** *** [brush_size] setter *)

Definition with_brush_size (b : Z) (st : t) : t :=
  {| data := data st; dims := dims st; n_dimensional := n_dimensional st;
     contiguous := contiguous st; brush_size := b;
     scale_factor := scale_factor st; cursor_size := cursor_size st;
     selected_label := selected_label st;
     selected_color := selected_color st; color_of := color_of st;
     coordinates := coordinates st; emitted := emitted st |}.

Definition with_cursor_size (c : Q) (st : t) : t :=
  {| data := data st; dims := dims st; n_dimensional := n_dimensional st;
     contiguous := contiguous st; brush_size := brush_size st;
     scale_factor := scale_factor st; cursor_size := c;
     selected_label := selected_label st;
     selected_color := selected_color st; color_of := color_of st;
     coordinates := coordinates st; emitted := emitted st |}.

(** [int(x)] of a float: an infinity raises [OverflowError]. *)
Definition int_of_float {S} (x : float) : M S Z :=
  match x with
  | Fin q => ret (py_int q)
  | _ => raise OverflowError
  end.

(** The [brush_size] setter: [self._brush_size = int(brush_size)], then
    [self.cursor_size = self._brush_size / self.scale_factor], which
    raises on a zero scale factor with the brush size already stored, then
    the notification. *)
Definition set_brush_size (brush_size : float) : M t unit :=
  b <- int_of_float brush_size ;;
  modify (with_brush_size b) ;;;
  st <- get ;;
  (if Qeq_bool (scale_factor st) 0 then raise ZeroDivisionError
   else modify (with_cursor_size (inject_Z b / scale_factor st))) ;;;
  modify (emit EvBrushSize).

(** *** [selected_label] setter *)

(** [get_color]: no colour for the background label 0. *)
Definition get_color (st : t) (label : Z) : option color :=
  if (label =? 0)%Z then None else Some (color_of st label).

Definition with_selected (l : Z) (c : option color) (st : t) : t :=
  {| data := data st; dims := dims st; n_dimensional := n_dimensional st;
     contiguous := contiguous st; brush_size := brush_size st;
     scale_factor := scale_factor st; cursor_size := cursor_size st;
     selected_label := l; selected_color := c; color_of := color_of st;
     coordinates := coordinates st; emitted := emitted st |}.

(** The [selected_label] setter: a negative value raises before anything
    is written, the value already selected returns early, and any other
    value is stored with its colour and notified. *)
Definition set_selected_label (selected_label' : Z) : M t unit := fun st =>
  if (selected_label' <? 0)%Z then (Raise ValueError, st)
  else if (selected_label' =? selected_label st)%Z then (Ok tt, st)
  else (Ok tt,
        emit EvSelectedLabel
          (with_selected selected_label' (get_color st selected_label') st)).

(** *** The displayed slice *)

(** [_data_labels], as [_set_view_slice] computes it:
    [np.asarray(self.data[self.dims.indices]).transpose(
       self.dims.displayed_order)], a view of [data].  [None] when the
    slicing or the transpose raises. *)
Definition _data_labels (st : t) : option view :=
  match resolve (shape st) (Dims.indices (dims st)) with
  | Some sel => transpose (Dims.displayed_order (dims st)) (basic_view sel)
  | None => None
  end.

(** [_set_view_slice]: re-slices and notifies; the thumbnail and the
    colour-mapped image are presentation only. *)
Definition _set_view_slice : M t unit := fun st =>
  match _data_labels st with
  | Some _ => (Ok tt, emit EvSetData st)
  | None => (Raise IndexError, st)
  end.

(** [arr[tuple(cs)]] for integers [cs], one per axis of the view. *)
Fixpoint resolve_ints (sh : list nat) (cs : list Z) : option (list nat) :=
  match sh, cs with
  | [], [] => Some []
  | s :: sh', c :: cs' =>
      match resolve_int s c, resolve_ints sh' cs' with
      | Some k, Some ks => Some (k :: ks)
      | _, _ => None
      end
  | _, _ => None
  end.

(** [[seq[d] for d in ds]] *)
Fixpoint gather {A} (l : list A) (ds : list Z) : option (list A) :=
  match ds with
  | [] => Some []
  | d :: ds' =>
      match subscript l d, gather l ds' with
      | Some x, Some xs => Some (x :: xs)
      | _, _ => None
      end
  end.

(** *** [fill] *)

Section Fill.

(** [ndi.label]: from the shape and the mask, the labelled array and the
    number of features. *)
Variable ndi_label :
  list nat -> (list nat -> bool) -> (list nat -> nat) * nat.

(** The part of [fill] after the scope is chosen: [labels] is the view
    [v] of the data, [slice_coord] the clicked cell in it.  A
    [slice_coord] with fewer entries than [labels] has axes does not
    arise (coordinates have one entry per axis of the layer) and is
    treated like one with too many, an [IndexError]. *)
Definition fill_scope (v : view) (slice_coord : list Z) (whole_volume : bool)
  (old_label new_label : Z) : M t unit := fun st =>
  let labels := read (data st) v in
  let matches := fun i => (item labels i =? old_label)%Z in
  let refined :=
    if contiguous st then
      let (labeled_matches, num_features) := ndi_label (vshape v) matches in
      if negb (num_features =? 1)%nat then
        match resolve_ints (vshape v) slice_coord with
        | Some c =>
            let match_label := labeled_matches c in
            Some (fun i => matches i
                           && (labeled_matches i =? match_label)%nat)
        | None => None
        end
      else Some matches
    else Some matches in
  match refined with
  | None => (Raise IndexError, st)
  | Some matches' =>
      let data1 := setitem_mask (data st) v matches' new_label in
      if whole_volume then _set_view_slice (with_data data1 st)
      else
        match resolve (NDArray.shape data1) (Dims.indices (dims st)) with
        | None => (Raise IndexError, with_data data1 st)
        | Some sel =>
            match setitem_array data1 (basic_view sel) (read data1 v) with
            | None => (Raise ValueError, with_data data1 st)
            | Some data2 => _set_view_slice (with_data data2 st)
            end
        end
  end.

Definition fill (coord : list Q) (old_label new_label : Z) : M t unit :=
  fun st =>
  let int_coord := map np_round coord in
  if n_dimensional st || (ndim st =? 2)%nat then
    fill_scope (whole (shape st)) int_coord true old_label new_label st
  else
    match _data_labels st, gather int_coord (Dims.displayed (dims st)) with
    | Some v, Some slice_coord =>
        fill_scope v slice_coord false old_label new_label st
    | _, _ => (Raise IndexError, st)
    end.

End Fill.

(** *** [paint] *)

(** [np.round(np.clip(c - self.brush_size / 2 + 0.5, 0, s)).astype(int)] *)
Definition brush_start (c : Q) (brush : Z) (s : nat) : Z :=
  np_round (np_clip (c - inject_Z brush / 2 + (1 # 2)) 0
                    (inject_Z (Z.of_nat s))).

(** [np.round(np.clip(c + self.brush_size / 2 + 0.5, 0, s)).astype(int)] *)
Definition brush_stop (c : Q) (brush : Z) (s : nat) : Z :=
  np_round (np_clip (c + inject_Z brush / 2 + (1 # 2)) 0
                    (inject_Z (Z.of_nat s))).

Definition brush_slice (c : Q) (brush : Z) (s : nat) : index :=
  Slice (brush_start c brush s) (brush_stop c brush s).

(** [for i in self.dims.displayed: slice_coord[i] = slice(...)] *)
Fixpoint paint_displayed (st : t) (coord : list Q) (ds : list Z)
  (slice_coord : list index) : option (list index) :=
  match ds with
  | [] => Some slice_coord
  | i :: ds' =>
      match Py.subscript coord i, Py.subscript (shape st) i with
      | Some c, Some s =>
          match assign slice_coord i (brush_slice c (brush_size st) s) with
          | Some sc => paint_displayed st coord ds' sc
          | None => None
          end
      | _, _ => None
      end
  end.

(** [for i in self.dims.not_displayed:
       slice_coord[i] = np.round(coord[i]).astype(int)] *)
Fixpoint paint_pinned (coord : list Q) (ns : list Z)
  (slice_coord : list index) : option (list index) :=
  match ns with
  | [] => Some slice_coord
  | i :: ns' =>
      match Py.subscript coord i with
      | Some c =>
          match assign slice_coord i (Int (np_round c)) with
          | Some sc => paint_pinned coord ns' sc
          | None => None
          end
      | None => None
      end
  end.

(** The index tuple [paint] builds; [None] when building it raises. *)
Definition paint_slice_coord (st : t) (coord : list Q)
  : option (list index) :=
  if n_dimensional st || (ndim st =? 2)%nat then
    Some (map (fun cs => brush_slice (fst cs) (brush_size st) (snd cs))
              (combine coord (shape st)))
  else
    match paint_displayed st coord (Dims.displayed (dims st))
            (repeat (Int 0) (ndim st)) with
    | Some sc => paint_pinned coord (Dims.not_displayed (dims st)) sc
    | None => None
    end.

Definition paint (coord : list Q) (new_label : Z) : M t unit := fun st =>
  match paint_slice_coord st coord with
  | None => (Raise IndexError, st)
  | Some slice_coord =>
      match resolve (shape st) slice_coord with
      | None => (Raise IndexError, st)
      | Some sel =>
          _set_view_slice
            (with_data (setitem_scalar (data st) sel new_label) st)
      end
  end.

(** *** [get_value] *)

(** What indexing [_data_labels] with integers gives: a label, or, with
    fewer integers than axes, the sub-array left. *)
Inductive value : Type :=
| Scalar (z : Z)
| SubArray (a : ndarray).

Fixpoint in_shape (cs : list Z) (sh : list nat) : bool :=
  match cs, sh with
  | c :: cs', s :: sh' =>
      ((0 <=? c) && (c <? Z.of_nat s))%Z && in_shape cs' sh'
  | _, _ => true
  end.

(** [arr[tuple(cs)]] on the displayed slice. *)
Definition getitem_ints (a : ndarray) (v : view) (cs : list Z)
  : option value :=
  let k := List.length cs in
  match resolve_ints (firstn k (vshape v)) cs with
  | Some i =>
      if (k =? List.length (vshape v))%nat
      then Some (Scalar (item a (to_base v i)))
      else Some (SubArray
                   {| NDArray.shape := skipn k (vshape v);
                      item := fun i' => item a (to_base v (i ++ i')) |})
  | None => None
  end.

(** [get_value]: [Ok None] is the absence value. *)
Definition get_value (st : t) : result (option value) :=
  let coord := map np_round (coordinates st) in
  match _data_labels st, gather coord (Dims.displayed (dims st)) with
  | Some v, Some cs =>
      if in_shape cs (vshape v) then
        match getitem_ints (data st) v cs with
        | Some x => Ok (Some x)
        | None => Raise IndexError
        end
      else Ok None
  | _, _ => Raise IndexError
  end.

End Labels.

(* ------------------------------------------------------------------ *)
(** ** The vocabulary of the statements, and worked examples *)

Section ViewerVocabulary.

Import Float.
Import Py.
Import ViewerModel.
Local Open Scope py_scope.

(** What a call leaves alone in a [Dims]. *)
Definition keeps_axes (d d' : Dims.t) : Prop :=
  Dims.ndim d' = Dims.ndim d /\ Dims.range d' = Dims.range d
  /\ List.length (Dims.point d') = List.length (Dims.point d).

(** The point of [axis] holds the value [v] the viewer pushed, clamped to
    the axis's range (up to [==], which is what the setter compares). *)
Definition holds (d : Dims.t) (axis : nat) (v : float) : Prop :=
  exists lo hi st q,
    nth_error (Dims.range d) axis = Some (lo, hi, st)
    /\ nth_error (Dims.point d) axis = Some q
    /\ eqb q (Dims.clamp lo hi v) = true.

(** One turn of [for axis in range(layer.dims.ndim)]. *)
Definition push_axis (gp : list float) (offset : Z) (axis : nat)
  : M Dims.t unit :=
  point <- orRaise IndexError (Py.subscript gp (Z.of_nat axis + offset)) ;;
  Dims.set_point axis point.

(** [axis] is up to date with the viewer's point. *)
Definition pushed (gp : list float) (offset : Z) (d : Dims.t) (axis : nat)
  : Prop :=
  exists p, Py.subscript gp (Z.of_nat axis + offset) = Some p
            /\ holds d axis p.

(** What [_update_layers] has done to a layer [l], now [l'], of a viewer
    with [dims] [g], when the layer has fewer axes than the viewer. *)
Definition reconciled (g : Dims.t) (l l' : Layer.t) : Prop :=
  let offset :=
    (Z.of_nat (Dims.ndim g) - Z.of_nat (Dims.ndim (Layer.dims l)))%Z in
  Layer.ndim l' = Layer.ndim l
  /\ Dims.ndim (Layer.dims l') = Dims.ndim (Layer.dims l)
  /\ ((0 < offset)%Z ->
      Dims.order (Layer.dims l')
      = map (fun o => (o - offset)%Z)
            (filter (fun o => (offset <=? o)%Z) (Dims.order g))
      /\ Dims.is_permutation (Dims.order (Layer.dims l')) (Layer.ndim l')
         = true
      /\ Permutation (Py.range (Z.of_nat (Layer.ndim l')))
                     (Dims.order (Layer.dims l'))
      /\ Dims.ndisplay (Layer.dims l') = Dims.ndisplay g
      /\ forall axis, (axis < Layer.ndim l)%nat ->
           exists p lo hi st q,
             Py.subscript (Dims.point g) (Z.of_nat axis + offset) = Some p
             /\ nth_error (Dims.range (Layer.dims l)) axis
                = Some (lo, hi, st)
             /\ nth_error (Dims.point (Layer.dims l')) axis = Some q
             /\ feq q (Dims.clamp lo hi p)
             /\ (le lo p -> le p hi -> feq q p)).

(** The three components of a range. *)
Definition lo_of (r : Dims.range_t) : float := fst (fst r).

Definition hi_of (r : Dims.range_t) : float := snd (fst r).

Definition step_of (r : Dims.range_t) : float := snd r.

(** The ranges the layers have along the axis that is [j] places before
    the last one; a layer with [j] axes or fewer has no such axis and
    contributes nothing. *)
Definition axis_triples (ls : list Layer.t) (j : nat) : list Dims.range_t :=
  flat_map (fun l =>
              match nth_error (rev (Dims.range (Layer.dims l))) j with
              | Some r => [r]
              | None => []
              end) ls.

(** [m] is a least (greatest) element of [xs]. *)
Definition is_min (m : float) (xs : list float) : Prop :=
  In m xs /\ forall x, In x xs -> le m x.

Definition is_max (m : float) (xs : list float) : Prop :=
  In m xs /\ forall x, In x xs -> le x m.

(** One turn of the loop of [_calc_layers_ranges]. *)
Definition merge_layer (ranges : list Dims.range_t) (layer : Layer.t)
  : list Dims.range_t :=
  map union_range
      (zip_longest empty_range ranges (rev (Dims.range (Layer.dims layer)))).

End ViewerVocabulary.

(** The range [(0, hi, 1)] of an image axis of length [hi]. *)
Definition unit_range (hi : Z) : Dims.range_t :=
  (Float.of_Z 0, Float.of_Z hi, Float.of_Z 1).

(** A [Dims] over axes of the given lengths, showing two axes. *)
Definition example_dims (extent : list Z) (point order : list Z) : Dims.t :=
  {| Dims.ndim := List.length extent;
     Dims.range := map unit_range extent;
     Dims.point := map Float.of_Z point;
     Dims.order := order;
     Dims.ndisplay := 2;
     Dims.emitted := [] |}.

(** A layer over axes of the given lengths, its axes in their own order
    and its sliders at 0. *)
Definition example_layer (uid : nat) (extent : list Z) : Layer.t :=
  {| Layer.uid := uid;
     Layer.ndim := List.length extent;
     Layer.dims := example_dims extent (map (fun _ => 0%Z) extent)
                     (Py.range (Z.of_nat (List.length extent)));
     Layer.selected := false;
     Layer.status := "Ready";
     Layer.help := "";
     Layer.cursor := "standard";
     Layer.interactive := true |}.

(** The example in the comment of [_update_layers]: a global order
    [[2, 1, 0, 3]] over four axes, a layer with two axes and a layer with
    three. *)
Definition example_viewer : ViewerModel.t :=
  {| ViewerModel.dims :=
       example_dims [5; 6; 10; 15]%Z [1; 2; 3; 4]%Z [2; 1; 0; 3]%Z;
     ViewerModel.layers :=
       [example_layer 0 [10; 15]%Z; example_layer 1 [6; 10; 15]%Z];
     ViewerModel.status := "Ready";
     ViewerModel.help := "";
     ViewerModel.cursor := "standard";
     ViewerModel.interactive := true;
     ViewerModel.active_layer := None;
     ViewerModel.emitted := [] |}.

(** The scenario: an image of shape (6, 10, 15) and a points layer over
    two axes, in a viewer that starts with two axes. *)
Definition scenario_viewer : ViewerModel.t :=
  {| ViewerModel.dims := example_dims [0; 0]%Z [0; 0]%Z [0; 1]%Z;
     ViewerModel.layers :=
       [example_layer 0 [6; 10; 15]%Z; example_layer 1 [20; 12]%Z];
     ViewerModel.status := "Ready";
     ViewerModel.help := "";
     ViewerModel.cursor := "standard";
     ViewerModel.interactive := true;
     ViewerModel.active_layer := None;
     ViewerModel.emitted := [] |}.

(** The same two layers in a viewer over the union of their axes, its
    sliders at 0, 18 and 14: inside the global ranges, but past the end of
    the image's second axis and of the points layer's last axis. *)
Definition far_sliders_viewer : ViewerModel.t :=
  {| ViewerModel.dims :=
       example_dims [6; 20; 15]%Z [0; 18; 14]%Z [0; 1; 2]%Z;
     ViewerModel.layers :=
       [example_layer 0 [6; 10; 15]%Z; example_layer 1 [20; 12]%Z];
     ViewerModel.status := "Ready";
     ViewerModel.help := "";
     ViewerModel.cursor := "standard";
     ViewerModel.interactive := true;
     ViewerModel.active_layer := None;
     ViewerModel.emitted := [] |}.

(** A labels layer over [a] with the given display order and cursor
    position, its sliders at 0. *)
Definition labels_layer (a : NDArray.ndarray) (order : list Z)
  (coords : list Q) : Labels.t :=
  {| Labels.data := a;
     Labels.dims := example_dims (map Z.of_nat (NDArray.shape a))
                      (map (fun _ => 0%Z) (NDArray.shape a)) order;
     Labels.n_dimensional := false;
     Labels.contiguous := true;
     Labels.brush_size := 10;
     Labels.scale_factor := 1;
     Labels.cursor_size := 10;
     Labels.selected_label := 0;
     Labels.selected_color := None;
     Labels.color_of := fun _ => (0, 0, 0, 1)%Q;
     Labels.coordinates := coords;
     Labels.emitted := [] |}.

(** A volume of two planes of two rows and three columns. *)
Definition example_volume : NDArray.ndarray :=
  NDArray.of_list3 [[[1; 2; 3]; [4; 5; 6]]; [[7; 7; 7]; [7; 7; 7]]]%Z.

(** The volume shown with its two last axes swapped, the cursor over
    row 1, column 2 of plane 0. *)
Definition example_labels : Labels.t :=
  labels_layer example_volume [0; 2; 1]%Z [0; 1; 2]%Q.

(** Its displayed slice. *)
Definition example_view : NDArray.view :=
  match Labels._data_labels example_labels with
  | Some v => v
  | None => NDArray.whole []
  end.

Section LabelsVocabulary.

Import Float.
Import Py.
Import NDArray.
Import Labels.

(** The rounded cursor coordinates on the displayed axes, in the order of
    [dims.displayed]. *)
Definition displayed_coords (st : Labels.t) : list Z :=
  map (fun d => nth (Z.to_nat d) (map np_round (coordinates st)) 0%Z)
      (Dims.displayed (dims st)).

(** The coordinates [cs] lie inside the shape [sh]. *)
Definition inside (cs : list Z) (sh : list nat) : Prop :=
  Forall2 (fun c s => (0 <= c < Z.of_nat s)%Z) cs sh.

(** A slice of the index tuple lies within an axis of length [s]. *)
Definition clipped (ix : index) (s : nat) : Prop :=
  match ix with
  | Slice a b => (0 <= a <= Z.of_nat s)%Z /\ (0 <= b <= Z.of_nat s)%Z
  | _ => True
  end.

(** Every slice of the tuple [sc] lies within its axis of the shape. *)
Definition all_clipped (sc : list index) (sh : list nat) : Prop :=
  forall k ix s,
    nth_error sc k = Some ix -> nth_error sh k = Some s -> clipped ix s.

(** The cell [i] is selected by the resolved entry [x] on an axis. *)
Definition on_axis (x : axis_sel) (j : nat) : bool :=
  match x with
  | Pin k => (j =? k)%nat
  | Span lo len => ((lo <=? j) && (j <? lo + len))%nat
  end.

(** The cell the entry selects is the one the source asked for: inside a
    clipped slice, or at the pinned integer (counted from the end when
    negative). *)
Definition as_asked (e : index) (s j : nat) : Prop :=
  match e with
  | Slice a b => (a <= Z.of_nat j < b)%Z
  | Int c => Z.of_nat j = c \/ Z.of_nat j = (c + Z.of_nat s)%Z
  | All => True
  end.

(** [fill] with the labelling of [Ndimage.label], keeping the outcome and
    the data. *)
Definition run_fill (st : Labels.t) (coord : list Q) (old_label new_label : Z)
  : Py.result unit * ndarray :=
  let (r, st') := fill Ndimage.label coord old_label new_label st in
  (r, data st').

(** A one-plane volume shown with its two last axes swapped
    ([dims.order = [0, 2, 1]]), the fill working on the displayed slice. *)
Definition swapped_square : Labels.t :=
  labels_layer (of_list3 [[[1; 2]; [0; 0]]]%Z) [0; 2; 1]%Z [0; 0; 0]%Q.

(** The same with a slice that is not square. *)
Definition swapped_oblong : Labels.t :=
  labels_layer (of_list3 [[[1; 2; 3]; [0; 0; 0]]]%Z) [0; 2; 1]%Z [0; 0; 0]%Q.




End LabelsVocabulary.

(* ------------------------------------------------------------------ *)
(** ** ViewerModel: the bounding box of the scene and a new labels layer *)

Module ViewerScene.

Import Float.
Import Py.
Import ViewerModel.

(** [_calc_bbox]: the mins and the maxes of [_calc_layers_ranges]; when
    there are none, the unit box over the viewer's own axes. *)
Definition _calc_bbox (v : t) : list float * list float :=
  let min_shape := map (fun r => fst (fst r)) (_calc_layers_ranges v) in
  let max_shape := map (fun r => snd (fst r)) (_calc_layers_ranges v) in
  if (List.length min_shape =? 0)%nat
  then (repeat (of_Z 0) (Dims.ndim (dims v)),
        repeat (of_Z 1) (Dims.ndim (dims v)))
  else (min_shape, max_shape).

(** [np.ceil(d).astype('int')], a conversion to numpy's default integer,
    of 64 bits on the usual platforms: the ceiling where it fits; a
    ceiling that does not fit, like an infinity, converts to the smallest
    64-bit integer, as for [round_int]. *)
Definition ceil_int (a : float) : Z :=
  match a with
  | Fin q =>
      if ((- 2 ^ 63 <=? Qceiling q) && (Qceiling q <? 2 ^ 63))%Z
      then Qceiling q
      else (- 2 ^ 63)%Z
  | _ => (- 2 ^ 63)%Z
  end.

(** [_new_labels], up to the shape [dims] it asks [np.zeros] for; the
    array and the layer made of it are not modelled. *)
Definition _new_labels (v : t) : list Z :=
  if (Dims.ndim (dims v) =? 0)%nat then [512; 512]%Z
  else
    let dims := map (fun d => if ltb (of_Z 0) d then ceil_int d else 1%Z)
                    (snd (_calc_bbox v)) in
    if (List.length dims <? 1)%nat then [512; 512]%Z else dims.

End ViewerScene.

(* ------------------------------------------------------------------ *)
(** ** ViewerModel: palette and theme *)

(** The preset palettes ([themes = palettes], from [napari/util/theme],
    which is not among the sources) are a parameter: a dict from theme
    names to palettes, kept as the list of its items in iteration order.
    A palette is a dict of str: str that the code only stores and compares
    with [==]; its type and the comparison are parameters too. *)
Module ViewerTheme.

Import Py.

Section Theme.

Variable palette : Type.
Variable palette_eqb : palette -> palette -> bool.
Variable themes : list (string * palette).

(** [_palette] (initially [None]) and the [palette] notifications. *)
Record t : Type := {
  _palette : option palette;
  emitted : list (option palette)
}.

(** [a == b] for two values that are a palette or [None]. *)
Definition eqb (a b : option palette) : bool :=
  match a, b with
  | None, None => true
  | Some p, Some q => palette_eqb p q
  | _, _ => false
  end.

(** The [palette] setter. *)
Definition set_palette (p : option palette) : M t unit := fun v =>
  if eqb p (_palette v) then (Ok tt, v)
  else (Ok tt, {| _palette := p; emitted := emitted v ++ [p] |}).

(** The [theme] getter: the first theme whose palette is the current one,
    [None] when the loop ends without one. *)
Definition theme (v : t) : option string :=
  option_map fst
    (find (fun item => eqb (Some (snd item)) (_palette v)) themes).

(** [self.themes[theme]] *)
Definition themes_getitem (name : string) : option palette :=
  option_map snd (find (fun item => String.eqb (fst item) name) themes).

(** The [theme] setter: the current theme returns early; a name that is
    no key of [themes] is a [KeyError], re-raised as [ValueError]. *)
Definition set_theme (name : string) : M t unit := fun v =>
  if match theme v with
     | Some current => String.eqb name current
     | None => false
     end
  then (Ok tt, v)
  else match themes_getitem name with
       | Some p => set_palette (Some p) v
       | None => (Raise ValueError, v)
       end.

End Theme.

End ViewerTheme.

(* ------------------------------------------------------------------ *)
(** ** More vocabulary and examples *)

Section SceneVocabulary.

Import Float.
Import Py.
Import ViewerModel.

(** A float whose ceiling is a 64-bit integer, so that
    [np.ceil(d).astype('int')] is that ceiling. *)
Definition fits_int64 (a : float) : Prop :=
  exists q, a = Fin q /\ (- 2 ^ 63 <= Qceiling q < 2 ^ 63)%Z.


(** A layer is in step with the viewer's [dims] [g]: its order is a
    permutation of its axes and it shows as many axes as the viewer. *)
Definition in_step (g : Dims.t) (l : Layer.t) : Prop :=
  Dims.is_permutation (Dims.order (Layer.dims l)) (Layer.ndim l) = true
  /\ Dims.ndisplay (Layer.dims l) = Dims.ndisplay g.

End SceneVocabulary.

Section PaintVocabulary.

Import Float.
Import NDArray.
Import Labels.



(** The slider of every axis that is not displayed points inside the
    data. *)
Definition sliders_inside (st : Labels.t) : Prop :=
  forall a s,
    In a (Dims.not_displayed (dims st)) ->
    nth_error (shape st) (Z.to_nat a) = Some s ->
    (0 <= round_int (nth (Z.to_nat a) (Dims.point (dims st)) (of_Z 0))
     < Z.of_nat s)%Z.



(** [paint] puts a brush slice on the axis [k]: on every axis when it
    works on all of them, on the displayed ones otherwise. *)
Definition painted_axis (st : Labels.t) (k : nat) : bool :=
  (n_dimensional st || (ndim st =? 2)%nat)
  || negb (existsb (Z.eqb (Z.of_nat k)) (Dims.not_displayed (dims st))).

(** A coordinate that is a multiple of 2^-16.  Sums of such a coordinate
    with integers and halves are exact in binary64 as long as they stay
    within 2^36, so that the ends [brush_start] and [brush_stop] compute
    in the rationals are the ones [paint] computes in floats. *)
Definition on_grid (c : Q) : Prop :=
  exists m : Z, (c == inject_Z m / inject_Z (2 ^ 16))%Q.

(** A series of assignments to [selected_label], the caller going on
    after an assignment that raised. *)
Definition select_each (ls : list Z) (st : Labels.t) : Labels.t :=
  fold_left (fun s l => snd (set_selected_label l s)) ls st.

(** How many of the axes below [axis] are displayed. *)
Definition rank_below (disp : nat -> bool) (axis : nat) : nat :=
  List.length (filter disp (seq 0 axis)).

(** What [dims.indices] selects on an axis: the whole of a displayed axis
    of extent [ext axis], the position [pin axis] of another. *)
Definition axis_entry (disp : nat -> bool) (pin ext : nat -> nat)
  (axis : nat) : axis_sel :=
  if disp axis then Span 0 (ext axis) else Pin (pin axis).

End PaintVocabulary.

(** A blank image of three rows and three columns, the cursor over its
    middle, and the image in a volume of one plane. *)
Definition blank_image : Labels.t :=
  labels_layer (NDArray.of_list2 [[0; 0; 0]; [0; 0; 0]; [0; 0; 0]]%Z)
    [0; 1]%Z [1; 1]%Q.


(** A viewer over one three-axis image that is selected and asks for a
    cross cursor without pan and zoom. *)
Definition picking_viewer : ViewerModel.t :=
  {| ViewerModel.dims := example_dims [6; 10; 15]%Z [0; 0; 0]%Z [0; 1; 2]%Z;
     ViewerModel.layers :=
       [example_layer 0 [10; 15]%Z;
        {| Layer.uid := 1;
           Layer.ndim := 3;
           Layer.dims := example_dims [6; 10; 15]%Z [0; 0; 0]%Z [0; 1; 2]%Z;
           Layer.selected := true;
           Layer.status := "picker";
           Layer.help := "click to pick a label";
           Layer.cursor := "cross";
           Layer.interactive := false |}];
     ViewerModel.status := "Ready";
     ViewerModel.help := "";
     ViewerModel.cursor := "standard";
     ViewerModel.interactive := true;
     ViewerModel.active_layer := None;
     ViewerModel.emitted := [] |}.

(** Two presets, palettes standing for themselves by a name, and a viewer
    as [__init__] leaves it before the theme is set. *)
Definition two_themes : list (string * string) :=
  [("dark", "dark palette"); ("light", "light palette")]%string.

Definition no_theme : ViewerTheme.t string :=
  {| ViewerTheme._palette := None; ViewerTheme.emitted := [] |}.

(** The blank image with a brush of size two, and of size one. *)
Definition fine_brush : Labels.t :=
  snd (Labels.set_brush_size (Float.Fin 2) blank_image).

Definition unit_brush : Labels.t :=
  snd (Labels.set_brush_size (Float.Fin 1) blank_image).



(** The scenario with its two layers in the other order. *)
Definition scenario_reordered : ViewerModel.t :=
  ViewerModel.with_layers (rev (ViewerModel.layers scenario_viewer))
    scenario_viewer.

(** A viewer over two axes handed a layer with three. *)
Definition flat_viewer : ViewerModel.t :=
  {| ViewerModel.dims := example_dims [10; 15]%Z [4; 7]%Z [1; 0]%Z;
     ViewerModel.layers := [];
     ViewerModel.status := "Ready";
     ViewerModel.help := "";
     ViewerModel.cursor := "standard";
     ViewerModel.interactive := true;
     ViewerModel.active_layer := None;
     ViewerModel.emitted := [] |}.

(* ================================================================== *)
(** * Properties *)

(* ------------------------------------------------------------------ *)
(** ** Facts about floats *)

Section FloatFacts.

Import Float.

Lemma Qltb_lt (x y : Q) : Qltb x y = true <-> (x < y)%Q.
Proof.
  unfold Qltb. rewrite Qlt_alt. destruct (x ?= y)%Q; split; congruence.
Qed.

Lemma Qltb_ge (x y : Q) : Qltb x y = false <-> (y <= x)%Q.
Proof.
  split; intro H.
  - apply Qnot_lt_le. intro L. apply Qltb_lt in L. congruence.
  - destruct (Qltb x y) eqn:E; [|reflexivity].
    apply Qltb_lt in E. exfalso. apply (Qlt_not_le _ _ E H).
Qed.

Lemma ltb_irrefl (a : float) : ltb a a = false.
Proof.
  destruct a; simpl; try reflexivity. apply Qltb_ge. apply Qle_refl.
Qed.

Lemma ltb_asym (a b : float) : ltb a b = true -> ltb b a = false.
Proof.
  destruct a, b; simpl; try congruence.
  intro H. apply Qltb_lt in H. apply Qltb_ge. apply Qlt_le_weak, H.
Qed.

Lemma ltb_trans (a b c : float) :
  ltb a b = true -> ltb b c = true -> ltb a c = true.
Proof.
  destruct a, b, c; simpl; try congruence.
  rewrite !Qltb_lt. apply Qlt_trans.
Qed.

Lemma leb_refl (a : float) : leb a a = true.
Proof. unfold leb. now rewrite ltb_irrefl. Qed.

Lemma eqb_refl (a : float) : eqb a a = true.
Proof. unfold eqb. now rewrite leb_refl. Qed.

Lemma le_total (a b : float) : le a b \/ le b a.
Proof.
  unfold le, leb. destruct (ltb b a) eqn:E.
  - right. now rewrite (ltb_asym _ _ E).
  - now left.
Qed.

Lemma le_trans (a b c : float) : le a b -> le b c -> le a c.
Proof.
  unfold le, leb. destruct a, b, c; simpl; try congruence; try reflexivity.
  rewrite !negb_true_iff, !Qltb_ge. intros H1 H2. eapply Qle_trans; eauto.
Qed.

Lemma lt_le (a b : float) : ltb a b = true -> le a b.
Proof. intro H. unfold le, leb. now rewrite (ltb_asym _ _ H). Qed.

Lemma py_min_cases (a b : float) : py_min a b = a \/ py_min a b = b.
Proof. unfold py_min. destruct (ltb b a); auto. Qed.

Lemma py_min_le_l (a b : float) : le (py_min a b) a.
Proof.
  unfold py_min. destruct (ltb b a) eqn:E.
  - now apply lt_le.
  - apply leb_refl.
Qed.

Lemma py_min_le_r (a b : float) : le (py_min a b) b.
Proof.
  unfold py_min. destruct (ltb b a) eqn:E.
  - apply leb_refl.
  - unfold le, leb. now rewrite E.
Qed.

Lemma py_max_cases (a b : float) : py_max a b = a \/ py_max a b = b.
Proof. unfold py_max. destruct (ltb a b); auto. Qed.

Lemma py_max_ge_l (a b : float) : le a (py_max a b).
Proof.
  unfold py_max. destruct (ltb a b) eqn:E.
  - now apply lt_le.
  - apply leb_refl.
Qed.

Lemma py_max_ge_r (a b : float) : le b (py_max a b).
Proof.
  unfold py_max. destruct (ltb a b) eqn:E.
  - apply leb_refl.
  - unfold le, leb. now rewrite E.
Qed.

Lemma py_min_PosInf_l (b : float) : py_min PosInf b = b.
Proof. destruct b; reflexivity. Qed.

Lemma py_min_PosInf_r (a : float) : py_min a PosInf = a.
Proof. destruct a; reflexivity. Qed.

Lemma py_max_NegInf_l (b : float) : py_max NegInf b = b.
Proof. destruct b; reflexivity. Qed.

Lemma py_max_NegInf_r (a : float) : py_max a NegInf = a.
Proof. destruct a; reflexivity. Qed.

Lemma clamp_inside (lo hi v : float) :
  le lo v -> le v hi -> Dims.clamp lo hi v = v.
Proof.
  unfold le, leb, Dims.clamp. rewrite !negb_true_iff.
  intros -> ->. reflexivity.
Qed.

(** [np.round] moves a value by less than one and keeps integers. *)
Lemma np_round_cases (q : Q) :
  np_round q = Qfloor q \/ np_round q = (Qfloor q + 1)%Z.
Proof.
  unfold np_round.
  destruct (q - inject_Z (Qfloor q) ?= 1 # 2)%Q; auto.
  destruct (Z.even (Qfloor q)); auto.
Qed.

Lemma np_round_bounds (q : Q) (s : Z) :
  (0 <= q)%Q -> (q <= inject_Z s)%Q -> (0 <= np_round q <= s)%Z.
Proof.
  intros H0 Hs.
  assert (F0 : (0 <= Qfloor q)%Z).
  { change 0%Z with (Qfloor (inject_Z 0)). apply Qfloor_resp_le. exact H0. }
  assert (Fs : (Qfloor q <= s)%Z).
  { rewrite <- (Qfloor_Z s). apply Qfloor_resp_le. exact Hs. }
  destruct (Z.eq_dec (Qfloor q) s) as [E | N].
  - (* the value is the integer [s] itself *)
    assert (Eq : (q == inject_Z s)%Q).
    { apply Qle_antisym; [exact Hs|]. rewrite <- E. apply Qfloor_le. }
    unfold np_round. rewrite E.
    assert (L : (q - inject_Z s ?= 1 # 2)%Q = Lt).
    { apply Qlt_alt. rewrite Eq. unfold Qminus. rewrite Qplus_opp_r.
      reflexivity. }
    rewrite L. lia.
  - destruct (np_round_cases q) as [-> | ->]; lia.
Qed.

Lemma np_clip_bounds (x lo hi : Q) :
  (lo <= hi)%Q -> (lo <= np_clip x lo hi)%Q /\ (np_clip x lo hi <= hi)%Q.
Proof.
  intro H. unfold np_clip.
  destruct (Qltb x lo) eqn:E1.
  - destruct (Qltb hi lo) eqn:E2.
    + apply Qltb_lt in E2. exfalso. apply (Qlt_not_le _ _ E2 H).
    + split; [apply Qle_refl | exact H].
  - apply Qltb_ge in E1.
    destruct (Qltb hi x) eqn:E2.
    + split; [exact H | apply Qle_refl].
    + apply Qltb_ge in E2. split; assumption.
Qed.

End FloatFacts.

(* ------------------------------------------------------------------ *)
(** ** Labels: the [selected_label] and [brush_size] setters *)

Section LabelsSetters.

Import Float.
Import Py.

(** C7.  Assigning a negative value to [selected_label] raises
    [ValueError] and leaves the whole layer, so also [selected_label] and
    the selected colour, as it was; assigning a non-negative value
    succeeds and [selected_label] then holds that value, the selected
    colour being that of the new label when the label changed. *)
Theorem selected_label_setter_rejects_negative :
  forall (st : Labels.t) (v : Z),
    ((v < 0)%Z ->
     Labels.set_selected_label v st = (Raise ValueError, st))
    /\
    ((0 <= v)%Z ->
     exists st',
       Labels.set_selected_label v st = (Ok tt, st')
       /\ Labels.selected_label st' = v
       /\ Labels.selected_color st' =
            (if (v =? Labels.selected_label st)%Z
             then Labels.selected_color st
             else Labels.get_color st v)).
Proof.
  intros st v. unfold Labels.set_selected_label. split; intro H.
  - apply Z.ltb_lt in H. now rewrite H.
  - apply Z.ltb_ge in H. rewrite H.
    destruct (v =? Labels.selected_label st)%Z eqn:E.
    + apply Z.eqb_eq in E. exists st. auto.
    + eexists. split; [reflexivity|]. simpl. auto.
Qed.

Lemma py_int_toward_zero (q : Q) :
  ((0 <= q)%Q ->
   (inject_Z (py_int q) <= q)%Q /\ (q < inject_Z (py_int q + 1))%Q)
  /\
  ((q < 0)%Q ->
   (inject_Z (py_int q - 1) < q)%Q /\ (q <= inject_Z (py_int q))%Q).
Proof.
  unfold py_int. split; intro H.
  - apply Qltb_ge in H. rewrite H. split; [apply Qfloor_le | apply Qlt_floor].
  - apply Qltb_lt in H. rewrite H.
    split; [apply Qceiling_lt | apply Qle_ceiling].
Qed.

(** C9.  Setting [brush_size] to a (finite) float [q] stores [int(q)], the
    integer obtained by dropping the fractional part (the integer nearest
    to [q] between 0 and [q]); this holds whether or not the cursor-size
    update that follows succeeds, so the brush size read back, from which
    [paint] derives its neighbourhood, is that integer. *)
Theorem brush_size_setter_truncates :
  forall (st : Labels.t) (q : Q),
    Labels.brush_size (snd (Labels.set_brush_size (Fin q) st)) = py_int q
    /\ ((0 <= q)%Q ->
        (inject_Z (py_int q) <= q)%Q /\ (q < inject_Z (py_int q + 1))%Q)
    /\ ((q < 0)%Q ->
        (inject_Z (py_int q - 1) < q)%Q /\ (q <= inject_Z (py_int q))%Q).
Proof.
  intros st q. split; [|apply py_int_toward_zero].
  unfold Labels.set_brush_size, bind, Labels.int_of_float, ret, modify, get,
    raise.
  cbn. destruct (Qeq_bool (Labels.scale_factor st) 0); reflexivity.
Qed.

End LabelsSetters.

(* ------------------------------------------------------------------ *)
(** ** ViewerModel: the active layer *)

Section ActiveLayer.

Import Py.
Import ViewerModel.

Lemma find_active_some (a : Layer.t) (ls : list Layer.t) :
  find_active (Some a) ls =
  match filter Layer.selected ls with
  | [] => Some a
  | _ :: _ => None
  end.
Proof.
  induction ls as [|l ls IH]; simpl; [reflexivity|].
  destruct (Layer.selected l); [reflexivity | exact IH].
Qed.

Lemma find_active_none (ls : list Layer.t) :
  find_active None ls =
  match filter Layer.selected ls with
  | [l] => Some l
  | _ => None
  end.
Proof.
  induction ls as [|l ls IH]; simpl; [reflexivity|].
  destruct (Layer.selected l).
  - rewrite find_active_some. destruct (filter Layer.selected ls); reflexivity.
  - exact IH.
Qed.

(** The five assignments at the end of [_update_active_layer]: whatever
    was there before, the attributes end up with the values assigned. *)
Lemma assign_all (s h c : string) (i : bool) (a : option nat) (v : t) :
  exists v',
    (set_status s ;;; set_help h ;;; set_cursor c ;;;
     set_interactive i ;;; set_active_layer a)%py v = (Ok tt, v')
    /\ status v' = s /\ help v' = h /\ cursor v' = c
    /\ interactive v' = i /\ active_layer v' = a
    /\ layers v' = layers v /\ dims v' = dims v.
Proof.
  unfold bind, set_status, set_help, set_cursor, set_interactive,
    set_active_layer.
  destruct (String.eqb s (status v)) eqn:Es;
    [apply String.eqb_eq in Es|];
  cbn [status help cursor interactive active_layer layers dims emitted];
  (destruct (String.eqb h (help v)) eqn:Eh;
    [apply String.eqb_eq in Eh|]);
  cbn [status help cursor interactive active_layer layers dims emitted];
  (destruct (String.eqb c (cursor v)) eqn:Ec;
    [apply String.eqb_eq in Ec|]);
  cbn [status help cursor interactive active_layer layers dims emitted];
  (destruct (Bool.eqb i (interactive v)) eqn:Ei;
    [apply Bool.eqb_prop in Ei|]);
  cbn [status help cursor interactive active_layer layers dims emitted];
  (destruct (option_nat_eqb a (active_layer v)) eqn:Ea;
    [assert (a = active_layer v)
       by (destruct a, (active_layer v); simpl in Ea; try discriminate;
           [apply Nat.eqb_eq in Ea; now subst | reflexivity])|]);
  eexists; (split; [reflexivity|]);
  cbn [status help cursor interactive active_layer layers dims emitted];
  repeat split; auto.
Qed.

(** C10.  [_update_active_layer] always returns, and afterwards
    [active_layer] is the one selected layer when exactly one layer of the
    list is selected, and [None] when none or several are; in the [None]
    case the status is 'Ready', the help string empty, the cursor
    'standard' and the viewer interactive. *)
Theorem update_active_layer_unique_selected :
  forall (v : t),
    exists v',
      _update_active_layer v = (Ok tt, v')
      /\ (forall l, filter Layer.selected (layers v) = [l] ->
            active_layer v' = Some (Layer.uid l))
      /\ (List.length (filter Layer.selected (layers v)) <> 1%nat ->
            active_layer v' = None
            /\ status v' = "Ready"%string /\ help v' = ""%string
            /\ cursor v' = "standard"%string /\ interactive v' = true).
Proof.
  intro v. unfold _update_active_layer. rewrite find_active_none.
  destruct (filter Layer.selected (layers v)) as [|l [|l2 rest]] eqn:F.
  - destruct (assign_all "Ready" "" "standard" true None v)
      as (v' & E & Hs & Hh & Hc & Hi & Ha & _).
    exists v'. split; [exact E|]. split.
    + intros l0 H. discriminate.
    + intros _. auto.
  - destruct (assign_all (Layer.status l) (Layer.help l) (Layer.cursor l)
                (Layer.interactive l) (Some (Layer.uid l)) v)
      as (v' & E & _ & _ & _ & _ & Ha & _).
    exists v'. split; [exact E|]. split.
    + intros l0 H. injection H as <-. exact Ha.
    + simpl. intro N. exfalso. apply N. reflexivity.
  - destruct (assign_all "Ready" "" "standard" true None v)
      as (v' & E & Hs & Hh & Hc & Hi & Ha & _).
    exists v'. split; [exact E|]. split.
    + intros l0 H. discriminate.
    + intros _. auto.
Qed.

End ActiveLayer.

(* ------------------------------------------------------------------ *)
(** ** Axis orders are permutations *)

Section Orders.

Lemma range_of_nat (n : nat) :
  Py.range (Z.of_nat n) = map Z.of_nat (seq 0 n).
Proof. unfold Py.range. now rewrite Nat2Z.id. Qed.

Lemma range_nonpos (z : Z) : (z <= 0)%Z -> Py.range z = [].
Proof.
  intro H. unfold Py.range.
  replace (Z.to_nat z) with 0%nat by lia. reflexivity.
Qed.

Lemma NoDup_range (n : nat) : NoDup (map Z.of_nat (seq 0 n)).
Proof.
  apply Injective_map_NoDup; [|apply seq_NoDup].
  intros x y. apply Nat2Z.inj.
Qed.

(** The check of the [order] setter accepts exactly the permutations of
    [0 .. n-1]. *)
Lemma is_permutation_spec (o : list Z) (n : nat) :
  Dims.is_permutation o n = true <->
  Permutation (map Z.of_nat (seq 0 n)) o.
Proof.
  unfold Dims.is_permutation. rewrite andb_true_iff, Nat.eqb_eq,
    forallb_forall. split.
  - intros [L H]. apply NoDup_Permutation_bis.
    + apply NoDup_range.
    + rewrite length_map, length_seq. lia.
    + intros z Hz. apply in_map_iff in Hz. destruct Hz as (i & <- & Hi).
      specialize (H i Hi). apply existsb_exists in H.
      destruct H as (x & Hx & E). apply Z.eqb_eq in E. now subst.
  - intro P. split.
    + apply Permutation_length in P.
      now rewrite length_map, length_seq in P.
    + intros i Hi. apply existsb_exists. exists (Z.of_nat i). split.
      * eapply Permutation_in; [exact P|]. now apply in_map.
      * apply Z.eqb_refl.
Qed.

Lemma Permutation_filter_compat {A} (f : A -> bool) (l l' : list A) :
  Permutation l l' -> Permutation (filter f l) (filter f l').
Proof.
  induction 1; simpl.
  - constructor.
  - destruct (f x); [now constructor | assumption].
  - destruct (f x), (f y); try apply Permutation_refl; apply perm_swap.
  - eapply Permutation_trans; eassumption.
Qed.

Lemma filter_none {A} (f : A -> bool) (l : list A) :
  (forall x, In x l -> f x = false) -> filter f l = [].
Proof.
  induction l as [|a l IH]; simpl; intro H; [reflexivity|].
  rewrite (H a) by now left. apply IH. intros x Hx. apply H. now right.
Qed.

Lemma filter_all {A} (f : A -> bool) (l : list A) :
  (forall x, In x l -> f x = true) -> filter f l = l.
Proof.
  induction l as [|a l IH]; simpl; intro H; [reflexivity|].
  rewrite (H a) by now left. f_equal. apply IH.
  intros x Hx. apply H. now right.
Qed.

Lemma renumber_seq (k m a : nat) :
  map (fun x => (Z.of_nat x - Z.of_nat k)%Z) (seq (a + k) m)
  = map Z.of_nat (seq a m).
Proof.
  revert a. induction m as [|m IH]; intro a; simpl; [reflexivity|].
  f_equal; [lia|]. apply (IH (S a)).
Qed.

(** Dropping the entries below [k] from [0 .. n-1] and renumbering the
    rest down by [k] gives [0 .. n-k-1]. *)
Lemma drop_renumber_range (k n : nat) :
  (k <= n)%nat ->
  map (fun o => (o - Z.of_nat k)%Z)
      (filter (fun o => (Z.of_nat k <=? o)%Z) (map Z.of_nat (seq 0 n)))
  = map Z.of_nat (seq 0 (n - k)).
Proof.
  intro H. replace n with (k + (n - k))%nat at 1 by lia.
  rewrite seq_app, map_app, filter_app.
  rewrite filter_none, filter_all; simpl.
  - rewrite map_map. apply (renumber_seq k (n - k) 0).
  - intros x Hx. apply in_map_iff in Hx. destruct Hx as (i & <- & Hi).
    apply in_seq in Hi. apply Z.leb_le. lia.
  - intros x Hx. apply in_map_iff in Hx. destruct Hx as (i & <- & Hi).
    apply in_seq in Hi. apply Z.leb_gt. lia.
Qed.

(** For a layer of lower rank than the viewer, the order [_update_layers]
    derives from a valid global order is a valid order of the layer. *)
Lemma layer_order_valid (gn ln : nat) (order : list Z) :
  (ln <= gn)%nat ->
  Dims.is_permutation order gn = true ->
  Dims.is_permutation
    (ViewerModel.layer_order (Z.of_nat gn - Z.of_nat ln) order) ln = true.
Proof.
  intros Hle Hp. apply is_permutation_spec in Hp.
  apply is_permutation_spec. unfold ViewerModel.layer_order.
  destruct (Z.of_nat gn - Z.of_nat ln <=? 0)%Z eqn:E.
  - apply Z.leb_le in E. assert (ln = gn) by lia. subst ln.
    rewrite Z.sub_diag. simpl.
    rewrite (map_ext _ (fun o => o)) by (intro; lia).
    now rewrite map_id.
  - apply Z.leb_gt in E.
    replace (Z.of_nat gn - Z.of_nat ln)%Z with (Z.of_nat (gn - ln)) by lia.
    replace ln with (gn - (gn - ln))%nat at 1 by lia.
    rewrite <- drop_renumber_range by lia.
    apply Permutation_map. apply Permutation_filter_compat. exact Hp.
Qed.

End Orders.

(* ------------------------------------------------------------------ *)
(** ** ViewerModel: reconciling a layer's axes with the global ones *)

Section Reconcile.

Import Float.
Import Py.
Import ViewerModel.
Local Open Scope py_scope.

Lemma list_eqb_Z_eq (l1 l2 : list Z) :
  Dims.list_eqb Z.eqb l1 l2 = true <-> l1 = l2.
Proof.
  revert l2. induction l1 as [|x l1 IH]; intros [|y l2]; simpl;
    try (split; congruence).
  rewrite andb_true_iff, Z.eqb_eq, IH. split.
  - intros [-> ->]. reflexivity.
  - intro H. injection H as -> ->. auto.
Qed.

Lemma length_replace_nth {A} (l : list A) (i : nat) (x : A) :
  List.length (replace_nth l i x) = List.length l.
Proof.
  revert i. induction l as [|y l IH]; intros [|i]; simpl; auto.
Qed.

Lemma nth_error_replace_nth_same {A} (l : list A) (i : nat) (x y : A) :
  nth_error l i = Some y -> nth_error (replace_nth l i x) i = Some x.
Proof.
  revert i. induction l as [|z l IH]; intros [|i]; simpl; try discriminate.
  - reflexivity.
  - apply IH.
Qed.

Lemma nth_error_replace_nth_other {A} (l : list A) (i j : nat) (x : A) :
  i <> j -> nth_error (replace_nth l i x) j = nth_error l j.
Proof.
  revert i j. induction l as [|z l IH]; intros [|i] [|j] H; simpl; auto.
  - congruence.
Qed.

Lemma keeps_axes_refl d : keeps_axes d d.
Proof. repeat split. Qed.

Lemma keeps_axes_trans d1 d2 d3 :
  keeps_axes d1 d2 -> keeps_axes d2 d3 -> keeps_axes d1 d3.
Proof.
  intros (A1 & B1 & C1) (A2 & B2 & C2). repeat split; congruence.
Qed.

(** *** The [order] setter *)

Lemma set_order_raise o d e d' :
  Dims.set_order o d = (Raise e, d') -> d' = d.
Proof.
  unfold Dims.set_order.
  destruct (negb (Dims.is_permutation o (Dims.ndim d)));
    [|destruct (Dims.list_eqb Z.eqb (Dims.order d) o)]; congruence.
Qed.

Lemma set_order_ok o d u d' :
  Dims.set_order o d = (Ok u, d') ->
  Dims.is_permutation o (Dims.ndim d) = true
  /\ Dims.order d' = o /\ keeps_axes d d'
  /\ Dims.point d' = Dims.point d /\ Dims.ndisplay d' = Dims.ndisplay d.
Proof.
  unfold Dims.set_order.
  destruct (Dims.is_permutation o (Dims.ndim d)) eqn:P; simpl;
    [|discriminate].
  destruct (Dims.list_eqb Z.eqb (Dims.order d) o) eqn:E; intro H;
    injection H as _ <-.
  - apply list_eqb_Z_eq in E. repeat split; auto.
  - repeat split; auto.
Qed.

Lemma set_order_settled o d :
  Dims.is_permutation o (Dims.ndim d) = true -> Dims.order d = o ->
  Dims.set_order o d = (Ok tt, d).
Proof.
  intros P E. unfold Dims.set_order. rewrite P. simpl.
  assert (L : Dims.list_eqb Z.eqb (Dims.order d) o = true)
    by now apply list_eqb_Z_eq.
  now rewrite L.
Qed.

(** *** The [ndisplay] setter *)

Lemma set_ndisplay_raise n d e d' :
  Dims.set_ndisplay n d = (Raise e, d') -> d' = d.
Proof.
  unfold Dims.set_ndisplay.
  destruct (negb ((n =? 2)%Z || (n =? 3)%Z));
    [|destruct (Dims.ndisplay d =? n)%Z]; congruence.
Qed.

Lemma set_ndisplay_ok n d u d' :
  Dims.set_ndisplay n d = (Ok u, d') ->
  (n = 2 \/ n = 3)%Z
  /\ Dims.ndisplay d' = n /\ keeps_axes d d'
  /\ Dims.point d' = Dims.point d /\ Dims.order d' = Dims.order d.
Proof.
  unfold Dims.set_ndisplay.
  destruct ((n =? 2)%Z || (n =? 3)%Z) eqn:V; simpl; [|discriminate].
  assert (n = 2 \/ n = 3)%Z.
  { apply orb_true_iff in V. rewrite !Z.eqb_eq in V. exact V. }
  destruct (Dims.ndisplay d =? n)%Z eqn:E; intro H0; injection H0 as _ <-.
  - apply Z.eqb_eq in E. repeat split; auto.
  - repeat split; auto.
Qed.

Lemma set_ndisplay_settled n d :
  (n = 2 \/ n = 3)%Z -> Dims.ndisplay d = n ->
  Dims.set_ndisplay n d = (Ok tt, d).
Proof.
  intros V E. unfold Dims.set_ndisplay.
  replace ((n =? 2)%Z || (n =? 3)%Z) with true.
  - simpl. rewrite E, Z.eqb_refl. reflexivity.
  - symmetry. apply orb_true_iff. rewrite !Z.eqb_eq. exact V.
Qed.

(** *** [set_point] *)

Lemma set_point_raise axis v d e d' :
  Dims.set_point axis v d = (Raise e, d') -> d' = d.
Proof.
  unfold Dims.set_point.
  destruct (nth_error (Dims.range d) axis) as [[[lo hi] st]|];
    [|congruence].
  destruct (nth_error (Dims.point d) axis) as [old|]; [|congruence].
  destruct (eqb old (Dims.clamp lo hi v)); congruence.
Qed.

Lemma set_point_ok axis v d u d' :
  Dims.set_point axis v d = (Ok u, d') ->
  holds d' axis v /\ keeps_axes d d'
  /\ Dims.order d' = Dims.order d /\ Dims.ndisplay d' = Dims.ndisplay d
  /\ (forall a, a <> axis ->
        nth_error (Dims.point d') a = nth_error (Dims.point d) a).
Proof.
  unfold Dims.set_point, holds.
  destruct (nth_error (Dims.range d) axis) as [[[lo hi] st]|] eqn:R;
    [|congruence].
  destruct (nth_error (Dims.point d) axis) as [old|] eqn:P; [|congruence].
  destruct (eqb old (Dims.clamp lo hi v)) eqn:E; intro H;
    injection H as _ <-.
  - split; [exists lo, hi, st, old; auto|]. repeat split; auto.
  - cbn [Dims.range Dims.point Dims.emit Dims.with_point Dims.order
         Dims.ndisplay Dims.ndim].
    split.
    + exists lo, hi, st, (Dims.clamp lo hi v). repeat split; auto.
      * eapply nth_error_replace_nth_same; eauto.
      * apply eqb_refl.
    + repeat split; auto.
      * apply length_replace_nth.
      * intros a Ha. apply nth_error_replace_nth_other. congruence.
Qed.

Lemma set_point_settled axis v d :
  holds d axis v -> Dims.set_point axis v d = (Ok tt, d).
Proof.
  intros (lo & hi & st & q & R & P & E).
  unfold Dims.set_point. rewrite R, P, E. reflexivity.
Qed.

(** *** The loop over the layer's axes *)

Lemma push_axis_raise gp offset axis d e d' :
  push_axis gp offset axis d = (Raise e, d') -> d' = d.
Proof.
  unfold push_axis, bind, orRaise.
  destruct (Py.subscript gp (Z.of_nat axis + offset)) as [p|]; simpl.
  - apply set_point_raise.
  - unfold raise. congruence.
Qed.

Lemma push_axis_ok gp offset axis d u d' :
  push_axis gp offset axis d = (Ok u, d') ->
  pushed gp offset d' axis /\ keeps_axes d d'
  /\ Dims.order d' = Dims.order d /\ Dims.ndisplay d' = Dims.ndisplay d
  /\ (forall a, a <> axis ->
        nth_error (Dims.point d') a = nth_error (Dims.point d) a).
Proof.
  unfold push_axis, bind, orRaise, pushed.
  destruct (Py.subscript gp (Z.of_nat axis + offset)) as [p|]; simpl.
  - intro H. apply set_point_ok in H.
    destruct H as (H1 & H2). split; [exists p; auto | exact H2].
  - unfold raise. congruence.
Qed.

Lemma push_axis_settled gp offset axis d :
  pushed gp offset d axis -> push_axis gp offset axis d = (Ok tt, d).
Proof.
  intros (p & S & H). unfold push_axis, bind, orRaise. rewrite S. simpl.
  now apply set_point_settled.
Qed.

(** A turn for one axis does not undo what was pushed to another. *)
Lemma push_axis_preserves gp offset axis a d r d' :
  push_axis gp offset axis d = (r, d') ->
  pushed gp offset d a -> pushed gp offset d' a.
Proof.
  intros H Ha. destruct (Nat.eq_dec a axis) as [-> | N].
  - rewrite (push_axis_settled Ha) in H. now injection H as _ <-.
  - destruct r as [u|e].
    + apply push_axis_ok in H.
      destruct H as (_ & (_ & R & _) & _ & _ & F).
      destruct Ha as (p & S & lo & hi & st & q & HR & HP & E).
      exists p. split; [exact S|]. exists lo, hi, st, q.
      rewrite R, (F a N). auto.
    + apply push_axis_raise in H. now subst.
Qed.

Lemma push_all_spec gp offset (axes : list nat) :
  forall d r d',
    for_each axes (push_axis gp offset) d = (r, d') ->
    keeps_axes d d'
    /\ Dims.order d' = Dims.order d /\ Dims.ndisplay d' = Dims.ndisplay d
    /\ (forall a, pushed gp offset d a -> pushed gp offset d' a)
    /\ (r = Ok tt -> forall a, In a axes -> pushed gp offset d' a)
    /\ for_each axes (push_axis gp offset) d' = (r, d').
Proof.
  induction axes as [|axis axes IH]; intros d r d' H.
  - simpl in H. unfold ret in H. injection H as <- <-.
    repeat split; auto. intros _ a [].
  - simpl in H. unfold bind in H.
    destruct (push_axis gp offset axis d) as [[u|e] d1] eqn:E1.
    + pose proof (push_axis_ok _ _ _ _ E1) as (P1 & K1 & O1 & N1 & _).
      destruct (IH _ _ _ H) as (K & O & N & Pres & All & Again).
      split; [eapply keeps_axes_trans; eauto|].
      split; [congruence|]. split; [congruence|].
      split; [|split].
      * intros a Ha. apply Pres.
        eapply push_axis_preserves; eauto.
      * intros Hr a [<- | Ha]; [apply Pres; exact P1 | now apply All].
      * simpl. unfold bind.
        rewrite (push_axis_settled (Pres _ P1)). exact Again.
    + injection H as <- <-.
      apply push_axis_raise in E1 as E1'. subst d1.
      repeat split; auto.
      * discriminate.
      * simpl. unfold bind. now rewrite E1.
Qed.

(** *** The whole loop body *)

Lemma reconcile_unfold g d :
  reconcile g d =
  (Dims.set_order
     (layer_order (Z.of_nat (Dims.ndim g) - Z.of_nat (Dims.ndim d))
                  (Dims.order g)) ;;;
   Dims.set_ndisplay (Dims.ndisplay g) ;;;
   for_each (seq 0 (Dims.ndim d))
     (push_axis (Dims.point g)
                (Z.of_nat (Dims.ndim g) - Z.of_nat (Dims.ndim d)))) d.
Proof. reflexivity. Qed.

(** What [reconcile] leaves behind, run to the end or cut by a raise: a
    second run does the same and changes nothing. *)
Lemma reconcile_again g d r d' :
  reconcile g d = (r, d') ->
  Dims.ndim d' = Dims.ndim d /\ reconcile g d' = (r, d').
Proof.
  rewrite reconcile_unfold. unfold bind at 1.
  set (offset := (Z.of_nat (Dims.ndim g) - Z.of_nat (Dims.ndim d))%Z).
  set (o := layer_order offset (Dims.order g)).
  destruct (Dims.set_order o d) as [[u1|e1] d1] eqn:E1.
  - apply set_order_ok in E1.
    destruct E1 as (P1 & O1 & (Kn1 & Kr1 & Kl1) & _ & _).
    unfold bind at 1.
    destruct (Dims.set_ndisplay (Dims.ndisplay g) d1) as [[u2|e2] d2] eqn:E2.
    + apply set_ndisplay_ok in E2.
      destruct E2 as (V2 & N2 & (Kn2 & Kr2 & Kl2) & _ & O2).
      intro H. apply push_all_spec in H.
      destruct H as ((Kn3 & Kr3 & Kl3) & O3 & N3 & _ & _ & Again).
      assert (Hn : Dims.ndim d' = Dims.ndim d) by congruence.
      split; [exact Hn|].
      rewrite reconcile_unfold, Hn. fold offset. fold o.
      unfold bind at 1. rewrite set_order_settled by congruence.
      unfold bind at 1. rewrite set_ndisplay_settled by congruence.
      exact Again.
    + intro H. injection H as <- <-.
      apply set_ndisplay_raise in E2 as E2'. subst d2.
      split; [exact Kn1|].
      rewrite reconcile_unfold, Kn1. fold offset. fold o.
      unfold bind at 1. rewrite set_order_settled by congruence.
      unfold bind at 1. now rewrite E2.
  - intro H. injection H as <- <-.
    apply set_order_raise in E1 as E1'. subst d1.
    split; [reflexivity|].
    rewrite reconcile_unfold. fold offset. fold o.
    unfold bind at 1. now rewrite E1.
Qed.

Lemma update_layer_again g l r l' :
  update_layer g l = (r, l') -> update_layer g l' = (r, l').
Proof.
  unfold update_layer, Layer.on_dims.
  destruct (reconcile g (Layer.dims l)) as [r0 d'] eqn:E.
  intro H. injection H as <- <-. simpl.
  apply reconcile_again in E. destruct E as (_ & E). now rewrite E.
Qed.

Lemma update_each_again g ls :
  forall r ls', update_each g ls = (r, ls') -> update_each g ls' = (r, ls').
Proof.
  induction ls as [|l ls IH]; intros r ls' H; simpl in H.
  - now injection H as <- <-.
  - destruct (update_layer g l) as [[u|e] l1] eqn:E1.
    + destruct (update_each g ls) as [r2 ls2] eqn:E2.
      injection H as <- <-. simpl.
      rewrite (update_layer_again _ _ E1), (IH _ _ eq_refl). reflexivity.
    + injection H as <- <-. simpl.
      now rewrite (update_layer_again _ _ E1).
Qed.

Lemma update_each_length g ls :
  List.length (snd (update_each g ls)) = List.length ls.
Proof.
  induction ls as [|l ls IH]; simpl; [reflexivity|].
  destruct (update_layer g l) as [[u|e] l1]; simpl; [|reflexivity].
  destruct (update_each g ls) as [r2 ls2]. simpl in *. now rewrite IH.
Qed.

(** C5.  [_update_layers] is idempotent.  Run on the layers as a first run
    left them, with the viewer's own state untouched in between, it
    returns what the first run returned (also when that was a raise) and
    leaves every layer exactly as it was: order, ndisplay and point of its
    [dims] are those of the first run, and the log of what its [dims]
    notified has not grown, so nothing is notified and nothing re-sliced a
    second time.  This holds for the run over all layers and for a run
    over layers passed as argument. *)
Theorem update_layers_idempotent :
  forall (v : t),
    _update_layers None (with_layers (snd (_update_layers None v)) v)
    = _update_layers None v
    /\
    forall ls : list Layer.t,
      _update_layers (Some (snd (_update_layers (Some ls) v))) v
      = _update_layers (Some ls) v.
Proof.
  intro v. split.
  - unfold _update_layers. simpl.
    destruct (update_each (dims v) (layers v)) as [r ls'] eqn:E. simpl.
    eapply update_each_again; exact E.
  - intro ls. unfold _update_layers. destruct ls as [|l0 rest].
    + destruct (update_each (dims v) (layers v)) as [r ls'] eqn:E. simpl.
      destruct ls' as [|l' ls'']; [exact E | eapply update_each_again; exact E].
    + destruct (update_each (dims v) (l0 :: rest)) as [r ls'] eqn:E. simpl.
      pose proof (update_each_length (dims v) (l0 :: rest)) as L.
      rewrite E in L. simpl in L.
      destruct ls' as [|l' ls'']; [discriminate|].
      eapply update_each_again; exact E.
Qed.

(** *** A consistent viewer: the update runs through *)

Lemma subscript_nonneg {A} (l : list A) (i : nat) :
  Py.subscript l (Z.of_nat i) = nth_error l i.
Proof.
  unfold Py.subscript.
  replace (0 <=? Z.of_nat i)%Z with true by (symmetry; apply Z.leb_le; lia).
  now rewrite Nat2Z.id.
Qed.

Lemma nth_error_in_range {A} (l : list A) (i : nat) :
  (i < List.length l)%nat -> exists x, nth_error l i = Some x.
Proof.
  intro H. destruct (nth_error l i) as [x|] eqn:E; [eauto|].
  apply nth_error_None in E. lia.
Qed.

Lemma push_all_runs gp offset (axes : list nat) :
  forall d,
    (forall a, In a axes ->
       (a < List.length (Dims.range d))%nat
       /\ (a < List.length (Dims.point d))%nat
       /\ exists p, Py.subscript gp (Z.of_nat a + offset) = Some p) ->
    exists d', for_each axes (push_axis gp offset) d = (Ok tt, d').
Proof.
  induction axes as [|axis axes IH]; intros d H; simpl.
  - eexists. reflexivity.
  - destruct (H axis (or_introl eq_refl)) as (Hr & Hp & p & S).
    destruct (nth_error_in_range _ Hr) as ([[lo hi] st] & R).
    destruct (nth_error_in_range _ Hp) as (old & P).
    assert (E : exists d1, push_axis gp offset axis d = (Ok tt, d1)).
    { unfold push_axis, bind, orRaise. rewrite S. simpl.
      unfold Dims.set_point. rewrite R, P.
      destruct (eqb old (Dims.clamp lo hi p)); eauto. }
    destruct E as (d1 & E). unfold bind. rewrite E.
    apply push_axis_ok in E as (_ & (Kn & Kr & Kl) & _).
    apply IH. intros a Ha. rewrite Kr, Kl. apply H. now right.
Qed.

(** The loop body on the [dims] of a layer whose rank does not exceed the
    viewer's. *)
Lemma reconcile_runs g d :
  Dims.wf g ->
  List.length (Dims.range d) = Dims.ndim d ->
  List.length (Dims.point d) = Dims.ndim d ->
  (Dims.ndim d <= Dims.ndim g)%nat ->
  let offset := (Z.of_nat (Dims.ndim g) - Z.of_nat (Dims.ndim d))%Z in
  exists d',
    reconcile g d = (Ok tt, d')
    /\ Dims.order d' = layer_order offset (Dims.order g)
    /\ Dims.is_permutation (Dims.order d') (Dims.ndim d') = true
    /\ Dims.ndisplay d' = Dims.ndisplay g
    /\ keeps_axes d d'
    /\ (forall a, (a < Dims.ndim d)%nat ->
          pushed (Dims.point g) offset d' a).
Proof.
  intros (GR & GP & GO & GN) LR LP Hle offset.
  rewrite reconcile_unfold. fold offset.
  set (o := layer_order offset (Dims.order g)).
  assert (Po : Dims.is_permutation o (Dims.ndim d) = true)
    by (apply layer_order_valid; assumption).
  assert (E1 : exists d1, Dims.set_order o d = (Ok tt, d1)).
  { unfold Dims.set_order. rewrite Po. simpl.
    destruct (Dims.list_eqb Z.eqb (Dims.order d) o); eauto. }
  destruct E1 as (d1 & E1). unfold bind at 1. rewrite E1.
  apply set_order_ok in E1.
  destruct E1 as (_ & O1 & (Kn1 & Kr1 & Kl1) & _ & _).
  assert (E2 : exists d2,
             Dims.set_ndisplay (Dims.ndisplay g) d1 = (Ok tt, d2)).
  { unfold Dims.set_ndisplay.
    replace ((Dims.ndisplay g =? 2)%Z || (Dims.ndisplay g =? 3)%Z)
      with true
      by (symmetry; apply orb_true_iff; rewrite !Z.eqb_eq; exact GN).
    simpl. destruct (Dims.ndisplay d1 =? Dims.ndisplay g)%Z; eauto. }
  destruct E2 as (d2 & E2). unfold bind at 1. rewrite E2.
  apply set_ndisplay_ok in E2.
  destruct E2 as (_ & N2 & (Kn2 & Kr2 & Kl2) & _ & O2).
  destruct (@push_all_runs (Dims.point g) offset (seq 0 (Dims.ndim d)) d2)
    as (d3 & E3).
  { intros a Ha. apply in_seq in Ha. rewrite Kr2, Kr1, Kl2, Kl1, LR, LP.
    split; [lia|]. split; [lia|].
    replace (Z.of_nat a + offset)%Z
      with (Z.of_nat (a + (Dims.ndim g - Dims.ndim d))) by (unfold offset; lia).
    rewrite subscript_nonneg. apply nth_error_in_range. lia. }
  rewrite E3. exists d3.
  apply push_all_spec in E3.
  destruct E3 as ((Kn3 & Kr3 & Kl3) & O3 & N3 & _ & All & _).
  split; [reflexivity|].
  split; [congruence|]. split; [|split; [congruence|split]].
  - replace (Dims.order d3) with o by congruence.
    replace (Dims.ndim d3) with (Dims.ndim d) by congruence. exact Po.
  - repeat split; congruence.
  - intros a Ha. apply All; [reflexivity|]. apply in_seq. lia.
Qed.

Lemma update_layer_reconciles g l :
  Dims.wf g ->
  Layer.consistent l ->
  (Layer.ndim l <= Dims.ndim g)%nat ->
  exists l', update_layer g l = (Ok tt, l') /\ reconciled g l l'.
Proof.
  intros W (Cn & Cr & Cp) Hle.
  destruct (@reconcile_runs g (Layer.dims l) W) as
    (d' & E & O & P & N & (Kn & Kr & Kl) & A); try congruence; try lia.
  exists (Layer.with_dims d' l). split.
  - unfold update_layer, Layer.on_dims. now rewrite E.
  - unfold reconciled. simpl. split; [reflexivity|]. split; [exact Kn|].
    intro Hpos. split; [|split; [|split; [|split]]].
    + rewrite O. unfold layer_order.
      replace (_ <=? 0)%Z with false by (symmetry; apply Z.leb_gt; lia).
      reflexivity.
    + rewrite <- Cn, <- Kn. exact P.
    + rewrite range_of_nat. apply is_permutation_spec.
      rewrite <- Cn, <- Kn. exact P.
    + exact N.
    + intros axis Ha. rewrite <- Cn in Ha.
      destruct (A axis Ha) as (p & S & lo & hi & st & q & HR & HP & HE).
      exists p, lo, hi, st, q. rewrite <- Kr.
      repeat split; auto.
      intros L1 L2. unfold feq. now rewrite <- (clamp_inside L1 L2).
Qed.

Lemma update_each_reconciles g ls :
  Dims.wf g ->
  Forall (fun l => Layer.consistent l
                   /\ (Layer.ndim l <= Dims.ndim g)%nat) ls ->
  exists ls', update_each g ls = (Ok tt, ls')
              /\ Forall2 (reconciled g) ls ls'.
Proof.
  intros W. induction 1 as [|l ls (C & Hle) _ IH]; simpl.
  - exists []. split; [reflexivity | constructor].
  - destruct (update_layer_reconciles W C Hle) as (l' & E & R).
    destruct IH as (ls' & E' & R').
    rewrite E, E'. exists (l' :: ls'). split; [reflexivity|].
    now constructor.
Qed.

(** C1.  In a viewer whose [dims] are well formed and whose layers are
    consistent and of rank at most the global one, [_update_layers] runs
    to the end and, for every layer with
    [offset = global ndim - layer ndim > 0]:
    the layer's order is the global order with the entries below [offset]
    dropped and [offset] subtracted from the others, in their order, and
    it is a permutation of [0 .. layer ndim - 1]; the layer's ndisplay is
    the global one; and every axis of the layer has been given the global
    point of axis [axis + offset] through [set_point], which keeps it
    within the axis's range: the layer's point equals it where it lies in
    the range. *)
Theorem update_layers_lower_rank :
  forall (v : t),
    Dims.wf (dims v) ->
    Forall (fun l => Layer.consistent l
                     /\ (Layer.ndim l <= Dims.ndim (dims v))%nat)
           (layers v) ->
    exists ls',
      _update_layers None v = (Ok tt, ls')
      /\ Forall2 (reconciled (dims v)) (layers v) ls'.
Proof.
  intros v W F. unfold _update_layers.
  now apply update_each_reconciles.
Qed.

End Reconcile.

Example update_layers_comment_example :
  map (fun l => (Dims.order (Layer.dims l),
                 map Float.round_int (Dims.point (Layer.dims l))))
      (snd (ViewerModel._update_layers None example_viewer))
  = [([0; 1]%Z, [3; 4]%Z); ([1; 0; 2]%Z, [2; 3; 4]%Z)].
Proof. vm_compute. reflexivity. Qed.

Lemma update_layers_lower_rank_witness :
  exists ls',
    ViewerModel._update_layers None example_viewer = (Py.Ok tt, ls')
    /\ Forall2 (reconciled (ViewerModel.dims example_viewer))
               (ViewerModel.layers example_viewer) ls'.
Proof.
  apply update_layers_lower_rank.
  - repeat split; try reflexivity. now left.
  - repeat constructor.
Defined.

(** C1, read as "afterwards the layer's point is the global one", fails
    where a slider of the viewer lies beyond a layer's own range.  In
    [far_sliders_viewer], whose [dims] are well formed and whose layers
    are consistent, the points layer has two axes ([offset] 1);
    [_update_layers] runs to the end and leaves 12, the end of its range,
    as the point of its axis 1, where the global point of axis 2 is 14. *)
Lemma update_layers_point_clamped :
  Dims.wf (ViewerModel.dims far_sliders_viewer)
  /\ Forall
       (fun l =>
          Layer.consistent l
          /\ (Layer.ndim l
              <= Dims.ndim (ViewerModel.dims far_sliders_viewer))%nat)
       (ViewerModel.layers far_sliders_viewer)
  /\ map Layer.ndim (ViewerModel.layers far_sliders_viewer) = [3; 2]%nat
  /\ Dims.point (ViewerModel.dims far_sliders_viewer)
     = map Float.of_Z [0; 18; 14]%Z
  /\ fst (ViewerModel._update_layers None far_sliders_viewer) = Py.Ok tt
  /\ map (fun l => Dims.point (Layer.dims l))
         (snd (ViewerModel._update_layers None far_sliders_viewer))
     = [map Float.of_Z [0; 10; 14]%Z; map Float.of_Z [18; 12]%Z]
  /\ Float.eqb (Float.of_Z 12) (Float.of_Z 14) = false.
Proof.
  split; [repeat split; try reflexivity; now left|].
  split; [repeat constructor|].
  repeat split; vm_compute; reflexivity.
Qed.

(* ------------------------------------------------------------------ *)
(** ** ViewerModel: the global number of axes and the global ranges *)

Section LayersChange.

Import Float.
Import Py.
Import ViewerModel.
Local Open Scope py_scope.

(** *** [_calc_layers_num_dims] *)

Lemma num_dims_fold (ls : list Layer.t) (a : nat) :
  fold_left (fun max_dims layer =>
               if (max_dims <? Layer.ndim layer)%nat then Layer.ndim layer
               else max_dims) ls a
  = Nat.max a (list_max (map Layer.ndim ls)).
Proof.
  revert a. induction ls as [|l ls IH]; intro a; simpl.
  - lia.
  - rewrite IH. destruct (a <? Layer.ndim l)%nat eqn:E.
    + apply Nat.ltb_lt in E. lia.
    + apply Nat.ltb_ge in E. lia.
Qed.

Lemma calc_layers_num_dims_max (v : t) :
  _calc_layers_num_dims v = list_max (map Layer.ndim (layers v)).
Proof. unfold _calc_layers_num_dims. now rewrite num_dims_fold. Qed.

(** *** [_calc_layers_ranges] *)

Lemma union_empty_l (r : Dims.range_t) : union_range (empty_range, r) = r.
Proof.
  destruct r as [[b d] f]. unfold union_range, empty_range.
  now rewrite !py_min_PosInf_l, py_max_NegInf_l.
Qed.

Lemma union_empty_r (r : Dims.range_t) : union_range (r, empty_range) = r.
Proof.
  destruct r as [[a c] e]. unfold union_range, empty_range.
  now rewrite !py_min_PosInf_r, py_max_NegInf_r.
Qed.

Lemma length_zip_longest {A} (fill : A) (xs ys : list A) :
  List.length (zip_longest fill xs ys)
  = Nat.max (List.length xs) (List.length ys).
Proof.
  revert ys. induction xs as [|x xs IH]; intros ys; simpl.
  - now rewrite length_map.
  - destruct ys as [|y ys]; simpl; rewrite IH; simpl; lia.
Qed.

Lemma nth_union_zip (xs ys : list Dims.range_t) (j : nat) :
  nth j (map union_range (zip_longest empty_range xs ys)) empty_range
  = union_range (nth j xs empty_range, nth j ys empty_range).
Proof.
  revert ys j. induction xs as [|x xs IH]; intros ys j.
  - simpl zip_longest. rewrite map_map.
    replace (nth j [] empty_range) with empty_range by now destruct j.
    rewrite union_empty_l.
    rewrite (map_ext _ (fun y => y)) by apply union_empty_l.
    now rewrite map_id.
  - destruct ys as [|y ys]; destruct j as [|j]; simpl; auto.
    + rewrite IH. now destruct j.
Qed.

Lemma merge_layers_length (ls : list Layer.t) (init : list Dims.range_t) :
  List.length (fold_left merge_layer ls init)
  = Nat.max (List.length init)
      (list_max (map (fun l => List.length (Dims.range (Layer.dims l))) ls)).
Proof.
  revert init. induction ls as [|l ls IH]; intro init; simpl.
  - lia.
  - rewrite IH. unfold merge_layer.
    rewrite length_map, length_zip_longest, length_rev. lia.
Qed.

Lemma merge_layers_nth (ls : list Layer.t) (init : list Dims.range_t)
  (j : nat) :
  nth j (fold_left merge_layer ls init) empty_range
  = fold_left (fun acc r => union_range (acc, r)) (axis_triples ls j)
      (nth j init empty_range).
Proof.
  revert init. induction ls as [|l ls IH]; intro init; simpl; [reflexivity|].
  rewrite IH. unfold merge_layer. rewrite nth_union_zip.
  unfold axis_triples. cbn [flat_map].
  destruct (nth_error (rev (Dims.range (Layer.dims l))) j) as [r|] eqn:E.
  - rewrite (nth_error_nth _ _ _ E). reflexivity.
  - apply nth_error_None in E.
    rewrite (nth_overflow _ _ E), union_empty_r. reflexivity.
Qed.

Lemma fold_union_components (ts : list Dims.range_t) (a c e : float) :
  fold_left (fun acc r => union_range (acc, r)) ts (a, c, e)
  = (fold_left py_min (map lo_of ts) a,
     fold_left py_max (map hi_of ts) c,
     fold_left py_min (map step_of ts) e).
Proof.
  revert a c e. induction ts as [|[[b d] f] ts IH]; intros a c e; simpl.
  - reflexivity.
  - apply IH.
Qed.

Lemma fold_min_spec (xs : list float) (a : float) :
  let r := fold_left py_min xs a in
  (r = a \/ In r xs) /\ le r a /\ forall x, In x xs -> le r x.
Proof.
  revert a. induction xs as [|x xs IH]; intro a; simpl.
  - split; [now left|]. split; [apply leb_refl|]. intros x [].
  - destruct (IH (py_min a x)) as (H1 & H2 & H3).
    split; [|split].
    + destruct H1 as [H1 | H1]; [|now right; right].
      rewrite H1. destruct (py_min_cases a x) as [-> | ->]; auto.
    + eapply le_trans; [exact H2 | apply py_min_le_l].
    + intros y [<- | Hy]; [|now apply H3].
      eapply le_trans; [exact H2 | apply py_min_le_r].
Qed.

Lemma fold_max_spec (xs : list float) (a : float) :
  let r := fold_left py_max xs a in
  (r = a \/ In r xs) /\ le a r /\ forall x, In x xs -> le x r.
Proof.
  revert a. induction xs as [|x xs IH]; intro a; simpl.
  - split; [now left|]. split; [apply leb_refl|]. intros x [].
  - destruct (IH (py_max a x)) as (H1 & H2 & H3).
    split; [|split].
    + destruct H1 as [H1 | H1]; [|now right; right].
      rewrite H1. destruct (py_max_cases a x) as [-> | ->]; auto.
    + eapply le_trans; [apply py_max_ge_l | exact H2].
    + intros y [<- | Hy]; [|now apply H3].
      eapply le_trans; [apply py_max_ge_r | exact H2].
Qed.

Lemma le_PosInf (x : float) : le PosInf x -> x = PosInf.
Proof. destruct x; unfold le, leb; simpl; congruence. Qed.

Lemma le_NegInf (x : float) : le x NegInf -> x = NegInf.
Proof. destruct x; unfold le, leb; simpl; congruence. Qed.

Lemma fold_min_is_min (xs : list float) :
  xs <> [] -> is_min (fold_left py_min xs PosInf) xs.
Proof.
  intro N. destruct (fold_min_spec xs PosInf) as (H1 & _ & H3).
  split; [|exact H3].
  destruct H1 as [H1 | H1]; [|exact H1].
  destruct xs as [|x xs]; [congruence|].
  assert (L : le (fold_left py_min (x :: xs) PosInf) x)
    by (apply H3; now left).
  rewrite H1 in L. apply le_PosInf in L. rewrite H1, <- L. now left.
Qed.

Lemma fold_max_is_max (xs : list float) :
  xs <> [] -> is_max (fold_left py_max xs NegInf) xs.
Proof.
  intro N. destruct (fold_max_spec xs NegInf) as (H1 & _ & H3).
  split; [|exact H3].
  destruct H1 as [H1 | H1]; [|exact H1].
  destruct xs as [|x xs]; [congruence|].
  assert (L : le x (fold_left py_max (x :: xs) NegInf))
    by (apply H3; now left).
  rewrite H1 in L. apply le_NegInf in L. rewrite H1, <- L. now left.
Qed.

Lemma axis_triples_nonempty (ls : list Layer.t) (j : nat) :
  (j < list_max (map (fun l => List.length (Dims.range (Layer.dims l))) ls))%nat ->
  axis_triples ls j <> [].
Proof.
  induction ls as [|l ls IH]; simpl; [lia|].
  intro H. unfold axis_triples. simpl.
  destruct (nth_error (rev (Dims.range (Layer.dims l))) j) as [r|] eqn:E.
  - simpl. discriminate.
  - simpl. apply IH. apply nth_error_None in E. rewrite length_rev in E. lia.
Qed.

Lemma calc_layers_ranges_unfold (v : t) :
  _calc_layers_ranges v
  = rev (fold_left merge_layer (layers v)
           (repeat empty_range (_calc_layers_num_dims v))).
Proof. reflexivity. Qed.

Lemma calc_layers_ranges_length (v : t) :
  Forall Layer.consistent (layers v) ->
  List.length (_calc_layers_ranges v) = list_max (map Layer.ndim (layers v)).
Proof.
  intro F. rewrite calc_layers_ranges_unfold, length_rev, merge_layers_length.
  rewrite repeat_length, calc_layers_num_dims_max.
  replace (map (fun l => List.length (Dims.range (Layer.dims l))) (layers v))
    with (map Layer.ndim (layers v)); [lia|].
  apply map_ext_in. intros l Hl.
  rewrite Forall_forall in F. destruct (F l Hl) as (_ & R & _). now rewrite R.
Qed.

(** Along every global axis the computed range is the union of the ranges
    of the layers that have the axis, the axes counted from the last. *)
Lemma calc_layers_ranges_axis (v : t) (g : nat) :
  Forall Layer.consistent (layers v) ->
  (g < list_max (map Layer.ndim (layers v)))%nat ->
  let ts := axis_triples (layers v)
              (list_max (map Layer.ndim (layers v)) - 1 - g) in
  exists lo hi st,
    nth_error (_calc_layers_ranges v) g = Some (lo, hi, st)
    /\ is_min lo (map lo_of ts)
    /\ is_max hi (map hi_of ts)
    /\ is_min st (map step_of ts).
Proof.
  intros F Hg ts.
  pose proof (@calc_layers_ranges_length v F) as L.
  set (N := list_max (map Layer.ndim (layers v))) in *.
  assert (E : nth_error (_calc_layers_ranges v) g
              = Some (nth g (_calc_layers_ranges v) empty_range))
    by (apply nth_error_nth'; lia).
  rewrite calc_layers_ranges_unfold in E at 2.
  rewrite calc_layers_ranges_unfold, length_rev in L.
  rewrite rev_nth in E by lia. rewrite L in E.
  replace (N - S g)%nat with (N - 1 - g)%nat in E by lia.
  rewrite merge_layers_nth in E.
  replace (nth (N - 1 - g) (repeat empty_range (_calc_layers_num_dims v))
               empty_range) with empty_range in E
    by (symmetry; apply nth_repeat).
  unfold empty_range in E at 1. rewrite fold_union_components in E.
  fold ts in E.
  assert (NE : ts <> []).
  { apply axis_triples_nonempty.
    replace (map (fun l => List.length (Dims.range (Layer.dims l)))
                 (layers v)) with (map Layer.ndim (layers v)); [fold N; lia|].
    apply map_ext_in. intros l Hl. rewrite Forall_forall in F.
    destruct (F l Hl) as (_ & R & _). now rewrite R. }
  do 3 eexists. split; [exact E|].
  split; [|split].
  - apply fold_min_is_min. destruct ts; [congruence | discriminate].
  - apply fold_max_is_max. destruct ts; [congruence | discriminate].
  - apply fold_min_is_min. destruct ts; [congruence | discriminate].
Qed.

(** *** [_on_layers_change] *)

Lemma set_ndim_ok (n : nat) (d : Dims.t) :
  List.length (Dims.range d) = Dims.ndim d ->
  List.length (Dims.point d) = Dims.ndim d ->
  exists d',
    Dims.set_ndim n d = (Ok tt, d')
    /\ Dims.ndim d' = n
    /\ List.length (Dims.range d') = n
    /\ List.length (Dims.point d') = n.
Proof.
  intros R P. unfold Dims.set_ndim.
  destruct (n =? Dims.ndim d)%nat eqn:E.
  - apply Nat.eqb_eq in E. exists d. repeat split; congruence.
  - apply Nat.eqb_neq in E.
    destruct (Dims.ndim d <? n)%nat eqn:G.
    + apply Nat.ltb_lt in G. eexists. split; [reflexivity|]. simpl.
      rewrite !length_app, !repeat_length. repeat split; lia.
    + apply Nat.ltb_ge in G. eexists. split; [reflexivity|]. simpl.
      rewrite !length_skipn. repeat split; lia.
Qed.

Lemma firstn_S_replace_nth {A} (l : list A) (i : nat) (x : A) :
  (i < List.length l)%nat ->
  firstn (S i) (replace_nth l i x) = firstn i l ++ [x].
Proof.
  revert i. induction l as [|y l IH]; intros [|i] H; simpl in *; try lia.
  - reflexivity.
  - f_equal. apply IH. lia.
Qed.

Lemma set_range_ok (i : nat) (r : Dims.range_t) (d : Dims.t) :
  (i < List.length (Dims.range d))%nat ->
  (i < List.length (Dims.point d))%nat ->
  exists d',
    Dims.set_range i r d = (Ok tt, d')
    /\ Dims.ndim d' = Dims.ndim d
    /\ Dims.range d' = replace_nth (Dims.range d) i r
    /\ List.length (Dims.point d') = List.length (Dims.point d).
Proof.
  intros R P. unfold Dims.set_range.
  destruct (nth_error_in_range _ R) as (old & ->).
  destruct (nth_error_in_range _ P) as (p & ->).
  destruct r as [[lo hi] st].
  destruct (eqb p (Dims.clamp lo hi p)).
  - eexists. split; [reflexivity|]. simpl. auto.
  - eexists. split; [reflexivity|]. simpl.
    rewrite length_replace_nth. auto.
Qed.

Lemma set_ranges_ok (rs : list Dims.range_t) :
  forall (i : nat) (d : Dims.t),
    List.length (Dims.range d) = (i + List.length rs)%nat ->
    List.length (Dims.point d) = (i + List.length rs)%nat ->
    exists d',
      set_ranges i rs d = (Ok tt, d')
      /\ Dims.ndim d' = Dims.ndim d
      /\ Dims.range d' = firstn i (Dims.range d) ++ rs
      /\ List.length (Dims.point d') = List.length (Dims.point d).
Proof.
  induction rs as [|r rs IH]; intros i d R P; simpl in *.
  - exists d. split; [reflexivity|]. split; [reflexivity|].
    split; [|reflexivity].
    rewrite app_nil_r, firstn_all2; [reflexivity | lia].
  - destruct (@set_range_ok i r d) as (d1 & E1 & N1 & R1 & P1); try lia.
    unfold bind. rewrite E1.
    destruct (IH (S i) d1) as (d' & E' & N' & R' & P').
    + rewrite R1, length_replace_nth. lia.
    + rewrite P1. lia.
    + exists d'. split; [exact E'|]. split; [congruence|].
      split; [|congruence].
      rewrite R', R1, firstn_S_replace_nth by lia.
      now rewrite <- app_assoc.
Qed.

Lemma on_layers_change_runs (v : t) :
  List.length (Dims.range (dims v)) = Dims.ndim (dims v) ->
  List.length (Dims.point (dims v)) = Dims.ndim (dims v) ->
  exists v',
    _on_layers_change v = (Ok tt, v')
    /\ layers v' = layers v
    /\ Dims.ndim (dims v') = List.length (_calc_layers_ranges v)
    /\ Dims.range (dims v') = _calc_layers_ranges v.
Proof.
  intros R P. unfold _on_layers_change, bind, on_dims.
  destruct (@set_ndim_ok (List.length (_calc_layers_ranges v)) (dims v) R P)
    as (d1 & E1 & N1 & R1 & P1).
  rewrite E1. cbn [dims with_dims].
  destruct (@set_ranges_ok (_calc_layers_ranges v) 0 d1)
    as (d2 & E2 & N2 & R2 & P2); try (simpl; lia).
  rewrite E2. eexists. split; [reflexivity|]. simpl.
  split; [reflexivity|]. split; [congruence | exact R2].
Qed.

Lemma calc_layers_ranges_scenario (v : t) (image points : Layer.t)
  (r0 r1 : Dims.range_t) :
  layers v = [image; points] ->
  Layer.ndim image = 3%nat -> Layer.ndim points = 2%nat ->
  Dims.range (Layer.dims image)
  = [unit_range 6; unit_range 10; unit_range 15] ->
  Dims.range (Layer.dims points) = [r0; r1] ->
  _calc_layers_ranges v
  = [unit_range 6; union_range (unit_range 10, r0);
     union_range (unit_range 15, r1)].
Proof.
  intros L Ni Np Ri Rp.
  rewrite calc_layers_ranges_unfold, calc_layers_num_dims_max, L.
  cbn [map list_max fold_right fold_left]. rewrite Ni, Np.
  cbn [Nat.max repeat]. unfold merge_layer. rewrite Ri, Rp.
  cbn [rev app zip_longest map].
  now rewrite !union_empty_l, union_empty_r.
Qed.

(** C4.  For a viewer whose [dims] hold one range and one point per axis,
    and whose layers are consistent (each has one range per axis of its
    data), [_on_layers_change] runs to the end and afterwards:
    the global [ndim] is the largest [ndim] of a layer, 0 without layers;
    for every global axis the global range is (least of the mins, greatest
    of the maxes, least of the steps) over the layers that have the axis,
    the axes of each layer being counted from the last;
    and with a three-axis image of shape (6, 10, 15) and a two-axis points
    layer, the global [ndim] is 3 and each of the two last global ranges
    is the union of the image's and the points layer's. *)
Theorem on_layers_change_ndim_and_ranges :
  forall (v : t),
    List.length (Dims.range (dims v)) = Dims.ndim (dims v) ->
    List.length (Dims.point (dims v)) = Dims.ndim (dims v) ->
    Forall Layer.consistent (layers v) ->
    exists v',
      _on_layers_change v = (Ok tt, v')
      /\ Dims.ndim (dims v') = list_max (map Layer.ndim (layers v))
      /\ (layers v = [] -> Dims.ndim (dims v') = 0%nat)
      /\ (forall g, (g < Dims.ndim (dims v'))%nat ->
            let ts := axis_triples (layers v) (Dims.ndim (dims v') - 1 - g) in
            exists lo hi st,
              nth_error (Dims.range (dims v')) g = Some (lo, hi, st)
              /\ is_min lo (map lo_of ts)
              /\ is_max hi (map hi_of ts)
              /\ is_min st (map step_of ts))
      /\ (forall image points r0 r1,
            layers v = [image; points] ->
            Dims.range (Layer.dims image)
            = [unit_range 6; unit_range 10; unit_range 15] ->
            Dims.range (Layer.dims points) = [r0; r1] ->
            Dims.ndim (dims v') = 3%nat
            /\ Dims.range (dims v')
               = [unit_range 6; union_range (unit_range 10, r0);
                  union_range (unit_range 15, r1)]).
Proof.
  intros v R P F.
  destruct (on_layers_change_runs v R P) as (v' & E & L & N & Rg).
  exists v'. split; [exact E|].
  rewrite (@calc_layers_ranges_length v F) in N.
  split; [exact N|]. split; [|split].
  - intro Hl. rewrite N, Hl. reflexivity.
  - intros g Hg. rewrite N in *. rewrite Rg.
    now apply calc_layers_ranges_axis.
  - intros image points r0 r1 Hl Ri Rp.
    assert (Ni : Layer.ndim image = 3%nat).
    { rewrite Forall_forall in F.
      destruct (F image) as (_ & Hr & _); [rewrite Hl; now left|].
      rewrite Ri in Hr. now simpl in Hr. }
    assert (Np : Layer.ndim points = 2%nat).
    { rewrite Forall_forall in F.
      destruct (F points) as (_ & Hr & _); [rewrite Hl; right; now left|].
      rewrite Rp in Hr. now simpl in Hr. }
    split.
    + rewrite N, Hl. simpl. now rewrite Ni, Np.
    + rewrite Rg. now apply calc_layers_ranges_scenario with image points.
Qed.

End LayersChange.

Example on_layers_change_scenario :
  let d := ViewerModel.dims
             (snd (ViewerModel._on_layers_change scenario_viewer)) in
  Dims.ndim d = 3%nat
  /\ Dims.range d = [unit_range 6; unit_range 20; unit_range 15].
Proof. vm_compute. split; reflexivity. Qed.

Lemma on_layers_change_ndim_and_ranges_witness :
  exists v',
    ViewerModel._on_layers_change scenario_viewer = (Py.Ok tt, v')
    /\ Dims.ndim (ViewerModel.dims v') = 3%nat.
Proof.
  destruct (@on_layers_change_ndim_and_ranges scenario_viewer)
    as (v' & E & N & _).
  - reflexivity.
  - reflexivity.
  - repeat constructor.
  - exists v'. split; [exact E | exact N].
Defined.

(* ------------------------------------------------------------------ *)
(** ** Labels: the value under the cursor *)

Section GetValue.

Import Float.
Import Py.
Import NDArray.
Import Labels.

Lemma order_entries_in_range (o : list Z) (n : nat) (d : Z) :
  Dims.is_permutation o n = true -> In d o -> (0 <= d < Z.of_nat n)%Z.
Proof.
  intros P H. apply is_permutation_spec in P.
  apply Permutation_sym in P. apply (Permutation_in _ P) in H.
  apply in_map_iff in H. destruct H as (i & <- & Hi).
  apply in_seq in Hi. lia.
Qed.

Lemma displayed_incl (d : Dims.t) (x : Z) :
  In x (Dims.displayed d) -> In x (Dims.order d).
Proof.
  unfold Dims.displayed. intro H.
  rewrite <- (firstn_skipn
                (List.length (Dims.order d) - Z.to_nat (Dims.ndisplay d))
                (Dims.order d)).
  apply in_or_app. now right.
Qed.

Lemma not_displayed_incl (d : Dims.t) (x : Z) :
  In x (Dims.not_displayed d) -> In x (Dims.order d).
Proof.
  unfold Dims.not_displayed. intro H.
  rewrite <- (firstn_skipn
                (List.length (Dims.order d) - Z.to_nat (Dims.ndisplay d))
                (Dims.order d)).
  apply in_or_app. now left.
Qed.

Lemma gather_in_range {A} (l : list A) (default : A) (ds : list Z) :
  (forall d, In d ds -> (0 <= d < Z.of_nat (List.length l))%Z) ->
  gather l ds = Some (map (fun d => nth (Z.to_nat d) l default) ds).
Proof.
  induction ds as [|d ds IH]; intro H; simpl; [reflexivity|].
  rewrite IH by (intros x Hx; apply H; now right).
  assert (Hd : (0 <= d < Z.of_nat (List.length l))%Z) by (apply H; now left).
  unfold subscript.
  replace (0 <=? d)%Z with true by (symmetry; apply Z.leb_le; lia).
  rewrite (nth_error_nth' l default) by lia. reflexivity.
Qed.

Lemma in_shape_inside (cs : list Z) (sh : list nat) :
  List.length cs = List.length sh ->
  (in_shape cs sh = true <-> inside cs sh).
Proof.
  revert sh. induction cs as [|c cs IH]; intros [|s sh] L; simpl in *;
    try discriminate.
  - split; [constructor | reflexivity].
  - injection L as L. rewrite !andb_true_iff, Z.leb_le, Z.ltb_lt, (IH _ L).
    split.
    + intros ((H1 & H2) & H3). constructor; [lia | assumption].
    + intro H. inversion H; subst. repeat split; try lia. assumption.
Qed.

Lemma resolve_ints_inside (cs : list Z) (sh : list nat) :
  inside cs sh -> resolve_ints sh cs = Some (map Z.to_nat cs).
Proof.
  induction 1 as [|c s cs sh H _ IH]; simpl; [reflexivity|].
  rewrite IH. unfold resolve_int.
  replace (c <? 0)%Z with false by (symmetry; apply Z.ltb_ge; lia).
  replace ((0 <=? c)%Z && (c <? Z.of_nat s)%Z) with true; [reflexivity|].
  symmetry. apply andb_true_iff. rewrite Z.leb_le, Z.ltb_lt. lia.
Qed.

Lemma transpose_vshape_length (axes : list nat) (v v' : view) :
  transpose axes v = Some v' ->
  List.length (vshape v') = List.length axes.
Proof.
  unfold transpose.
  destruct (is_axes axes (List.length (vshape v))); [|discriminate].
  intro H. injection H as <-. simpl. apply length_map.
Qed.

Lemma data_labels_rank (st : Labels.t) (v : view) :
  _data_labels st = Some v ->
  List.length (vshape v) = List.length (Dims.displayed (dims st)).
Proof.
  unfold _data_labels.
  destruct (resolve (shape st) (Dims.indices (dims st))); [|discriminate].
  intro H. apply transpose_vshape_length in H. rewrite H.
  unfold Dims.displayed_order. apply length_map.
Qed.

(** C8.  In a layer whose [dims] are well formed, whose cursor
    coordinates have one entry per axis and whose displayed slice [v]
    exists, [get_value] does not raise: it returns the label of the
    displayed slice at the rounded cursor coordinates of the displayed
    axes when these lie inside the slice's shape, and the absence value
    [None] when they do not; so it returns [None] exactly when they lie
    outside. *)
Theorem get_value_none_iff_outside :
  forall (st : Labels.t) (v : view),
    Dims.wf (dims st) ->
    List.length (coordinates st) = Dims.ndim (dims st) ->
    _data_labels st = Some v ->
    let cs := displayed_coords st in
    (inside cs (vshape v) ->
     get_value st
     = Ok (Some (Scalar (item (read (data st) v) (map Z.to_nat cs)))))
    /\ (~ inside cs (vshape v) -> get_value st = Ok None)
    /\ (get_value st = Ok None <-> ~ inside cs (vshape v)).
Proof.
  intros st v (_ & _ & WO & _) LC DL cs.
  assert (G : gather (map np_round (coordinates st))
                     (Dims.displayed (dims st)) = Some cs).
  { apply gather_in_range. intros d Hd. rewrite length_map, LC.
    apply order_entries_in_range with (o := Dims.order (dims st));
      [exact WO | now apply displayed_incl]. }
  assert (L : List.length cs = List.length (vshape v)).
  { unfold cs, displayed_coords. rewrite length_map.
    symmetry. now apply data_labels_rank. }
  assert (In1 : inside cs (vshape v) ->
                get_value st
                = Ok (Some (Scalar (item (read (data st) v)
                                         (map Z.to_nat cs))))).
  { intro H. unfold get_value. rewrite DL, G.
    rewrite (proj2 (@in_shape_inside cs (vshape v) L) H).
    unfold getitem_ints. rewrite L, firstn_all, (@resolve_ints_inside cs (vshape v) H).
    now rewrite Nat.eqb_refl. }
  assert (Out : ~ inside cs (vshape v) -> get_value st = Ok None).
  { intro H. unfold get_value. rewrite DL, G.
    destruct (in_shape cs (vshape v)) eqn:E; [|reflexivity].
    exfalso. apply H. now apply (@in_shape_inside cs (vshape v) L). }
  split; [exact In1|]. split; [exact Out|]. split; [|exact Out].
  intros E H. rewrite (In1 H) in E. discriminate.
Qed.

End GetValue.

Example example_view_shown :
  NDArray.to_list2 (NDArray.read example_volume example_view)
  = [[1; 4]; [2; 5]; [3; 6]]%Z.
Proof. vm_compute. reflexivity. Qed.

Lemma get_value_none_iff_outside_witness :
  Labels.get_value example_labels = Py.Ok (Some (Labels.Scalar 6)).
Proof.
  refine (proj1 (@get_value_none_iff_outside example_labels example_view
                   _ _ _) _).
  - repeat split; try reflexivity. now left.
  - reflexivity.
  - reflexivity.
  - unfold inside. vm_compute.
    repeat (constructor; [split; [discriminate | reflexivity] |]).
    constructor.
Defined.

(* ------------------------------------------------------------------ *)
(** ** Labels: painting stays inside the data *)

Section Paint.

Import Float.
Import Py.
Import NDArray.
Import Labels.

Lemma inject_Z_nonneg (s : nat) : (0 <= inject_Z (Z.of_nat s))%Q.
Proof. change 0%Q with (inject_Z 0). rewrite <- Zle_Qle. lia. Qed.

Lemma brush_start_bounds (c : Q) (brush : Z) (s : nat) :
  (0 <= brush_start c brush s <= Z.of_nat s)%Z.
Proof.
  unfold brush_start. apply np_round_bounds;
    apply np_clip_bounds, inject_Z_nonneg.
Qed.

Lemma brush_stop_bounds (c : Q) (brush : Z) (s : nat) :
  (0 <= brush_stop c brush s <= Z.of_nat s)%Z.
Proof.
  unfold brush_stop. apply np_round_bounds;
    apply np_clip_bounds, inject_Z_nonneg.
Qed.

Lemma brush_slice_clipped (c : Q) (brush : Z) (s : nat) :
  clipped (brush_slice c brush s) s.
Proof.
  unfold brush_slice, clipped.
  split; [apply brush_start_bounds | apply brush_stop_bounds].
Qed.

(** *** The tuple built when all axes are painted *)

Lemma whole_tuple_clipped (brush : Z) (coord : list Q) (sh : list nat) :
  all_clipped
    (map (fun cs => brush_slice (fst cs) brush (snd cs)) (combine coord sh))
    sh.
Proof.
  revert sh. induction coord as [|c coord IH]; intros sh k ix s H1 H2.
  - destruct k; discriminate.
  - destruct sh as [|s0 sh]; [destruct k; discriminate|].
    destruct k as [|k]; simpl in *.
    + injection H1 as <-. injection H2 as <-. apply brush_slice_clipped.
    + eapply IH; eauto.
Qed.

(** *** The tuple built when only the displayed axes are painted *)

Lemma assign_spec {A} (l l' : list A) (i : Z) (x : A) :
  assign l i x = Some l' ->
  exists idx,
    (idx < List.length l)%nat /\ l' = replace_nth l idx x
    /\ forall (B : Type) (m : list B),
         List.length m = List.length l -> subscript m i = nth_error m idx.
Proof.
  unfold assign.
  destruct ((0 <=? i)%Z && (i <? Z.of_nat (List.length l))%Z) eqn:E1.
  - apply andb_true_iff in E1. rewrite Z.leb_le, Z.ltb_lt in E1.
    intro H. injection H as <-. exists (Z.to_nat i).
    split; [lia|]. split; [reflexivity|].
    intros B m Hm. unfold subscript.
    replace (0 <=? i)%Z with true by (symmetry; apply Z.leb_le; lia).
    reflexivity.
  - destruct ((- Z.of_nat (List.length l) <=? i)%Z && (i <? 0)%Z) eqn:E2;
      [|discriminate].
    apply andb_true_iff in E2. rewrite Z.leb_le, Z.ltb_lt in E2.
    intro H. injection H as <-.
    exists (Z.to_nat (Z.of_nat (List.length l) + i)).
    split; [lia|]. split; [reflexivity|].
    intros B m Hm. unfold subscript. rewrite Hm.
    replace (0 <=? i)%Z with false by (symmetry; apply Z.leb_gt; lia).
    replace (- Z.of_nat (List.length l) <=? i)%Z with true
      by (symmetry; apply Z.leb_le; lia).
    reflexivity.
Qed.

Lemma all_clipped_replace (sc : list index) (sh : list nat) (idx : nat)
  (ix : index) :
  all_clipped sc sh ->
  (forall s, nth_error sh idx = Some s -> clipped ix s) ->
  all_clipped (replace_nth sc idx ix) sh.
Proof.
  intros H Hix k ix' s H1 H2.
  destruct (Nat.eq_dec idx k) as [-> | N].
  - destruct (nth_error sc k) as [old|] eqn:E.
    + rewrite (nth_error_replace_nth_same _ _ ix E) in H1.
      injection H1 as <-. now apply Hix.
    + apply nth_error_None in E.
      assert (E' : nth_error (replace_nth sc k ix) k = None)
        by (apply nth_error_None; rewrite length_replace_nth; exact E).
      congruence.
  - rewrite nth_error_replace_nth_other in H1 by exact N.
    eapply H; eauto.
Qed.

Lemma paint_displayed_clipped (st : Labels.t) (coord : list Q) :
  forall (ds : list Z) (sc sc' : list index),
    List.length sc = List.length (shape st) ->
    all_clipped sc (shape st) ->
    paint_displayed st coord ds sc = Some sc' ->
    List.length sc' = List.length (shape st) /\ all_clipped sc' (shape st).
Proof.
  induction ds as [|i ds IH]; intros sc sc' L C H; simpl in H.
  - injection H as <-. auto.
  - destruct (subscript coord i) as [c|]; [|discriminate].
    destruct (subscript (shape st) i) as [s|] eqn:S; [|discriminate].
    destruct (assign sc i (brush_slice c (brush_size st) s)) as [sc1|] eqn:A;
      [|discriminate].
    apply assign_spec in A. destruct A as (idx & Hidx & -> & Sub).
    apply IH in H; [exact H | now rewrite length_replace_nth |].
    apply all_clipped_replace; [exact C|].
    intros s' Hs'. rewrite (Sub _ (shape st) (eq_sym L)) in S.
    rewrite Hs' in S. injection S as <-. apply brush_slice_clipped.
Qed.

Lemma paint_pinned_clipped (sh : list nat) (coord : list Q) :
  forall (ns : list Z) (sc sc' : list index),
    all_clipped sc sh ->
    paint_pinned coord ns sc = Some sc' ->
    all_clipped sc' sh.
Proof.
  induction ns as [|i ns IH]; intros sc sc' C H; simpl in H.
  - now injection H as <-.
  - destruct (subscript coord i) as [c|]; [|discriminate].
    destruct (assign sc i (Int (np_round c))) as [sc1|] eqn:A;
      [|discriminate].
    apply assign_spec in A. destruct A as (idx & _ & -> & _).
    apply IH in H; [exact H|].
    apply all_clipped_replace; [exact C|]. intros; exact I.
Qed.

Lemma paint_slice_coord_clipped (st : Labels.t) (coord : list Q)
  (sc : list index) :
  paint_slice_coord st coord = Some sc -> all_clipped sc (shape st).
Proof.
  unfold paint_slice_coord.
  destruct (n_dimensional st || (ndim st =? 2)%nat).
  - intro H. injection H as <-. apply whole_tuple_clipped.
  - destruct (paint_displayed st coord (Dims.displayed (dims st))
                (repeat (Int 0) (ndim st))) as [sc1|] eqn:D; [|discriminate].
    intro H. apply paint_displayed_clipped in D.
    + destruct D as (_ & C). eapply paint_pinned_clipped; eauto.
    + now rewrite repeat_length.
    + intros k ix s H1 _. apply nth_error_In, repeat_spec in H1.
      subst ix. exact I.
Qed.

(** *** What numpy selects for a resolved tuple *)

Lemma clip_bound_le (s : nat) (a : Z) : (clip_bound s a <= s)%nat.
Proof.
  unfold clip_bound.
  destruct (a <? 0)%Z eqn:E; [apply Z.ltb_lt in E | apply Z.ltb_ge in E]; lia.
Qed.

Lemma resolve_int_spec (s : nat) (c : Z) (k : nat) :
  resolve_int s c = Some k ->
  (k < s)%nat /\ (Z.of_nat k = c \/ Z.of_nat k = (c + Z.of_nat s)%Z).
Proof.
  unfold resolve_int.
  destruct (c <? 0)%Z eqn:N;
    match goal with
    | |- context [if ?b then _ else _] => destruct b eqn:E
    end; try discriminate;
    apply andb_true_iff in E; rewrite Z.leb_le, Z.ltb_lt in E;
    intro H; injection H as <-; lia.
Qed.

Lemma selected_cons (x : axis_sel) (sel : list axis_sel) (j : nat)
  (i : list nat) :
  selected (x :: sel) (j :: i) = on_axis x j && selected sel i.
Proof.
  unfold selected. simpl. destruct x as [k | lo len]; simpl.
  - destruct (j =? k)%nat; reflexivity.
  - destruct ((lo <=? j)%nat && (j <? lo + len)%nat); [|reflexivity].
    destruct (sel_of_base sel i); reflexivity.
Qed.

Lemma selected_nil_r (sel : list axis_sel) :
  sel <> [] -> selected sel [] = false.
Proof. destruct sel as [|[k | lo len] sel]; [congruence | |]; reflexivity. Qed.

Lemma selected_nil_l (i : list nat) : i <> [] -> selected [] i = false.
Proof. destruct i; [congruence | reflexivity]. Qed.

Lemma resolve_entry_in_bounds (s : nat) (e : index) (x : axis_sel) (j : nat) :
  resolve_entry s e = Some x -> on_axis x j = true -> (j < s)%nat.
Proof.
  destruct e as [c | a b |]; simpl.
  - destruct (resolve_int s c) as [k|] eqn:E; [|discriminate].
    intro H. injection H as <-. simpl. intro J. apply Nat.eqb_eq in J.
    apply resolve_int_spec in E. lia.
  - intro H. injection H as <-. unfold resolve_slice. simpl. intro J.
    apply andb_true_iff in J. rewrite Nat.leb_le, Nat.ltb_lt in J.
    pose proof (clip_bound_le s a). pose proof (clip_bound_le s b). lia.
  - intro H. injection H as <-. simpl. intro J.
    now apply Nat.ltb_lt in J.
Qed.

Lemma resolve_entry_as_asked (s : nat) (e : index) (x : axis_sel) (j : nat) :
  clipped e s ->
  resolve_entry s e = Some x -> on_axis x j = true -> as_asked e s j.
Proof.
  destruct e as [c | a b |]; simpl; intros C H J.
  - destruct (resolve_int s c) as [k|] eqn:E; [|discriminate].
    injection H as <-. simpl in J. apply Nat.eqb_eq in J. subst k.
    now apply resolve_int_spec in E.
  - injection H as <-. unfold resolve_slice in J. simpl in J.
    apply andb_true_iff in J. rewrite Nat.leb_le, Nat.ltb_lt in J.
    unfold clip_bound in J.
    replace (a <? 0)%Z with false in J by (symmetry; apply Z.ltb_ge; lia).
    replace (b <? 0)%Z with false in J by (symmetry; apply Z.ltb_ge; lia).
    lia.
  - exact I.
Qed.

Lemma resolve_selected (sh : list nat) :
  forall (ix : list index) (sel : list axis_sel) (i : list nat),
    resolve sh ix = Some sel ->
    all_clipped ix sh ->
    selected sel i = true ->
    in_bounds sh i = true
    /\ forall k e s j,
         nth_error ix k = Some e -> nth_error sh k = Some s ->
         nth_error i k = Some j -> as_asked e s j.
Proof.
  induction sh as [|s sh IH]; intros ix sel i R C Sel.
  - destruct ix; [|discriminate]. injection R as <-.
    destruct i as [|j i]; [|discriminate].
    split; [reflexivity|]. intros k e s j H. destruct k; discriminate.
  - destruct ix as [|e ix]; simpl in R.
    + destruct (resolve sh []) as [sel'|] eqn:R'; [|discriminate].
      injection R as <-.
      destruct i as [|j i]; [discriminate|].
      rewrite selected_cons in Sel. apply andb_true_iff in Sel.
      destruct Sel as (J & Sel).
      destruct (IH [] sel' i R') as (B & _); [|exact Sel|].
      { intros k e s0 H. destruct k; discriminate. }
      split.
      * simpl. rewrite B. simpl in J. now rewrite J.
      * intros k e s0 j0 H. destruct k; discriminate.
    + destruct (resolve_entry s e) as [x|] eqn:E; [|discriminate].
      destruct (resolve sh ix) as [sel'|] eqn:R'; [|discriminate].
      injection R as <-.
      destruct i as [|j i];
        [rewrite selected_nil_r in Sel by discriminate; discriminate|].
      rewrite selected_cons in Sel. apply andb_true_iff in Sel.
      destruct Sel as (J & Sel).
      assert (C' : all_clipped ix sh).
      { intros k e0 s0 H1 H2. apply (C (S k) e0 s0); assumption. }
      destruct (IH ix sel' i R' C' Sel) as (B & A).
      split.
      * simpl. rewrite B.
        pose proof (resolve_entry_in_bounds _ _ _ E J) as Hj.
        apply Nat.ltb_lt in Hj. now rewrite Hj.
      * intros k e0 s0 j0 H1 H2 H3. destruct k as [|k]; simpl in *.
        -- injection H1 as <-. injection H2 as <-. injection H3 as <-.
           eapply resolve_entry_as_asked; eauto.
           apply (C 0%nat e s); reflexivity.
        -- eapply A; eauto.
Qed.

(** C3.  For every layer state, cursor coordinate, brush size and label:
    every slice of the index tuple that [paint] builds lies within the
    extent of its axis, in both branches (all axes painted, or only the
    displayed ones with the others pinned to the rounded coordinate);
    [paint] leaves the shape of the data alone; and every cell whose value
    it changes has its index inside the bounds of the data on every axis,
    within the clipped slice on a sliced axis and at the pinned integer on
    a pinned one. *)
Theorem paint_writes_inside_data :
  forall (st : Labels.t) (coord : list Q) (new_label : Z),
    (forall sc, paint_slice_coord st coord = Some sc ->
                all_clipped sc (shape st))
    /\ NDArray.shape (data (snd (paint coord new_label st))) = shape st
    /\ forall i,
         item (data (snd (paint coord new_label st))) i <> item (data st) i ->
         in_bounds (shape st) i = true
         /\ exists sc,
              paint_slice_coord st coord = Some sc
              /\ forall k e s j,
                   nth_error sc k = Some e -> nth_error (shape st) k = Some s ->
                   nth_error i k = Some j -> as_asked e s j.
Proof.
  intros st coord new_label.
  split; [intros sc H; now apply paint_slice_coord_clipped with coord|].
  unfold paint.
  destruct (paint_slice_coord st coord) as [sc|] eqn:P.
  - destruct (resolve (shape st) sc) as [sel|] eqn:R.
    + unfold _set_view_slice.
      set (st1 := with_data (setitem_scalar (data st) sel new_label) st).
      assert (D : data (snd (match _data_labels st1 with
                              | Some _ => (Ok tt, emit EvSetData st1)
                              | None => (Raise IndexError, st1)
                              end))
                  = setitem_scalar (data st) sel new_label)
        by (destruct (_data_labels st1); reflexivity).
      rewrite D. split; [reflexivity|].
      intros i Hi. simpl in Hi.
      destruct (selected sel i) eqn:S; [|congruence].
      apply paint_slice_coord_clipped in P as C.
      destruct (@resolve_selected (shape st) sc sel i R C S) as (B & A).
      split; [exact B|]. exists sc. split; [reflexivity | exact A].
    + simpl. split; [reflexivity|]. intros i Hi. congruence.
  - simpl. split; [reflexivity|]. intros i Hi. congruence.
Qed.

End Paint.

Example paint_at_corner :
  NDArray.to_list2
    (Labels.data
       (snd (Labels.paint [0; 0]%Q 7
               (snd (Labels.set_brush_size (Float.Fin (5 # 2))
                       (labels_layer
                          (NDArray.of_list2
                             [[0; 0; 0]; [0; 0; 0]; [0; 0; 0]]%Z)
                          [0; 1]%Z [0; 0]%Q))))))
  = [[7; 7; 0]; [7; 7; 0]; [0; 0; 0]]%Z.
Proof. vm_compute. reflexivity. Qed.

(* ------------------------------------------------------------------ *)
(** ** Labels: filling *)

Section FillRuns.

Import NDArray.
Import Labels.

(** The two-dimensional scenarios of the specification. *)
Example fill_connected_component :
  let st := labels_layer (of_list2 [[1; 1; 0]; [1; 0; 0]]%Z)
              [0; 1]%Z [0; 0]%Q in
  let (r, a) := run_fill st [0; 0]%Q 1 5 in
  r = Py.Ok tt /\ to_list2 a = [[5; 5; 0]; [5; 0; 0]]%Z.
Proof. vm_compute. split; reflexivity. Qed.

Example fill_leaves_other_component :
  let st := labels_layer (of_list2 [[1; 0; 1]]%Z) [0; 1]%Z [0; 0]%Q in
  let (r, a) := run_fill st [0; 0]%Q 1 5 in
  r = Py.Ok tt /\ to_list2 a = [[5; 0; 1]]%Z.
Proof. vm_compute. split; reflexivity. Qed.

(** C6 (the code departs from the claim).  With the displayed axes
    swapped, [_data_labels] is the transpose of the slice, and [fill]
    assigns it to [data[indices]] without undoing the transpose: the slice
    [[1, 2], [0, 0]], which filling label 1 with 5 should turn into
    [[5, 2], [0, 0]], ends up as [[5, 0], [2, 0]]; and when the slice is
    not square the assignment raises [ValueError] after the data have
    been edited through the view. *)
Theorem fill_writes_back_transposed_slice :
  (let (r, a) := run_fill swapped_square [0; 0; 0]%Q 1 5 in
   r = Py.Ok tt /\ to_list3 a = [[[5; 0]; [2; 0]]]%Z)
  /\
  (let (r, a) := run_fill swapped_oblong [0; 0; 0]%Q 1 5 in
   r = Py.Raise Py.ValueError /\ to_list3 a = [[[5; 2; 3]; [0; 0; 0]]]%Z).
Proof. vm_compute. repeat split; reflexivity. Qed.

(** C2 (the code departs from the claim).  In the same state the clicked
    cell holds the old label 1 and [contiguous] is set, yet the fill
    changes cells that do not hold the old label and so belong to no
    component of it: cell (0, 0, 1) goes from 2 to 0 and cell (0, 1, 0)
    from 0 to 2. *)
Theorem fill_modifies_cells_outside_component :
  let st := swapped_square in
  let a := snd (run_fill st [0; 0; 0]%Q 1 5) in
  contiguous st = true
  /\ item (data st) [0; 0; 0]%nat = 1%Z
  /\ item (data st) [0; 0; 1]%nat = 2%Z /\ item a [0; 0; 1]%nat = 0%Z
  /\ item (data st) [0; 1; 0]%nat = 0%Z /\ item a [0; 1; 0]%nat = 2%Z.
Proof. vm_compute. repeat split; reflexivity. Qed.

End FillRuns.

(* ------------------------------------------------------------------ *)
(** ** Labels: what a fill over the whole volume replaces *)

Section FillWhole.

Import Py.
Import NDArray.
Import Ndimage.
Import Labels.

Variable ndi_label :
  list nat -> (list nat -> bool) -> (list nat -> nat) * nat.





(** [_set_view_slice] leaves the data alone, whether it raises or not. *)
Lemma set_view_slice_data (st : Labels.t) :
  data (snd (_set_view_slice st)) = data st.
Proof.
  unfold _set_view_slice. destruct (_data_labels st); reflexivity.
Qed.





End FillWhole.

(* ------------------------------------------------------------------ *)
(** ** Labels: a fill on the displayed slice leaves the other slices alone *)

Section FillSlice.

Import Py.
Import NDArray.
Import Labels.

Variable ndi_label :
  list nat -> (list nat -> bool) -> (list nat -> nat) * nat.

(** A cell that is off the pinned position of some axis is not selected. *)
Lemma off_pin_not_selected (sh : list nat) :
  forall (ix : list index) (sel : list axis_sel) (j : list nat)
         (k : nat) (c : Z) (s x : nat),
    resolve sh ix = Some sel ->
    nth_error ix k = Some (Int c) ->
    nth_error sh k = Some s ->
    nth_error j k = Some x ->
    resolve_int s c <> Some x ->
    selected sel j = false.
Proof.
  induction sh as [|s0 sh IH]; intros ix sel j k c s x R Hix Hs Hj N.
  - destruct k; discriminate.
  - destruct ix as [|e ix]; [destruct k; discriminate|].
    simpl in R.
    destruct (resolve_entry s0 e) as [y|] eqn:E; [|discriminate].
    destruct (resolve sh ix) as [sel'|] eqn:R'; [|discriminate].
    injection R as <-.
    destruct j as [|x0 j]; [destruct k; discriminate|].
    rewrite selected_cons.
    destruct k as [|k]; simpl in Hix, Hs, Hj.
    + injection Hix as ->. injection Hs as ->. injection Hj as ->.
      simpl in E. destruct (resolve_int s c) as [p|] eqn:P; [|discriminate].
      injection E as <-. simpl.
      destruct (x =? p)%nat eqn:X; [|reflexivity].
      apply Nat.eqb_eq in X. congruence.
    + rewrite (IH ix sel' j k c s x R' Hix Hs Hj N).
      apply andb_false_r.
Qed.

Lemma transpose_of_base (axes : list nat) (v v' : view) (j : list nat) :
  transpose axes v = Some v' ->
  of_base v j = None -> of_base v' j = None.
Proof.
  unfold transpose.
  destruct (is_axes axes (List.length (vshape v))); [|discriminate].
  intro H. injection H as <-. simpl. now intros ->.
Qed.

Lemma selected_false_of_base (sel : list axis_sel) (j : list nat) :
  selected sel j = false -> sel_of_base sel j = None.
Proof.
  unfold selected. destruct (sel_of_base sel j); congruence.
Qed.

(** A write through a view, and an assignment to [a[ix]], change no cell
    that the index tuple does not select. *)
Lemma fill_scope_frame (st : Labels.t) (sel : list axis_sel) (v : view)
  (cs : list Z) (old_label new_label : Z) (j : list nat) :
  resolve (shape st) (Dims.indices (dims st)) = Some sel ->
  of_base v j = None ->
  sel_of_base sel j = None ->
  item (data (snd (fill_scope ndi_label v cs false old_label new_label st))) j
  = item (data st) j
  /\ NDArray.shape
       (data (snd (fill_scope ndi_label v cs false old_label new_label st)))
     = shape st.
Proof.
  intros R V S. unfold fill_scope.
  match goal with
  | |- context [match ?r with Some _ => _ | None => (Raise IndexError, st) end]
    => destruct r as [m'|]
  end; [|split; reflexivity].
  change (NDArray.shape (setitem_mask (data st) v m' new_label))
    with (shape st).
  rewrite R.
  destruct (setitem_array (setitem_mask (data st) v m' new_label)
              (basic_view sel)
              (read (setitem_mask (data st) v m' new_label) v))
    as [data2|] eqn:W.
  - rewrite set_view_slice_data. cbn [data with_data].
    unfold setitem_array in W.
    destruct (broadcastable _ _); [|discriminate].
    injection W as <-. simpl. rewrite S, V. split; reflexivity.
  - simpl. rewrite V. split; reflexivity.
Qed.

(** When [fill] works on the displayed slice (data of more than two axes,
    [n_dimensional] unset), every cell of the volume that is not in the
    current slice, that is, whose coordinate on some non-displayed axis is
    not the integer point of that axis, keeps its value, and the volume
    keeps its shape: whatever the labelling, and also when the fill
    raises. *)
Theorem fill_slice_leaves_other_slices :
  forall (st : Labels.t) (coord : list Q) (old_label new_label : Z)
         (sel : list axis_sel) (j : list nat),
    n_dimensional st || (ndim st =? 2)%nat = false ->
    resolve (shape st) (Dims.indices (dims st)) = Some sel ->
    (selected sel j = false
     \/ exists k c s x,
          nth_error (Dims.indices (dims st)) k = Some (Int c)
          /\ nth_error (shape st) k = Some s
          /\ nth_error j k = Some x
          /\ resolve_int s c <> Some x) ->
    item (data (snd (fill ndi_label coord old_label new_label st))) j
    = item (data st) j
    /\ NDArray.shape
         (data (snd (fill ndi_label coord old_label new_label st)))
       = shape st.
Proof.
  intros st coord old_label new_label sel j W R Off.
  assert (S : selected sel j = false).
  { destruct Off as [S | (k & c & s & x & H1 & H2 & H3 & H4)]; [exact S|].
    eapply off_pin_not_selected; eauto. }
  apply selected_false_of_base in S.
  unfold fill. rewrite W.
  destruct (_data_labels st) as [v|] eqn:DL; [|split; reflexivity].
  destruct (gather (map Float.np_round coord) (Dims.displayed (dims st)))
    as [cs|]; [|split; reflexivity].
  apply fill_scope_frame with sel; auto.
  unfold _data_labels in DL. rewrite R in DL.
  eapply transpose_of_base; eauto.
Qed.

End FillSlice.

(* ------------------------------------------------------------------ *)
(** ** Labels: the fill theorems on concrete images *)

Section FillExamples.

Import Py.
Import NDArray.
Import Ndimage.
Import Labels.






Lemma fill_slice_leaves_other_slices_witness :
  item (data (snd (fill label [0; 1; 2]%Q 6 9 example_labels)))
       [1; 0; 0]%nat
  = 7%Z.
Proof.
  destruct (@fill_slice_leaves_other_slices label example_labels
              [0; 1; 2]%Q 6 9 [Pin 0; Span 0 2; Span 0 3] [1; 0; 0]%nat
              eq_refl eq_refl) as (H & _).
  - right. exists 0%nat, 0%Z, 2%nat, 1%nat.
    repeat split; try reflexivity. vm_compute. discriminate.
  - rewrite H. reflexivity.
Defined.

End FillExamples.

(* ------------------------------------------------------------------ *)
(** ** ViewerModel: what the viewer shows of the active layer *)

Section ActiveLayerShown.

Import Py.
Import ViewerModel.

(** The five assignments change nothing, and notify nothing, when the
    attributes already hold the values assigned. *)
Lemma assign_all_settled (v : t) :
  (set_status (status v) ;;; set_help (help v) ;;; set_cursor (cursor v) ;;;
   set_interactive (interactive v) ;;; set_active_layer (active_layer v))%py v
  = (Ok tt, v).
Proof.
  unfold bind, set_status, set_help, set_cursor, set_interactive,
    set_active_layer.
  rewrite !String.eqb_refl, Bool.eqb_reflx.
  assert (E : option_nat_eqb (active_layer v) (active_layer v) = true)
    by (destruct (active_layer v); simpl; [apply Nat.eqb_refl | reflexivity]).
  now rewrite E.
Qed.

(** X4.  When exactly one layer is selected, [_update_active_layer] makes
    the viewer show that layer's status, help, cursor and interactivity,
    and leaves the layers and the [dims] as they are. *)
Theorem update_active_layer_shows_selected :
  forall (v : t) (l : Layer.t),
    filter Layer.selected (layers v) = [l] ->
    exists v',
      _update_active_layer v = (Ok tt, v')
      /\ status v' = Layer.status l /\ help v' = Layer.help l
      /\ cursor v' = Layer.cursor l
      /\ interactive v' = Layer.interactive l
      /\ layers v' = layers v /\ dims v' = dims v.
Proof.
  intros v l F. unfold _update_active_layer.
  rewrite find_active_none, F.
  destruct (assign_all (Layer.status l) (Layer.help l) (Layer.cursor l)
              (Layer.interactive l) (Some (Layer.uid l)) v)
    as (v' & E & Hs & Hh & Hc & Hi & _ & Hl & Hd).
  exists v'. repeat split; assumption.
Qed.

(** X5.  [_update_active_layer] is idempotent: a second call, with no
    change of selection in between, returns the state the first call left,
    the log of notifications included, so nothing is notified twice. *)
Theorem update_active_layer_idempotent :
  forall (v : t),
    _update_active_layer (snd (_update_active_layer v))
    = (Ok tt, snd (_update_active_layer v)).
Proof.
  intro v.
  assert (Again : forall s h c i a v',
             (set_status s ;;; set_help h ;;; set_cursor c ;;;
              set_interactive i ;;; set_active_layer a)%py v = (Ok tt, v') ->
             status v' = s -> help v' = h -> cursor v' = c ->
             interactive v' = i -> active_layer v' = a ->
             (set_status s ;;; set_help h ;;; set_cursor c ;;;
              set_interactive i ;;; set_active_layer a)%py v' = (Ok tt, v')).
  { intros s h c i a v' _ <- <- <- <- <-. apply assign_all_settled. }
  destruct (find_active None (layers v)) as [a|] eqn:F.
  - destruct (assign_all (Layer.status a) (Layer.help a) (Layer.cursor a)
                (Layer.interactive a) (Some (Layer.uid a)) v)
      as (v' & E & Hs & Hh & Hc & Hi & Ha & Hl & _).
    assert (E1 : _update_active_layer v = (Ok tt, v'))
      by (unfold _update_active_layer; now rewrite F).
    rewrite E1. simpl. unfold _update_active_layer. rewrite Hl, F.
    now apply Again.
  - destruct (assign_all "Ready" "" "standard" true None v)
      as (v' & E & Hs & Hh & Hc & Hi & Ha & Hl & _).
    assert (E1 : _update_active_layer v = (Ok tt, v'))
      by (unfold _update_active_layer; now rewrite F).
    rewrite E1. simpl. unfold _update_active_layer. rewrite Hl, F.
    now apply Again.
Qed.

End ActiveLayerShown.

Lemma update_active_layer_shows_selected_witness :
  exists v',
    ViewerModel._update_active_layer picking_viewer = (Py.Ok tt, v')
    /\ ViewerModel.cursor v' = "cross"%string
    /\ ViewerModel.interactive v' = false.
Proof.
  destruct (@update_active_layer_shows_selected picking_viewer
              (nth 1 (ViewerModel.layers picking_viewer)
                   (example_layer 0 [])) eq_refl)
    as (v' & E & _ & _ & Hc & Hi & _).
  exists v'. split; [exact E|]. split; [exact Hc | exact Hi].
Defined.

(* ------------------------------------------------------------------ *)
(** ** ViewerModel: layers with as many axes as the viewer, or more *)

Section ReconcileUp.

Import Float.
Import Py.
Import ViewerModel.
Local Open Scope py_scope.

Lemma shift_seq (k n a : nat) :
  map (fun x => (x + Z.of_nat k)%Z) (map Z.of_nat (seq a n))
  = map Z.of_nat (seq (a + k) n).
Proof.
  revert a. induction n as [|n IH]; intro a; simpl; [reflexivity|].
  f_equal; [lia|]. apply (IH (S a)).
Qed.

(** Putting [k] new axes in front of an order and moving the order up by
    [k] gives an order over [k] more axes. *)
Lemma raise_order_permutation (k n : nat) (o : list Z) :
  Permutation (map Z.of_nat (seq 0 n)) o ->
  Permutation (map Z.of_nat (seq 0 (k + n)))
              (map Z.of_nat (seq 0 k)
               ++ map (fun x => (x + Z.of_nat k)%Z) o).
Proof.
  intro P. rewrite seq_app, map_app. apply Permutation_app_head.
  rewrite <- (shift_seq k n 0). now apply Permutation_map.
Qed.

Lemma layer_order_up (gn ln : nat) (order : list Z) :
  (gn <= ln)%nat ->
  layer_order (Z.of_nat gn - Z.of_nat ln) order
  = map Z.of_nat (seq 0 (ln - gn))
    ++ map (fun o => (o + Z.of_nat (ln - gn))%Z) order.
Proof.
  intro H. unfold layer_order.
  replace (Z.of_nat gn - Z.of_nat ln <=? 0)%Z with true
    by (symmetry; apply Z.leb_le; lia).
  unfold Py.range.
  replace (Z.to_nat (- (Z.of_nat gn - Z.of_nat ln))) with (ln - gn)%nat
    by lia.
  f_equal. apply map_ext. intro o. lia.
Qed.

(** The order [_update_layers] derives from a valid global order is a
    valid order of the layer, whatever the two ranks. *)
Lemma layer_order_permutation (gn ln : nat) (order : list Z) :
  Dims.is_permutation order gn = true ->
  Dims.is_permutation (layer_order (Z.of_nat gn - Z.of_nat ln) order) ln
  = true.
Proof.
  intro P. destruct (le_gt_dec ln gn) as [L | G].
  - now apply layer_order_valid.
  - rewrite layer_order_up by lia. apply is_permutation_spec.
    replace ln with ((ln - gn) + gn)%nat at 1 by lia.
    apply raise_order_permutation. now apply is_permutation_spec.
Qed.


Lemma subscript_below {A} (l : list A) (i : Z) :
  (i < - Z.of_nat (List.length l))%Z -> Py.subscript l i = None.
Proof.
  intro H. unfold Py.subscript.
  replace (0 <=? i)%Z with false by (symmetry; apply Z.leb_gt; lia).
  replace (- Z.of_nat (List.length l) <=? i)%Z with false
    by (symmetry; apply Z.leb_gt; lia).
  reflexivity.
Qed.

(** The two setters at the head of the loop body go through for a well
    formed viewer, whatever the rank of the layer. *)
Lemma reconcile_head g d :
  Dims.wf g ->
  let offset := (Z.of_nat (Dims.ndim g) - Z.of_nat (Dims.ndim d))%Z in
  exists d2,
    (Dims.set_order (layer_order offset (Dims.order g)) ;;;
     Dims.set_ndisplay (Dims.ndisplay g)) d = (Ok tt, d2)
    /\ Dims.order d2 = layer_order offset (Dims.order g)
    /\ Dims.is_permutation (Dims.order d2) (Dims.ndim d2) = true
    /\ Dims.ndisplay d2 = Dims.ndisplay g
    /\ keeps_axes d d2
    /\ Dims.point d2 = Dims.point d.
Proof.
  intros (GR & GP & GO & GN) offset.
  set (o := layer_order offset (Dims.order g)).
  assert (Po : Dims.is_permutation o (Dims.ndim d) = true)
    by (apply layer_order_permutation; assumption).
  assert (E1 : exists d1, Dims.set_order o d = (Ok tt, d1)).
  { unfold Dims.set_order. rewrite Po. simpl.
    destruct (Dims.list_eqb Z.eqb (Dims.order d) o); eauto. }
  destruct E1 as (d1 & E1). unfold bind at 1. rewrite E1.
  apply set_order_ok in E1.
  destruct E1 as (_ & O1 & (Kn1 & Kr1 & Kl1) & P1 & _).
  assert (E2 : exists d2,
             Dims.set_ndisplay (Dims.ndisplay g) d1 = (Ok tt, d2)).
  { unfold Dims.set_ndisplay.
    replace ((Dims.ndisplay g =? 2)%Z || (Dims.ndisplay g =? 3)%Z)
      with true
      by (symmetry; apply orb_true_iff; rewrite !Z.eqb_eq; exact GN).
    simpl. destruct (Dims.ndisplay d1 =? Dims.ndisplay g)%Z; eauto. }
  destruct E2 as (d2 & E2). rewrite E2. exists d2.
  apply set_ndisplay_ok in E2.
  destruct E2 as (_ & N2 & (Kn2 & Kr2 & Kl2) & P2 & O2).
  split; [reflexivity|]. split; [congruence|].
  split; [|split; [exact N2 | split; [|congruence]]].
  - replace (Dims.order d2) with o by congruence.
    replace (Dims.ndim d2) with (Dims.ndim d) by congruence. exact Po.
  - repeat split; congruence.
Qed.

Lemma reconcile_split g d :
  reconcile g d =
  ((Dims.set_order
      (layer_order (Z.of_nat (Dims.ndim g) - Z.of_nat (Dims.ndim d))
                   (Dims.order g)) ;;;
    Dims.set_ndisplay (Dims.ndisplay g)) ;;;
   for_each (seq 0 (Dims.ndim d))
     (push_axis (Dims.point g)
                (Z.of_nat (Dims.ndim g) - Z.of_nat (Dims.ndim d)))) d.
Proof.
  rewrite reconcile_unfold. unfold bind.
  destruct (Dims.set_order _ d) as [[u|e] d1]; reflexivity.
Qed.



(** X7.  A layer with more than twice as many axes as the viewer makes
    [_update_layers] raise [IndexError] at the first axis of its loop: by
    then the layer's order and ndisplay have been set, and no point of the
    layer has been changed. *)
Theorem update_layers_rank_overflow :
  forall (v : t) (l : Layer.t),
    Dims.wf (dims v) ->
    (2 * Dims.ndim (dims v) < Dims.ndim (Layer.dims l))%nat ->
    exists l',
      _update_layers (Some [l]) v = (Raise IndexError, [l'])
      /\ Dims.order (Layer.dims l')
         = layer_order (Z.of_nat (Dims.ndim (dims v))
                        - Z.of_nat (Dims.ndim (Layer.dims l)))
                       (Dims.order (dims v))
      /\ Dims.ndisplay (Layer.dims l') = Dims.ndisplay (dims v)
      /\ Dims.point (Layer.dims l') = Dims.point (Layer.dims l)
      /\ Dims.range (Layer.dims l') = Dims.range (Layer.dims l).
Proof.
  intros v l W Hr.
  destruct (reconcile_head (Layer.dims l) W)
    as (d2 & E & O2 & _ & N2 & (Kn & Kr & Kl) & P2).
  exists (Layer.with_dims d2 l).
  assert (R : reconcile (dims v) (Layer.dims l) = (Raise IndexError, d2)).
  { rewrite reconcile_split. unfold bind at 1. rewrite E.
    destruct (Dims.ndim (Layer.dims l)) as [|n] eqn:En; [lia|].
    cbn [seq for_each]. unfold bind, push_axis, orRaise.
    rewrite subscript_below; [reflexivity|].
    destruct W as (_ & GP & _ & _). rewrite GP. lia. }
  split.
  - unfold _update_layers. simpl. unfold update_layer, Layer.on_dims.
    now rewrite R.
  - simpl. repeat split; assumption.
Qed.

End ReconcileUp.


Lemma update_layers_rank_overflow_witness :
  exists l',
    ViewerModel._update_layers
      (Some [example_layer 0 [2; 3; 6; 10; 15]%Z]) flat_viewer
    = (Py.Raise Py.IndexError, [l'])
    /\ Dims.order (Layer.dims l') = [0; 1; 2; 4; 3]%Z.
Proof.
  destruct (@update_layers_rank_overflow flat_viewer
              (example_layer 0 [2; 3; 6; 10; 15]%Z))
    as (l' & E & O & _).
  - repeat split; try reflexivity. now left.
  - simpl. lia.
  - exists l'. split; [exact E | exact O].
Defined.

(* ------------------------------------------------------------------ *)
(** ** ViewerModel: a change of the layers, then the update of the layers *)

Section LayersChangeThenUpdate.

Import Float.
Import Py.
Import ViewerModel.
Local Open Scope py_scope.

Lemma set_ndim_wf (n : nat) (d : Dims.t) :
  Dims.wf d ->
  exists d',
    Dims.set_ndim n d = (Ok tt, d')
    /\ Dims.ndim d' = n /\ Dims.wf d'
    /\ Dims.ndisplay d' = Dims.ndisplay d.
Proof.
  intros (R & P & O & N). unfold Dims.set_ndim.
  destruct (n =? Dims.ndim d)%nat eqn:E.
  - apply Nat.eqb_eq in E. exists d. repeat split; auto.
  - apply Nat.eqb_neq in E.
    destruct (Dims.ndim d <? n)%nat eqn:G.
    + apply Nat.ltb_lt in G. eexists. split; [reflexivity|]. simpl.
      split; [reflexivity|]. split; [|reflexivity].
      unfold Dims.wf. simpl. rewrite !length_app, !repeat_length.
      split; [lia|]. split; [lia|]. split; [|exact N].
      apply is_permutation_spec. rewrite range_of_nat.
      replace n with ((n - Dims.ndim d) + Dims.ndim d)%nat at 1 by lia.
      apply raise_order_permutation. now apply is_permutation_spec.
    + apply Nat.ltb_ge in G. eexists. split; [reflexivity|]. simpl.
      split; [reflexivity|]. split; [|reflexivity].
      unfold Dims.wf. simpl. rewrite !length_skipn.
      split; [lia|]. split; [lia|]. split; [|exact N].
      apply is_permutation_spec.
      replace n with (Dims.ndim d - (Dims.ndim d - n))%nat at 1 by lia.
      rewrite <- drop_renumber_range by lia.
      apply Permutation_map, Permutation_filter_compat.
      now apply is_permutation_spec.
Qed.

Lemma set_range_wf (i : nat) (r : Dims.range_t) (d : Dims.t) :
  Dims.wf d -> (i < Dims.ndim d)%nat ->
  exists d',
    Dims.set_range i r d = (Ok tt, d')
    /\ Dims.wf d' /\ Dims.ndim d' = Dims.ndim d
    /\ Dims.range d' = replace_nth (Dims.range d) i r
    /\ Dims.ndisplay d' = Dims.ndisplay d.
Proof.
  intros (R & P & O & N) Hi. unfold Dims.set_range.
  destruct (@nth_error_in_range _ (Dims.range d) i) as (old & ->); [lia|].
  destruct (@nth_error_in_range _ (Dims.point d) i) as (p & ->); [lia|].
  destruct r as [[lo hi] st].
  destruct (eqb p (Dims.clamp lo hi p)).
  - eexists. split; [reflexivity|]. unfold Dims.wf. simpl.
    rewrite length_replace_nth. repeat split; auto.
  - eexists. split; [reflexivity|]. unfold Dims.wf. simpl.
    rewrite !length_replace_nth. repeat split; auto.
Qed.

Lemma set_ranges_wf (rs : list Dims.range_t) :
  forall (i : nat) (d : Dims.t),
    Dims.wf d -> Dims.ndim d = (i + List.length rs)%nat ->
    exists d',
      set_ranges i rs d = (Ok tt, d')
      /\ Dims.wf d' /\ Dims.ndim d' = Dims.ndim d
      /\ Dims.range d' = firstn i (Dims.range d) ++ rs
      /\ Dims.ndisplay d' = Dims.ndisplay d.
Proof.
  induction rs as [|r rs IH]; intros i d W L; simpl in *.
  - exists d. split; [reflexivity|]. split; [exact W|].
    split; [reflexivity|]. split; [|reflexivity].
    destruct W as (R & _). rewrite app_nil_r, firstn_all2; [reflexivity | lia].
  - destruct (@set_range_wf i r d W) as (d1 & E1 & W1 & N1 & R1 & D1); [lia|].
    unfold bind. rewrite E1.
    destruct (IH (S i) d1 W1) as (d' & E' & W' & N' & R' & D'); [lia|].
    exists d'. split; [exact E'|]. split; [exact W'|].
    split; [congruence|]. split; [|congruence].
    destruct W as (R & _).
    rewrite R', R1, firstn_S_replace_nth by lia.
    now rewrite <- app_assoc.
Qed.

(** [_on_layers_change] keeps a well formed [Dims] well formed. *)
Lemma on_layers_change_wf (v : t) :
  Dims.wf (dims v) ->
  exists v',
    _on_layers_change v = (Ok tt, v')
    /\ layers v' = layers v
    /\ Dims.wf (dims v')
    /\ Dims.ndim (dims v') = List.length (_calc_layers_ranges v)
    /\ Dims.range (dims v') = _calc_layers_ranges v
    /\ Dims.ndisplay (dims v') = Dims.ndisplay (dims v).
Proof.
  intro W. unfold _on_layers_change, bind, on_dims.
  destruct (@set_ndim_wf (List.length (_calc_layers_ranges v)) (dims v) W)
    as (d1 & E1 & N1 & W1 & D1).
  rewrite E1. cbn [dims with_dims].
  destruct (@set_ranges_wf (_calc_layers_ranges v) 0 d1 W1)
    as (d2 & E2 & W2 & N2 & R2 & D2); [simpl; lia|].
  rewrite E2. eexists. split; [reflexivity|]. simpl.
  split; [reflexivity|]. split; [exact W2|].
  split; [congruence|]. split; [exact R2 | congruence].
Qed.

Lemma update_each_in_step g ls :
  Dims.wf g ->
  Forall (fun l => Layer.consistent l
                   /\ (Layer.ndim l <= Dims.ndim g)%nat) ls ->
  exists ls', update_each g ls = (Ok tt, ls')
              /\ Forall2 (reconciled g) ls ls'
              /\ Forall (in_step g) ls'.
Proof.
  intros W. induction 1 as [|l ls (C & Hle) _ IH]; simpl.
  - exists []. repeat split; constructor.
  - destruct (update_layer_reconciles W C Hle) as (l' & E & R).
    destruct IH as (ls' & E' & R' & S').
    rewrite E, E'. exists (l' :: ls'). split; [reflexivity|].
    split; [now constructor|]. constructor; [|exact S'].
    destruct C as (Cn & Cr & Cp).
    destruct (@reconcile_runs g (Layer.dims l) W)
      as (d' & E2 & _ & P & N & (Kn & _) & _); try congruence; try lia.
    unfold update_layer, Layer.on_dims in E. rewrite E2 in E.
    injection E as <-. unfold in_step. simpl.
    split; [|exact N]. rewrite <- Cn, <- Kn. exact P.
Qed.

(** X8.  In a viewer with well formed [dims] and consistent layers,
    [_on_layers_change] followed by [_update_layers] runs to the end
    without an error: the [dims] stay well formed, with as many axes as
    the layer of highest rank, and afterwards every layer shows as many
    axes as the viewer and has an order that is a permutation of its own
    axes, every layer of lower rank being reconciled as in C1. *)
Theorem layers_change_then_update_layers :
  forall (v : t),
    Dims.wf (dims v) ->
    Forall Layer.consistent (layers v) ->
    exists v' ls',
      _on_layers_change v = (Ok tt, v')
      /\ Dims.wf (dims v')
      /\ Dims.ndim (dims v') = list_max (map Layer.ndim (layers v))
      /\ _update_layers None v' = (Ok tt, ls')
      /\ Forall2 (reconciled (dims v')) (layers v) ls'
      /\ Forall (in_step (dims v')) ls'.
Proof.
  intros v W F.
  destruct (on_layers_change_wf v W) as (v' & E & L & W' & N & _).
  rewrite (@calc_layers_ranges_length v F) in N.
  destruct (@update_each_in_step (dims v') (layers v) W')
    as (ls' & E' & R' & S').
  { apply Forall_forall. intros l Hl. split.
    - rewrite Forall_forall in F. now apply F.
    - rewrite N.
      assert (B : Forall (fun k => (k <= list_max (map Layer.ndim (layers v)))%nat)
                         (map Layer.ndim (layers v)))
        by (apply list_max_le; lia).
      rewrite Forall_forall in B. apply B. now apply in_map. }
  exists v', ls'. split; [exact E|]. split; [exact W'|].
  split; [exact N|]. split; [|split; assumption].
  unfold _update_layers. now rewrite L.
Qed.

End LayersChangeThenUpdate.

Lemma layers_change_then_update_layers_witness :
  exists v' ls',
    ViewerModel._on_layers_change scenario_viewer = (Py.Ok tt, v')
    /\ Dims.ndim (ViewerModel.dims v') = 3%nat
    /\ ViewerModel._update_layers None v' = (Py.Ok tt, ls').
Proof.
  destruct (@layers_change_then_update_layers scenario_viewer)
    as (v' & ls' & E & _ & N & U & _).
  - repeat split; try reflexivity. now left.
  - repeat constructor.
  - exists v', ls'. split; [exact E|]. split; [exact N | exact U].
Defined.

(* ------------------------------------------------------------------ *)
(** ** ViewerModel: the bounding box and the shape of a new labels layer *)

Section Scene.

Import Float.
Import Py.
Import ViewerModel.
Import ViewerScene.

Lemma in_axis_triples (ls : list Layer.t) (l : Layer.t) (j : nat)
  (r : Dims.range_t) :
  In l ls -> nth_error (rev (Dims.range (Layer.dims l))) j = Some r ->
  In r (axis_triples ls j).
Proof.
  intros Hl Hr. unfold axis_triples. apply in_flat_map.
  exists l. split; [exact Hl|]. rewrite Hr. now left.
Qed.

Lemma axis_triples_from (ls : list Layer.t) (j : nat) (r : Dims.range_t) :
  In r (axis_triples ls j) ->
  exists l, In l ls /\ In r (Dims.range (Layer.dims l)).
Proof.
  unfold axis_triples. intro H. apply in_flat_map in H.
  destruct H as (l & Hl & Hr). exists l. split; [exact Hl|].
  destruct (nth_error (rev (Dims.range (Layer.dims l))) j) as [r'|] eqn:E;
    [|destruct Hr].
  destruct Hr as [<- | []]. apply nth_error_In in E. now apply in_rev.
Qed.

Lemma layer_ndim_le_max (ls : list Layer.t) (l : Layer.t) :
  In l ls -> (Layer.ndim l <= list_max (map Layer.ndim ls))%nat.
Proof.
  intro H.
  assert (B : Forall (fun k => (k <= list_max (map Layer.ndim ls))%nat)
                     (map Layer.ndim ls)) by (apply list_max_le; lia).
  rewrite Forall_forall in B. apply B. now apply in_map.
Qed.

Lemma calc_bbox_ranges (v : t) :
  _calc_layers_ranges v <> [] ->
  _calc_bbox v = (map lo_of (_calc_layers_ranges v),
                  map hi_of (_calc_layers_ranges v)).
Proof.
  intro N. unfold _calc_bbox. rewrite length_map.
  destruct (_calc_layers_ranges v); [congruence | reflexivity].
Qed.

(** X9.  The box [_calc_bbox] returns bounds every layer: along each axis
    of each layer, counted from the last axis, the box's min is at most the
    layer's min and the box's max at least the layer's max.  When no layer
    has an axis (no layers at all, say) it is the unit box over the
    viewer's own axes. *)
Theorem calc_bbox_bounds_layers :
  forall (v : t),
    Forall Layer.consistent (layers v) ->
    let n := list_max (map Layer.ndim (layers v)) in
    (forall l a lo hi st,
        In l (layers v) ->
        nth_error (Dims.range (Layer.dims l)) a = Some (lo, hi, st) ->
        exists m M,
          nth_error (fst (_calc_bbox v)) (a + (n - Layer.ndim l)) = Some m
          /\ nth_error (snd (_calc_bbox v)) (a + (n - Layer.ndim l)) = Some M
          /\ le m lo /\ le hi M)
    /\ (n = 0%nat ->
        _calc_bbox v = (repeat (of_Z 0) (Dims.ndim (dims v)),
                        repeat (of_Z 1) (Dims.ndim (dims v)))).
Proof.
  intros v F n. split.
  - intros l a lo hi st Hl Hr.
    pose proof (layer_ndim_le_max _ _ Hl) as Hmax. fold n in Hmax.
    assert (C : Layer.consistent l)
      by (rewrite Forall_forall in F; now apply F).
    destruct C as (_ & Cr & _).
    assert (Ha : (a < Layer.ndim l)%nat).
    { rewrite <- Cr. apply nth_error_Some. congruence. }
    set (g := (a + (n - Layer.ndim l))%nat).
    destruct (@calc_layers_ranges_axis v g F) as (m & M & s & E & Hm & HM & _);
      [unfold g; fold n; lia|].
    fold n in Hm, HM.
    assert (T : In (lo, hi, st) (axis_triples (layers v) (n - 1 - g))).
    { apply in_axis_triples with l; [exact Hl|].
      rewrite nth_error_rev, Cr.
      replace (n - 1 - g <? Layer.ndim l)%nat with true
        by (symmetry; apply Nat.ltb_lt; unfold g; lia).
      replace (Layer.ndim l - S (n - 1 - g))%nat with a by (unfold g; lia).
      exact Hr. }
    rewrite calc_bbox_ranges by (intro Z; rewrite Z in E; destruct g; discriminate).
    exists m, M. simpl. rewrite !nth_error_map, E. simpl.
    split; [reflexivity|]. split; [reflexivity|]. split.
    + apply Hm. apply (in_map lo_of) in T. exact T.
    + apply HM. apply (in_map hi_of) in T. exact T.
  - intro Hn. pose proof (@calc_layers_ranges_length v F) as L.
    fold n in L. rewrite Hn in L. unfold _calc_bbox.
    destruct (_calc_layers_ranges v); [reflexivity | discriminate].
Qed.

Lemma ceil_int_fits (q : Q) :
  (- 2 ^ 63 <= Qceiling q < 2 ^ 63)%Z -> ceil_int (Fin q) = Qceiling q.
Proof.
  intros (L & U). unfold ceil_int.
  replace (- 2 ^ 63 <=? Qceiling q)%Z with true
    by (symmetry; now apply Z.leb_le).
  replace (Qceiling q <? 2 ^ 63)%Z with true
    by (symmetry; now apply Z.ltb_lt).
  reflexivity.
Qed.

Lemma new_labels_extents (maxs : list float) :
  Forall fits_int64 maxs ->
  Forall (fun d => (1 <= d < 2 ^ 63)%Z)
    (map (fun d => if ltb (of_Z 0) d then ceil_int d else 1%Z) maxs)
  /\ Forall2 (fun d M => le M (of_Z d)
                         /\ exists q, M = Fin q
                                      /\ d = Z.max 1 (Qceiling q))
       (map (fun d => if ltb (of_Z 0) d then ceil_int d else 1%Z) maxs)
       maxs.
Proof.
  induction 1 as [|M maxs (q & -> & Fq) _ (IH1 & IH2)]; cbn [map].
  - split; constructor.
  - set (z := if ltb (of_Z 0) (Fin q) then ceil_int (Fin q) else 1%Z).
    assert (Hz : z = Z.max 1 (Qceiling q) /\ (q <= inject_Z z)%Q).
    { unfold z, ltb, of_Z. rewrite (@ceil_int_fits q Fq).
      destruct (Qltb (inject_Z 0) q) eqn:E.
      - apply Qltb_lt in E. pose proof (Qle_ceiling q) as C. split; [|exact C].
        assert (L : (inject_Z 0 < inject_Z (Qceiling q))%Q)
          by (eapply Qlt_le_trans; eauto).
        rewrite <- Zlt_Qlt in L. lia.
      - apply Qltb_ge in E.
        assert (L : (Qceiling q <= 0)%Z).
        { pose proof (Qceiling_lt q) as C.
          assert (L : (inject_Z (Qceiling q - 1) < inject_Z 0)%Q)
            by (eapply Qlt_le_trans; eauto).
          rewrite <- Zlt_Qlt in L. lia. }
        split; [lia|].
        eapply Qle_trans; [exact E|]. rewrite <- Zle_Qle. lia. }
    destruct Hz as (Hz1 & Hz2).
    split.
    + constructor; [lia | exact IH1].
    + constructor; [|exact IH2]. split.
      * unfold le, leb, of_Z, ltb.
        apply negb_true_iff. now apply Qltb_ge.
      * exists q. split; [reflexivity | exact Hz1].
Qed.

(** X10.  With consistent layers whose range maxes, rounded up, fit a
    64-bit integer, the shape [_new_labels] asks [np.zeros] for has no
    negative and no empty axis and no extent that overflowed; unless the
    viewer has no axes it has one extent for every entry of the bounding
    box's max, the ceiling of that max or 1 if that is larger, so that the
    new labels reach at least as far as every layer; a viewer without
    axes gets 512 by 512. *)
Theorem new_labels_covers_scene :
  forall (v : t),
    Forall (fun l => Layer.consistent l
                     /\ Forall (fun r => fits_int64 (hi_of r))
                               (Dims.range (Layer.dims l)))
           (layers v) ->
    Forall (fun d => (1 <= d < 2 ^ 63)%Z) (_new_labels v)
    /\ (Dims.ndim (dims v) = 0%nat -> _new_labels v = [512; 512]%Z)
    /\ (Dims.ndim (dims v) <> 0%nat ->
        Forall2 (fun d M => le M (of_Z d)
                            /\ exists q, M = Fin q
                                         /\ d = Z.max 1 (Qceiling q))
                (_new_labels v) (snd (_calc_bbox v))).
Proof.
  intros v F. unfold _new_labels.
  destruct (Dims.ndim (dims v) =? 0)%nat eqn:E0.
  - apply Nat.eqb_eq in E0. split.
    + repeat constructor; lia.
    + split; [reflexivity | congruence].
  - apply Nat.eqb_neq in E0.
    assert (Fc : Forall Layer.consistent (layers v)).
    { apply Forall_forall. intros l Hl. rewrite Forall_forall in F.
      now apply F. }
    assert (Fit_max : Forall fits_int64 (snd (_calc_bbox v))).
    { destruct (_calc_layers_ranges v) as [|r0 rs] eqn:R.
      - unfold _calc_bbox. rewrite R. simpl.
        apply Forall_forall. intros x Hx. apply repeat_spec in Hx.
        subst x. eexists. split; [reflexivity|]. vm_compute.
        split; [discriminate | reflexivity].
      - rewrite calc_bbox_ranges by congruence. simpl.
        apply Forall_forall. intros M HM. apply In_nth_error in HM.
        destruct HM as (g & HM). rewrite nth_error_map in HM.
        destruct (nth_error (_calc_layers_ranges v) g) as [r|] eqn:G;
          [|discriminate].
        injection HM as <-.
        assert (Hg : (g < list_max (map Layer.ndim (layers v)))%nat).
        { rewrite <- (@calc_layers_ranges_length v Fc).
          apply nth_error_Some. congruence. }
        destruct (@calc_layers_ranges_axis v g Fc Hg)
          as (lo & hi & st & G' & _ & (Hin & _) & _).
        rewrite G in G'. injection G' as ->. unfold hi_of at 1. simpl.
        apply in_map_iff in Hin. destruct Hin as (r & Hr & Tr).
        apply axis_triples_from in Tr. destruct Tr as (l & Hl & Rl).
        rewrite Forall_forall in F. destruct (F l Hl) as (_ & B).
        rewrite Forall_forall in B. rewrite <- Hr. exact (B r Rl). }
    destruct (new_labels_extents Fit_max) as (P1 & P2).
    assert (NE : snd (_calc_bbox v) <> []).
    { unfold _calc_bbox. rewrite length_map.
      destruct (_calc_layers_ranges v); simpl; [|discriminate].
      destruct (Dims.ndim (dims v)); [congruence | discriminate]. }
    rewrite length_map.
    destruct (snd (_calc_bbox v)) as [|M0 maxs] eqn:S; [congruence|].
    cbn [List.length Nat.ltb Nat.leb].
    split; [exact P1|]. split; [congruence | intros _; exact P2].
Qed.

End Scene.

Lemma calc_bbox_bounds_layers_witness :
  ViewerScene._calc_bbox scenario_viewer
  = (map Float.of_Z [0; 0; 0]%Z, map Float.of_Z [6; 20; 15]%Z)
  /\ exists m M,
       nth_error (fst (ViewerScene._calc_bbox scenario_viewer)) 1 = Some m
       /\ nth_error (snd (ViewerScene._calc_bbox scenario_viewer)) 1 = Some M
       /\ Float.le m (Float.of_Z 0) /\ Float.le (Float.of_Z 20) M.
Proof.
  split; [vm_compute; reflexivity|].
  refine (proj1 (@calc_bbox_bounds_layers scenario_viewer _)
            (example_layer 1 [20; 12]%Z) 0%nat _ _ (Float.of_Z 1) _ _).
  - repeat constructor.
  - right. now left.
  - reflexivity.
Defined.

Lemma new_labels_covers_scene_witness :
  ViewerScene._new_labels scenario_viewer = [6; 20; 15]%Z
  /\ Forall (fun d => (1 <= d < 2 ^ 63)%Z)
            (ViewerScene._new_labels scenario_viewer).
Proof.
  split; [vm_compute; reflexivity|].
  apply (@new_labels_covers_scene scenario_viewer).
  repeat constructor; eexists; (split; [reflexivity|]); vm_compute;
    (split; [discriminate | reflexivity]).
Defined.

(* ------------------------------------------------------------------ *)
(** ** Rounding, and what a brush covers *)

Section Rounding.

Import Float.
Import Labels.

Lemma np_round_Z (z : Z) : np_round (inject_Z z) = z.
Proof.
  unfold np_round. rewrite Qfloor_Z.
  assert (L : (inject_Z z - inject_Z z ?= 1 # 2)%Q = Lt).
  { apply Qlt_alt. unfold Qminus. rewrite Qplus_opp_r. reflexivity. }
  now rewrite L.
Qed.


(** [np.round] is monotone. *)
Lemma np_round_mono (x y : Q) : (x <= y)%Q -> (np_round x <= np_round y)%Z.
Proof.
  intro H. pose proof (Qfloor_resp_le _ _ H) as F.
  destruct (Z.eq_dec (Qfloor x) (Qfloor y)) as [E | N].
  - unfold np_round. rewrite <- E.
    destruct (x - inject_Z (Qfloor x) ?= 1 # 2)%Q eqn:Ex;
      destruct (y - inject_Z (Qfloor x) ?= 1 # 2)%Q eqn:Ey;
      try (destruct (Z.even (Qfloor x))); try lia;
      repeat match goal with
             | C : (_ ?= _)%Q = Eq |- _ => apply Qeq_alt in C
             | C : (_ ?= _)%Q = Lt |- _ => apply Qlt_alt in C
             | C : (_ ?= _)%Q = Gt |- _ => apply Qgt_alt in C
             end; exfalso; lra.
  - destruct (np_round_cases x) as [-> | ->],
             (np_round_cases y) as [-> | ->]; lia.
Qed.

Lemma np_round_le_Z (q : Q) (z : Z) :
  (q <= inject_Z z)%Q -> (np_round q <= z)%Z.
Proof. intro H. rewrite <- (np_round_Z z). now apply np_round_mono. Qed.

Lemma np_round_ge_Z (q : Q) (z : Z) :
  (inject_Z z <= q)%Q -> (z <= np_round q)%Z.
Proof. intro H. rewrite <- (np_round_Z z). now apply np_round_mono. Qed.

Ltac case_Qltb :=
  repeat match goal with
         | |- context [Qltb ?a ?b] =>
             let E := fresh "E" in
             destruct (Qltb a b) eqn:E;
             [apply Qltb_lt in E | apply Qltb_ge in E]
         | H : context [Qltb ?a ?b] |- _ =>
             let E := fresh "E" in
             destruct (Qltb a b) eqn:E;
             [apply Qltb_lt in E | apply Qltb_ge in E]
         end.

Lemma np_clip_mono (x y lo hi : Q) :
  (x <= y)%Q -> (np_clip x lo hi <= np_clip y lo hi)%Q.
Proof.
  intro H. unfold np_clip. case_Qltb; lra.
Qed.


(** A brush of size zero or less covers nothing. *)
Lemma brush_empty (c : Q) (brush : Z) (s : nat) :
  (brush <= 0)%Z -> (brush_stop c brush s <= brush_start c brush s)%Z.
Proof.
  intro Hb. unfold brush_stop, brush_start.
  apply np_round_mono, np_clip_mono.
  assert (B : (inject_Z brush / 2 <= 0)%Q).
  { apply Qle_shift_div_r; [reflexivity|].
    change (0 * 2)%Q with (inject_Z 0). now rewrite <- Zle_Qle. }
  set (h := (inject_Z brush / 2)%Q) in *. clearbody h. lra.
Qed.

End Rounding.

(* ------------------------------------------------------------------ *)
(** ** Labels: what the brush covers is painted *)

Section PaintCovers.

Import Float.
Import Py.
Import NDArray.
Import Labels.

Lemma subscript_in_range {A} (l : list A) (default : A) (d : Z) :
  (0 <= d < Z.of_nat (List.length l))%Z ->
  subscript l d = Some (nth (Z.to_nat d) l default).
Proof.
  intro H. unfold subscript.
  replace (0 <=? d)%Z with true by (symmetry; apply Z.leb_le; lia).
  apply nth_error_nth'. lia.
Qed.

Lemma assign_in_range {A} (l : list A) (d : Z) (x : A) :
  (0 <= d < Z.of_nat (List.length l))%Z ->
  assign l d x = Some (replace_nth l (Z.to_nat d) x).
Proof.
  intro H. unfold assign.
  replace ((0 <=? d)%Z && (d <? Z.of_nat (List.length l))%Z) with true;
    [reflexivity|].
  symmetry. apply andb_true_iff. rewrite Z.leb_le, Z.ltb_lt. lia.
Qed.

(** The first loop of the slice branch: the entries of the axes in [ds]
    are brush slices, the others are as they were. *)
Lemma paint_displayed_spec (st : Labels.t) (coord : list Q) :
  forall (ds : list Z) (sc : list index),
    List.length sc = ndim st -> List.length coord = ndim st ->
    (forall d, In d ds -> (0 <= d < Z.of_nat (ndim st))%Z) ->
    exists sc',
      paint_displayed st coord ds sc = Some sc'
      /\ List.length sc' = ndim st
      /\ forall k, (k < ndim st)%nat ->
           nth_error sc' k =
           if existsb (Z.eqb (Z.of_nat k)) ds
           then Some (brush_slice (nth k coord 0%Q) (brush_size st)
                                  (nth k (shape st) 0%nat))
           else nth_error sc k.
Proof.
  induction ds as [|d ds IH]; intros sc Ls Lc Hd.
  - exists sc. simpl. repeat split; auto.
  - assert (D : (0 <= d < Z.of_nat (ndim st))%Z) by (apply Hd; now left).
    cbn [paint_displayed].
    rewrite (@subscript_in_range _ coord 0%Q d) by (rewrite Lc; exact D).
    rewrite (@subscript_in_range _ (shape st) 0%nat d) by exact D.
    rewrite assign_in_range by (rewrite Ls; exact D).
    set (e := brush_slice (nth (Z.to_nat d) coord 0%Q) (brush_size st)
                          (nth (Z.to_nat d) (shape st) 0%nat)).
    destruct (IH (replace_nth sc (Z.to_nat d) e)) as (sc' & E & L' & N').
    { now rewrite length_replace_nth. }
    { exact Lc. }
    { intros x Hx. apply Hd. now right. }
    exists sc'. split; [exact E|]. split; [exact L'|].
    intros k Hk. rewrite (N' k Hk). cbn [existsb].
    destruct (existsb (Z.eqb (Z.of_nat k)) ds); [now rewrite orb_true_r|].
    rewrite orb_false_r.
    destruct (Z.eqb_spec (Z.of_nat k) d) as [<- | Nk].
    + unfold e. rewrite Nat2Z.id.
      destruct (@nth_error_in_range _ sc k) as (y & Hy); [lia|].
      now rewrite (nth_error_replace_nth_same _ _ _ Hy).
    + apply nth_error_replace_nth_other. lia.
Qed.

(** The second loop: the entries of the axes in [ns] are the rounded
    coordinates. *)
Lemma paint_pinned_spec (coord : list Q) (n : nat) :
  forall (ns : list Z) (sc : list index),
    List.length sc = n -> List.length coord = n ->
    (forall d, In d ns -> (0 <= d < Z.of_nat n)%Z) ->
    exists sc',
      paint_pinned coord ns sc = Some sc'
      /\ List.length sc' = n
      /\ forall k, (k < n)%nat ->
           nth_error sc' k =
           if existsb (Z.eqb (Z.of_nat k)) ns
           then Some (Int (np_round (nth k coord 0%Q)))
           else nth_error sc k.
Proof.
  induction ns as [|d ns IH]; intros sc Ls Lc Hd.
  - exists sc. simpl. repeat split; auto.
  - assert (D : (0 <= d < Z.of_nat n)%Z) by (apply Hd; now left).
    cbn [paint_pinned].
    rewrite (@subscript_in_range _ coord 0%Q d) by (rewrite Lc; exact D).
    rewrite assign_in_range by (rewrite Ls; exact D).
    set (e := Int (np_round (nth (Z.to_nat d) coord 0%Q))).
    destruct (IH (replace_nth sc (Z.to_nat d) e)) as (sc' & E & L' & N').
    { now rewrite length_replace_nth. }
    { exact Lc. }
    { intros x Hx. apply Hd. now right. }
    exists sc'. split; [exact E|]. split; [exact L'|].
    intros k Hk. rewrite (N' k Hk). cbn [existsb].
    destruct (existsb (Z.eqb (Z.of_nat k)) ns); [now rewrite orb_true_r|].
    rewrite orb_false_r.
    destruct (Z.eqb_spec (Z.of_nat k) d) as [<- | Nk].
    + unfold e. rewrite Nat2Z.id.
      destruct (@nth_error_in_range _ sc k) as (y & Hy); [lia|].
      now rewrite (nth_error_replace_nth_same _ _ _ Hy).
    + apply nth_error_replace_nth_other. lia.
Qed.

Lemma whole_tuple_entry (brush : Z) (coord : list Q) (sh : list nat) :
  forall k, (k < List.length coord)%nat -> (k < List.length sh)%nat ->
    nth_error
      (map (fun cs => brush_slice (fst cs) brush (snd cs)) (combine coord sh))
      k
    = Some (brush_slice (nth k coord 0%Q) brush (nth k sh 0%nat)).
Proof.
  revert sh. induction coord as [|c coord IH]; intros [|s sh] k H1 H2;
    simpl in *; try lia.
  destruct k as [|k]; simpl; [reflexivity|]. apply IH; lia.
Qed.

(** An axis of a valid order is displayed or not displayed. *)
Lemma axis_displayed_or_not (d : Dims.t) (k : nat) :
  Dims.is_permutation (Dims.order d) (Dims.ndim d) = true ->
  (k < Dims.ndim d)%nat ->
  existsb (Z.eqb (Z.of_nat k)) (Dims.not_displayed d)
  || existsb (Z.eqb (Z.of_nat k)) (Dims.displayed d) = true.
Proof.
  intros P Hk. unfold Dims.not_displayed, Dims.displayed.
  rewrite <- existsb_app, firstn_skipn.
  unfold Dims.is_permutation in P. apply andb_true_iff in P.
  destruct P as (_ & P). rewrite forallb_forall in P.
  apply P. apply in_seq. lia.
Qed.

(** The index tuple [paint] builds for a cursor with one coordinate per
    axis: a brush slice on every axis that is painted across, the rounded
    coordinate on the others. *)
Lemma paint_slice_coord_spec (st : Labels.t) (coord : list Q) :
  Dims.wf (dims st) -> Dims.ndim (dims st) = ndim st ->
  List.length coord = ndim st ->
  exists sc,
    paint_slice_coord st coord = Some sc
    /\ List.length sc = ndim st
    /\ forall k, (k < ndim st)%nat ->
         nth_error sc k =
         Some (if (n_dimensional st || (ndim st =? 2)%nat)
                  || negb (existsb (Z.eqb (Z.of_nat k))
                                   (Dims.not_displayed (dims st)))
               then brush_slice (nth k coord 0%Q) (brush_size st)
                                (nth k (shape st) 0%nat)
               else Int (np_round (nth k coord 0%Q))).
Proof.
  intros (_ & _ & WO & _) Dn Lc. unfold paint_slice_coord.
  destruct (n_dimensional st || (ndim st =? 2)%nat) eqn:B.
  - eexists. split; [reflexivity|]. split.
    + rewrite length_map, length_combine, Lc. unfold ndim, NDArray.ndim, shape.
      lia.
    + intros k Hk. cbn [orb]. apply whole_tuple_entry; [lia | exact Hk].
  - destruct (@paint_displayed_spec st coord (Dims.displayed (dims st))
                (repeat (Int 0) (ndim st))) as (sc1 & E1 & L1 & N1).
    { apply repeat_length. }
    { exact Lc. }
    { intros d Hd. rewrite <- Dn.
      apply order_entries_in_range with (o := Dims.order (dims st));
        [exact WO | now apply displayed_incl]. }
    rewrite E1.
    destruct (@paint_pinned_spec coord (ndim st)
                (Dims.not_displayed (dims st)) sc1 L1 Lc)
      as (sc2 & E2 & L2 & N2).
    { intros d Hd. rewrite <- Dn.
      apply order_entries_in_range with (o := Dims.order (dims st));
        [exact WO | now apply not_displayed_incl]. }
    exists sc2. split; [exact E2|]. split; [exact L2|].
    intros k Hk. rewrite (N2 k Hk). cbn [orb].
    destruct (existsb (Z.eqb (Z.of_nat k)) (Dims.not_displayed (dims st)))
      eqn:X; [reflexivity|].
    rewrite (N1 k Hk).
    pose proof (@axis_displayed_or_not (dims st) k WO) as A.
    rewrite X in A. simpl in A. rewrite A by lia. reflexivity.
Qed.

(** *** What numpy selects, the other way round *)







Lemma paint_data (st : Labels.t) (coord : list Q) (new_label : Z)
  (sc : list index) (sel : list axis_sel) :
  paint_slice_coord st coord = Some sc ->
  resolve (shape st) sc = Some sel ->
  data (snd (paint coord new_label st))
  = setitem_scalar (data st) sel new_label.
Proof.
  intros P R. unfold paint. rewrite P, R. now rewrite set_view_slice_data.
Qed.



(** *** A brush that covers nothing *)

Lemma in_bounds_length (sh : list nat) :
  forall i, in_bounds sh i = true -> List.length i = List.length sh.
Proof.
  induction sh as [|s sh IH]; intros [|j i] H; simpl in H; try discriminate.
  - reflexivity.
  - apply andb_true_iff in H. simpl. f_equal. now apply IH.
Qed.

(** In a well formed [Dims] with an axis, some axis is displayed and not
    among the axes that are not. *)
Lemma some_axis_painted (d : Dims.t) :
  Dims.wf d -> Dims.ndim d <> 0%nat ->
  exists k, (k < Dims.ndim d)%nat
            /\ existsb (Z.eqb (Z.of_nat k)) (Dims.not_displayed d) = false.
Proof.
  intros (_ & _ & WO & WN) Hn.
  pose proof WO as P. apply is_permutation_spec in P.
  assert (L : List.length (Dims.order d) = Dims.ndim d).
  { apply Permutation_length in P.
    now rewrite length_map, length_seq in P. }
  assert (ND : NoDup (Dims.order d)).
  { eapply Permutation_NoDup; [exact P | apply NoDup_range]. }
  set (m := (List.length (Dims.order d) - Z.to_nat (Dims.ndisplay d))%nat).
  assert (Hm : (m < List.length (Dims.order d))%nat) by (unfold m; lia).
  rewrite <- (firstn_skipn m (Dims.order d)) in ND.
  destruct (skipn m (Dims.order d)) as [|x rest] eqn:S.
  { apply (f_equal (@List.length Z)) in S. rewrite length_skipn in S.
    simpl in S. lia. }
  assert (Hx : In x (Dims.order d)).
  { rewrite <- (firstn_skipn m (Dims.order d)), S.
    apply in_or_app. right. now left. }
  pose proof (@order_entries_in_range _ _ x WO Hx) as Rx.
  apply NoDup_remove_2 in ND.
  exists (Z.to_nat x). split; [lia|].
  destruct (existsb (Z.eqb (Z.of_nat (Z.to_nat x))) (Dims.not_displayed d))
    eqn:X; [|reflexivity].
  exfalso. apply ND. apply in_or_app. left.
  apply existsb_exists in X. destruct X as (y & Hy & E).
  apply Z.eqb_eq in E. unfold Dims.not_displayed in Hy. fold m in Hy.
  replace x with y by lia. exact Hy.
Qed.

Lemma paint_empty_brush (st : Labels.t) (coord : list Q) (new_label : Z) :
  Dims.wf (dims st) -> Dims.ndim (dims st) = ndim st ->
  List.length coord = ndim st -> ndim st <> 0%nat ->
  (brush_size st <= 0)%Z ->
  forall i,
    item (data (snd (paint coord new_label st))) i = item (data st) i.
Proof.
  intros W Dn Lc Hn Hb i.
  destruct (@paint_slice_coord_spec st coord W Dn Lc) as (sc & P & Ls & N).
  pose proof (@paint_slice_coord_clipped st coord sc P) as C.
  destruct (resolve (shape st) sc) as [sel|] eqn:R.
  - rewrite (@paint_data st coord new_label sc sel P R). simpl.
    destruct (selected sel i) eqn:S; [exfalso | reflexivity].
    destruct (@resolve_selected (shape st) sc sel i R C S) as (B & A).
    assert (K : exists k, (k < ndim st)%nat
                /\ nth_error sc k
                   = Some (brush_slice (nth k coord 0%Q) (brush_size st)
                                       (nth k (shape st) 0%nat))).
    { destruct (n_dimensional st || (ndim st =? 2)%nat) eqn:Wh.
      - exists 0%nat. split; [lia|]. now rewrite N by lia.
      - rewrite <- Dn in Hn. destruct (some_axis_painted W Hn) as (k & Hk & X).
        exists k. rewrite Dn in Hk. split; [exact Hk|].
        rewrite (N k Hk), X. reflexivity. }
    destruct K as (k & Hk & E).
    apply in_bounds_length in B.
    destruct (@nth_error_in_range _ i k) as (j & Hj);
      [rewrite B; exact Hk|].
    destruct (@nth_error_in_range _ (shape st) k) as (s & Hs); [exact Hk|].
    pose proof (A k _ s j E Hs Hj) as Q. simpl in Q.
    pose proof (brush_empty (nth k coord 0%Q) (nth k (shape st) 0%nat) Hb).
    lia.
  - unfold paint. rewrite P, R. reflexivity.
Qed.

(** X12.  A brush size below one reaches [paint] as zero or less, the
    setter truncating toward zero, and then [paint] changes no cell,
    wherever the cursor is: the slice of every painted axis is empty. *)
Theorem brush_below_one_paints_nothing :
  forall (st : Labels.t) (q : Q) (coord : list Q) (new_label : Z),
    Dims.wf (dims st) -> Dims.ndim (dims st) = ndim st ->
    List.length coord = ndim st -> ndim st <> 0%nat ->
    (q < 1)%Q ->
    let st1 := snd (set_brush_size (Fin q) st) in
    (brush_size st1 <= 0)%Z
    /\ forall i,
         item (data (snd (paint coord new_label st1))) i = item (data st) i.
Proof.
  intros st q coord new_label W Dn Lc Hn Hq st1.
  assert (F : brush_size st1 = py_int q /\ data st1 = data st
              /\ dims st1 = dims st).
  { unfold st1, set_brush_size, int_of_float, bind, ret, modify, get, raise.
    simpl. destruct (Qeq_bool (scale_factor st) 0); simpl; auto. }
  destruct F as (Fb & Fd & Fm).
  assert (Hb : (brush_size st1 <= 0)%Z).
  { rewrite Fb. unfold py_int. destruct (Qltb q 0) eqn:E.
    - apply Qltb_lt in E. pose proof (Qceiling_lt q) as L.
      assert (L' : (inject_Z (Qceiling q - 1) < inject_Z 0)%Q)
        by (eapply Qlt_trans; eauto).
      rewrite <- Zlt_Qlt in L'. lia.
    - pose proof (Qfloor_le q) as L.
      assert (L' : (inject_Z (Qfloor q) < inject_Z 1)%Q)
        by (eapply Qle_lt_trans; eauto).
      rewrite <- Zlt_Qlt in L'. lia. }
  split; [exact Hb|]. intro i. rewrite <- Fd.
  apply paint_empty_brush; auto.
  - now rewrite Fm.
  - rewrite Fm. unfold ndim. now rewrite Fd.
  - unfold ndim. rewrite Fd. exact Lc.
  - unfold ndim. now rewrite Fd.
Qed.

End PaintCovers.


Lemma brush_below_one_paints_nothing_witness :
  NDArray.item
    (Labels.data
       (snd (Labels.paint [1; 1]%Q 7
               (snd (Labels.set_brush_size (Float.Fin (9 # 10))
                       blank_image)))))
    [1; 1]%nat = 0%Z.
Proof.
  refine (proj2 (@brush_below_one_paints_nothing blank_image (9 # 10)
                   [1; 1]%Q 7%Z _ _ _ _ _) [1; 1]%nat).
  - repeat split; try reflexivity. now left.
  - reflexivity.
  - reflexivity.
  - discriminate.
  - reflexivity.
Defined.

(* ------------------------------------------------------------------ *)
(** ** Labels: the displayed slice shows the data at the sliders *)

Section Slicing.

Import Float.
Import Py.
Import NDArray.
Import Labels.

Lemma nth_map_seq {A} (g : nat -> A) (n k : nat) (d : A) :
  (k < n)%nat -> nth k (map g (seq 0 n)) d = g k.
Proof.
  intro H. rewrite (nth_indep _ d (g 0%nat)) by (now rewrite length_map, length_seq).
  rewrite map_nth, seq_nth by exact H. reflexivity.
Qed.

Lemma skipn_cons_nth (r : nat) (i : list nat) (x : nat) (i' : list nat) :
  skipn r i = x :: i' -> nth r i 0%nat = x /\ skipn (S r) i = i'.
Proof.
  revert i. induction r as [|r IH]; intros [|y i] H; simpl in H;
    try discriminate.
  - injection H as <- <-. split; reflexivity.
  - destruct (IH _ H) as (H1 & H2). split; [exact H1 | exact H2].
Qed.

Lemma skipn_nil_nth (r : nat) (i : list nat) :
  skipn r i = [] -> nth r i 0%nat = 0%nat /\ skipn (S r) i = [].
Proof.
  revert i. induction r as [|r IH]; intros [|y i] H; simpl in H;
    try discriminate; try (split; reflexivity).
  destruct (IH _ H) as (H1 & H2). split; [exact H1 | exact H2].
Qed.

Section Entries.

Variable disp : nat -> bool.
Variable pin : nat -> nat.
Variable ext : nat -> nat.

Lemma rank_below_S (a : nat) :
  rank_below disp (S a)
  = if disp a then S (rank_below disp a) else rank_below disp a.
Proof.
  unfold rank_below. rewrite seq_S, filter_app, length_app. simpl.
  destruct (disp a); simpl; lia.
Qed.

Lemma rank_below_le (a b : nat) :
  (a <= b)%nat -> (rank_below disp a <= rank_below disp b)%nat.
Proof.
  induction 1 as [|b _ IH]; [lia|].
  rewrite rank_below_S. destruct (disp b); lia.
Qed.

Lemma rank_below_lt (a n : nat) :
  disp a = true -> (a < n)%nat ->
  (rank_below disp a < rank_below disp n)%nat.
Proof.
  intros Ha Hn. pose proof (rank_below_le Hn) as L.
  rewrite rank_below_S, Ha in L. lia.
Qed.

Lemma sel_shape_entries (a m : nat) :
  sel_shape (map (axis_entry disp pin ext) (seq a m))
  = map ext (filter disp (seq a m)).
Proof.
  revert a. induction m as [|m IH]; intro a; simpl; [reflexivity|].
  unfold axis_entry at 1. destruct (disp a); simpl; now rewrite IH.
Qed.

Lemma sel_to_base_entries (m : nat) :
  forall (a : nat) (i : list nat),
    sel_to_base (map (axis_entry disp pin ext) (seq a m))
                (skipn (rank_below disp a) i)
    = map (fun axis => if disp axis then nth (rank_below disp axis) i 0%nat
                       else pin axis)
          (seq a m).
Proof.
  induction m as [|m IH]; intros a i; simpl; [reflexivity|].
  pose proof (rank_below_S a) as RS.
  unfold axis_entry at 1. destruct (disp a); simpl.
  - destruct (skipn (rank_below disp a) i) as [|x i'] eqn:E.
    + destruct (skipn_nil_nth _ _ E) as (H1 & H2).
      rewrite H1. f_equal. rewrite <- H2, <- RS. apply IH.
    + destruct (skipn_cons_nth _ _ E) as (H1 & H2).
      rewrite H1. f_equal. rewrite <- H2, <- RS. apply IH.
  - f_equal. rewrite <- RS. apply IH.
Qed.

(** The displayed axes, in ascending order, have the ranks 0, 1, ... *)
Lemma rank_filter_seq (n : nat) :
  map (rank_below disp) (filter disp (seq 0 n)) = seq 0 (rank_below disp n).
Proof.
  induction n as [|n IH]; [reflexivity|].
  rewrite seq_S, filter_app, map_app, IH, rank_below_S.
  cbn [filter Nat.add].
  destruct (disp n); cbn [map].
  - rewrite seq_S. reflexivity.
  - now rewrite app_nil_r.
Qed.

Lemma nth_rank_filter (n axis : nat) :
  disp axis = true -> (axis < n)%nat ->
  nth (rank_below disp axis) (filter disp (seq 0 n)) 0%nat = axis.
Proof.
  intros Ha Hn.
  replace n with (axis + S (n - S axis))%nat by lia.
  rewrite seq_app, filter_app. simpl. rewrite Ha.
  rewrite app_nth2 by (unfold rank_below; lia).
  unfold rank_below. now rewrite Nat.sub_diag.
Qed.

Lemma filter_below (n k : nat) :
  (k <= n)%nat ->
  filter (fun b => (b <? Z.of_nat k)%Z)
         (map Z.of_nat (filter disp (seq 0 n)))
  = map Z.of_nat (filter disp (seq 0 k)).
Proof.
  intro H. replace n with (k + (n - k))%nat by lia.
  rewrite seq_app, filter_app, map_app, filter_app.
  rewrite (@filter_all _ (fun b => (b <? Z.of_nat k)%Z)
             (map Z.of_nat (filter disp (seq 0 k)))).
  rewrite (@filter_none _ (fun b => (b <? Z.of_nat k)%Z)
             (map Z.of_nat (filter disp (seq (0 + k) (n - k))))).
  - now rewrite app_nil_r.
  - intros x Hx. apply in_map_iff in Hx. destruct Hx as (y & <- & Hy).
    apply filter_In in Hy. destruct Hy as (Hy & _). apply in_seq in Hy.
    apply Z.ltb_ge. lia.
  - intros x Hx. apply in_map_iff in Hx. destruct Hx as (y & <- & Hy).
    apply filter_In in Hy. destruct Hy as (Hy & _). apply in_seq in Hy.
    apply Z.ltb_lt. lia.
Qed.

End Entries.

Lemma position_nth (l : list nat) (k : nat) (d : nat) :
  NoDup l -> (k < List.length l)%nat -> position (nth k l d) l = k.
Proof.
  revert k. induction l as [|a l IH]; intros k ND Hk; simpl in Hk; [lia|].
  inversion ND as [|? ? Ha ND']; subst.
  destruct k as [|k]; simpl.
  - now rewrite Nat.eqb_refl.
  - destruct (Nat.eqb_spec a (nth k l d)) as [E | N].
    + exfalso. apply Ha. rewrite E. apply nth_In. lia.
    + f_equal. apply IH; [exact ND' | lia].
Qed.

Lemma is_axes_of_permutation (axes : list nat) (n : nat) :
  Permutation (seq 0 n) axes -> is_axes axes n = true.
Proof.
  intro P. unfold is_axes. apply andb_true_iff. split.
  - apply Nat.eqb_eq. apply Permutation_length in P.
    now rewrite length_seq in P.
  - apply forallb_forall. intros m Hm. apply existsb_exists.
    exists m. split; [eapply Permutation_in; eauto | apply Nat.eqb_refl].
Qed.

(** An index tuple computed axis by axis resolves axis by axis. *)
Lemma resolve_entries (F : nat -> index) (G : nat -> axis_sel) :
  forall (sh : list nat) (a : nat),
    (forall k s, nth_error sh k = Some s ->
                 resolve_entry s (F (a + k)%nat) = Some (G (a + k)%nat)) ->
    resolve sh (map F (seq a (List.length sh)))
    = Some (map G (seq a (List.length sh))).
Proof.
  induction sh as [|s sh IH]; intros a H; simpl; [reflexivity|].
  pose proof (H 0%nat s eq_refl) as H0. rewrite Nat.add_0_r in H0.
  rewrite H0, (IH (S a)); [reflexivity|].
  intros k s0 Hk. replace (S a + k)%nat with (a + S k)%nat by lia.
  now apply H.
Qed.

(** In a well formed [Dims], the axes that are displayed are those that
    are not among the not displayed ones. *)
Lemma displayed_iff (d : Dims.t) (k : nat) :
  Dims.wf d -> (k < Dims.ndim d)%nat ->
  (negb (existsb (Z.eqb (Z.of_nat k)) (Dims.not_displayed d)) = true
   <-> In (Z.of_nat k) (Dims.displayed d)).
Proof.
  intros (_ & _ & WO & _) Hk.
  pose proof (@axis_displayed_or_not d k WO Hk) as A.
  pose proof WO as P. apply is_permutation_spec in P.
  assert (ND : NoDup (Dims.order d))
    by (eapply Permutation_NoDup; [exact P | apply NoDup_range]).
  unfold Dims.displayed, Dims.not_displayed in *.
  set (m := (List.length (Dims.order d) - Z.to_nat (Dims.ndisplay d))%nat)
    in *.
  rewrite <- (firstn_skipn m (Dims.order d)) in ND.
  split.
  - intro H. apply negb_true_iff in H. rewrite H in A. simpl in A.
    apply existsb_exists in A. destruct A as (x & Hx & E).
    apply Z.eqb_eq in E. now subst.
  - intro H. apply negb_true_iff.
    destruct (existsb (Z.eqb (Z.of_nat k)) (firstn m (Dims.order d))) eqn:X;
      [|reflexivity].
    exfalso. apply existsb_exists in X. destruct X as (x & Hx & E).
    apply Z.eqb_eq in E. subst x.
    apply in_split in H. destruct H as (l1 & l2 & S).
    rewrite S in ND. rewrite app_assoc in ND.
    apply NoDup_remove_2 in ND. apply ND.
    apply in_or_app. left. apply in_or_app. now left.
Qed.

(** The displayed axes in ascending order are the displayed axes. *)
Lemma displayed_sorted (d : Dims.t) :
  Dims.wf d ->
  Permutation
    (map Z.of_nat
       (filter (fun k => negb (existsb (Z.eqb (Z.of_nat k))
                                       (Dims.not_displayed d)))
               (seq 0 (Dims.ndim d))))
    (Dims.displayed d).
Proof.
  intro W. pose proof W as (_ & _ & WO & _).
  pose proof WO as P. apply is_permutation_spec in P.
  assert (ND : NoDup (Dims.order d))
    by (eapply Permutation_NoDup; [exact P | apply NoDup_range]).
  apply NoDup_Permutation.
  - apply Injective_map_NoDup; [intros x y; apply Nat2Z.inj|].
    apply NoDup_filter, seq_NoDup.
  - unfold Dims.displayed.
    rewrite <- (firstn_skipn
                  (List.length (Dims.order d) - Z.to_nat (Dims.ndisplay d))
                  (Dims.order d)) in ND.
    now apply NoDup_app_remove_l in ND.
  - intro x. split.
    + intro H. apply in_map_iff in H. destruct H as (k & <- & Hk).
      apply filter_In in Hk. destruct Hk as (Hk & Dk). apply in_seq in Hk.
      apply displayed_iff; [exact W | lia | exact Dk].
    + intro H.
      pose proof (@order_entries_in_range _ _ x WO (displayed_incl _ _ H))
        as Rx.
      apply in_map_iff. exists (Z.to_nat x). split; [lia|].
      apply filter_In. split; [apply in_seq; lia|].
      apply displayed_iff; [exact W | lia |].
      now rewrite Z2Nat.id by lia.
Qed.

(** [dims.displayed_order] gives every displayed axis its rank among the
    displayed axes. *)
Lemma displayed_order_ranks (d : Dims.t) :
  Dims.wf d ->
  Dims.displayed_order d
  = map (fun a => rank_below
                    (fun k => negb (existsb (Z.eqb (Z.of_nat k))
                                            (Dims.not_displayed d)))
                    (Z.to_nat a))
        (Dims.displayed d).
Proof.
  intro W. pose proof W as (_ & _ & WO & _).
  unfold Dims.displayed_order. apply map_ext_in. intros a Ha.
  pose proof (@order_entries_in_range _ _ a WO (displayed_incl _ _ Ha)) as Ra.
  pose proof (displayed_sorted W) as P.
  apply (Permutation_filter_compat (fun b => (b <? a)%Z)) in P.
  apply Permutation_length in P. rewrite <- P.
  replace (fun b : Z => (b <? a)%Z)
    with (fun b : Z => (b <? Z.of_nat (Z.to_nat a))%Z)
    by (rewrite Z2Nat.id by lia; reflexivity).
  rewrite filter_below by lia. now rewrite length_map.
Qed.

Lemma displayed_order_permutation (d : Dims.t) :
  Dims.wf d ->
  Permutation
    (seq 0 (rank_below
              (fun k => negb (existsb (Z.eqb (Z.of_nat k))
                                      (Dims.not_displayed d)))
              (Dims.ndim d)))
    (Dims.displayed_order d).
Proof.
  intro W. rewrite displayed_order_ranks by exact W.
  rewrite <- rank_filter_seq.
  pose proof (displayed_sorted W) as P.
  apply (Permutation_map
           (fun a => rank_below
                       (fun k => negb (existsb (Z.eqb (Z.of_nat k))
                                               (Dims.not_displayed d)))
                       (Z.to_nat a))) in P.
  rewrite map_map in P.
  rewrite (map_ext _ (rank_below
                        (fun k => negb (existsb (Z.eqb (Z.of_nat k))
                                                (Dims.not_displayed d)))))
    in P by (intro k; now rewrite Nat2Z.id).
  exact P.
Qed.

(** The displayed slice, spelled out: [dims.indices] pins the axes that
    are not displayed and takes the others whole, and the transpose by
    [dims.displayed_order] puts the axes kept in the order of
    [dims.displayed]. *)
Lemma data_labels_spec (st : Labels.t) :
  Dims.wf (dims st) -> Dims.ndim (dims st) = ndim st -> sliders_inside st ->
  let disp := fun k => negb (existsb (Z.eqb (Z.of_nat k))
                                     (Dims.not_displayed (dims st))) in
  let pin := fun k => Z.to_nat (round_int (nth k (Dims.point (dims st))
                                              (of_Z 0))) in
  exists v,
    _data_labels st = Some v
    /\ vshape v = map (fun a => nth (Z.to_nat a) (shape st) 0%nat)
                      (Dims.displayed (dims st))
    /\ forall i,
         to_base v i
         = map (fun axis =>
                  if disp axis
                  then nth (position (rank_below disp axis)
                                     (Dims.displayed_order (dims st)))
                           i 0%nat
                  else pin axis)
               (seq 0 (ndim st)).
Proof.
  intros W Dn SI disp pin.
  pose proof W as (_ & _ & WO & _).
  set (ext := fun k => nth k (shape st) 0%nat).
  set (sel := map (axis_entry disp pin ext) (seq 0 (ndim st))).
  assert (R : resolve (shape st) (Dims.indices (dims st)) = Some sel).
  { unfold Dims.indices, sel. rewrite Dn.
    change (ndim st) with (List.length (shape st)).
    apply (resolve_entries
             (fun axis =>
                if existsb (Z.eqb (Z.of_nat axis))
                           (Dims.not_displayed (dims st))
                then Int (round_int (nth axis (Dims.point (dims st))
                                         (of_Z 0)))
                else All)
             (axis_entry disp pin ext) (shape st) 0).
    intros k s Hk. cbn [Nat.add]. unfold axis_entry, disp.
    destruct (existsb (Z.eqb (Z.of_nat k)) (Dims.not_displayed (dims st)))
      eqn:X; cbn [negb].
    - apply existsb_exists in X. destruct X as (a & Ha & E).
      apply Z.eqb_eq in E. subst a.
      assert (C := SI (Z.of_nat k) s Ha). rewrite Nat2Z.id in C.
      specialize (C Hk). simpl. unfold resolve_int.
      replace (_ <? 0)%Z with false by (symmetry; apply Z.ltb_ge; lia).
      replace ((0 <=? _)%Z && (_ <? Z.of_nat s)%Z) with true;
        [reflexivity|].
      symmetry. apply andb_true_iff. rewrite Z.leb_le, Z.ltb_lt. lia.
    - simpl. unfold ext. now rewrite (nth_error_nth _ _ 0%nat Hk). }
  assert (Sh : sel_shape sel
               = map ext (filter disp (seq 0 (ndim st))))
    by apply sel_shape_entries.
  assert (Perm : Permutation (seq 0 (rank_below disp (ndim st)))
                             (Dims.displayed_order (dims st))).
  { rewrite <- Dn. exact (displayed_order_permutation W). }
  assert (Ax : is_axes (Dims.displayed_order (dims st))
                       (List.length (sel_shape sel)) = true).
  { apply is_axes_of_permutation. rewrite Sh, length_map. exact Perm. }
  assert (Dsp : forall a, In a (Dims.displayed (dims st)) ->
                  (Z.to_nat a < ndim st)%nat /\ disp (Z.to_nat a) = true).
  { intros a Ha.
    pose proof (@order_entries_in_range _ _ a WO (displayed_incl _ _ Ha))
      as Ra.
    rewrite Dn in Ra. split; [lia|].
    apply displayed_iff; [exact W | lia |]. now rewrite Z2Nat.id by lia. }
  unfold _data_labels. rewrite R. unfold transpose.
  cbn [vshape basic_view]. rewrite Ax.
  eexists. split; [reflexivity|]. cbn [vshape to_base basic_view]. split.
  - rewrite (displayed_order_ranks W), map_map. apply map_ext_in.
    intros a Ha. destruct (Dsp a Ha) as (La & Da). fold disp. rewrite Sh.
    rewrite (nth_indep _ 0%nat (ext 0%nat)).
    + rewrite map_nth. unfold ext at 1. f_equal.
      now apply nth_rank_filter.
    + rewrite length_map. now apply rank_below_lt.
  - intro i. rewrite Sh, length_map.
    change (filter disp (seq 0 (ndim st)))
      with (filter disp (seq 0 (ndim st))).
    fold (rank_below disp (ndim st)).
    set (i' := map (fun m => nth (position m (Dims.displayed_order (dims st)))
                                 i 0%nat)
                   (seq 0 (rank_below disp (ndim st)))).
    pose proof (sel_to_base_entries disp pin ext (ndim st) 0 i') as E.
    change (skipn (rank_below disp 0) i') with i' in E.
    fold sel in E. rewrite E. apply map_ext_in. intros axis Hx.
    apply in_seq in Hx. destruct (disp axis) eqn:Da; [|reflexivity].
    unfold i'. rewrite nth_map_seq; [reflexivity|].
    apply rank_below_lt; [exact Da | lia].
Qed.

(** The index in the data that the displayed slice shows at [i]. *)
Lemma slice_index (st : Labels.t) :
  Dims.wf (dims st) -> Dims.ndim (dims st) = ndim st -> sliders_inside st ->
  exists v,
    _data_labels st = Some v
    /\ vshape v = map (fun a => nth (Z.to_nat a) (shape st) 0%nat)
                      (Dims.displayed (dims st))
    /\ forall i,
         List.length (to_base v i) = ndim st
         /\ (forall k a, nth_error (Dims.displayed (dims st)) k = Some a ->
               nth (Z.to_nat a) (to_base v i) 0%nat = nth k i 0%nat)
         /\ (forall a, In a (Dims.not_displayed (dims st)) ->
               nth (Z.to_nat a) (to_base v i) 0%nat
               = Z.to_nat (round_int (nth (Z.to_nat a)
                                          (Dims.point (dims st))
                                          (of_Z 0)))).
Proof.
  intros W Dn SI.
  destruct (data_labels_spec W Dn SI) as (v & E & Sh & TB).
  exists v. split; [exact E|]. split; [exact Sh|].
  intro i. pose proof W as (_ & _ & WO & _).
  rewrite TB. split; [|split].
  - now rewrite length_map, length_seq.
  - intros k a Hk.
    assert (Ha : In a (Dims.displayed (dims st)))
      by (eapply nth_error_In; eauto).
    pose proof (@order_entries_in_range _ _ a WO (displayed_incl _ _ Ha))
      as Ra.
    rewrite Dn in Ra.
    assert (Da : negb (existsb (Z.eqb (Z.of_nat (Z.to_nat a)))
                               (Dims.not_displayed (dims st))) = true).
    { apply displayed_iff; [exact W | lia |]. now rewrite Z2Nat.id by lia. }
    rewrite nth_map_seq by lia. cbv beta. rewrite Da. f_equal.
    pose proof (displayed_order_permutation W) as P.
    assert (ND : NoDup (Dims.displayed_order (dims st)))
      by (eapply Permutation_NoDup; [exact P | apply seq_NoDup]).
    assert (Lk : (k < List.length (Dims.displayed_order (dims st)))%nat).
    { unfold Dims.displayed_order. rewrite length_map.
      apply nth_error_Some. congruence. }
    transitivity (position (nth k (Dims.displayed_order (dims st)) 0%nat)
                           (Dims.displayed_order (dims st)));
      [|now apply position_nth].
    f_equal. rewrite (displayed_order_ranks W).
    apply (map_nth_error
             (fun a => rank_below
                         (fun k => negb (existsb (Z.eqb (Z.of_nat k))
                                           (Dims.not_displayed (dims st))))
                         (Z.to_nat a))) in Hk.
    symmetry. now apply nth_error_nth.
  - intros a Ha.
    pose proof (@order_entries_in_range _ _ a WO (not_displayed_incl _ _ Ha))
      as Ra.
    rewrite Dn in Ra. rewrite nth_map_seq by lia. cbv beta.
    assert (Da : negb (existsb (Z.eqb (Z.of_nat (Z.to_nat a)))
                               (Dims.not_displayed (dims st))) = false).
    { apply negb_false_iff. apply existsb_exists.
      exists a. split; [exact Ha|]. apply Z.eqb_eq. lia. }
    now rewrite Da.
Qed.

(** X13.  In a layer with well formed [dims] of the rank of its data and
    sliders that point inside the data, the displayed slice exists; its
    shape lists the extents of the displayed axes in the order of
    [dims.displayed]; and what it shows at [i] is the data at the index
    that has [i[k]] on the [k]-th displayed axis and the rounded slider
    position on every other axis. *)
Theorem slice_shows_data_at_sliders :
  forall (st : Labels.t),
    Dims.wf (dims st) -> Dims.ndim (dims st) = ndim st ->
    sliders_inside st ->
    exists v,
      _data_labels st = Some v
      /\ vshape v = map (fun a => nth (Z.to_nat a) (shape st) 0%nat)
                        (Dims.displayed (dims st))
      /\ forall i, exists j,
           item (read (data st) v) i = item (data st) j
           /\ List.length j = ndim st
           /\ (forall k a, nth_error (Dims.displayed (dims st)) k = Some a ->
                 nth (Z.to_nat a) j 0%nat = nth k i 0%nat)
           /\ (forall a, In a (Dims.not_displayed (dims st)) ->
                 nth (Z.to_nat a) j 0%nat
                 = Z.to_nat (round_int (nth (Z.to_nat a)
                                            (Dims.point (dims st))
                                            (of_Z 0)))).
Proof.
  intros st W Dn SI.
  destruct (slice_index W Dn SI) as (v & E & Sh & TB).
  exists v. split; [exact E|]. split; [exact Sh|].
  intro i. exists (to_base v i). split; [reflexivity | apply TB].
Qed.



End Slicing.

Lemma slice_shows_data_at_sliders_witness :
  exists v,
    Labels._data_labels example_labels = Some v
    /\ NDArray.vshape v = [3; 2]%nat.
Proof.
  destruct (@slice_shows_data_at_sliders example_labels)
    as (v & E & Sh & _).
  - repeat split; try reflexivity. now left.
  - reflexivity.
  - intros a s Ha Hs. vm_compute in Ha. destruct Ha as [<- | []].
    vm_compute in Hs. injection Hs as <-. vm_compute.
    split; [discriminate | reflexivity].
  - exists v. split; [exact E | exact Sh].
Defined.


(* ------------------------------------------------------------------ *)
(** ** Labels: a fill whose click is not on the label to replace *)

Section FillOffTarget.

Import Py.
Import NDArray.
Import Ndimage.
Import Labels.

Variable ndi_label :
  list nat -> (list nat -> bool) -> (list nat -> nat) * nat.


End FillOffTarget.


(* ------------------------------------------------------------------ *)
(** ** ViewerModel: setting and reading the theme *)

Section Themes.

Import Py.
Import ViewerTheme.

Variable palette : Type.
Variable palette_eqb : palette -> palette -> bool.
Hypothesis palette_eqb_eq : forall p q, palette_eqb p q = true <-> p = q.
Variable themes : list (string * palette).

Lemma eqb_eq (a b : option palette) : eqb palette_eqb a b = true <-> a = b.
Proof.
  destruct a as [p|], b as [q|]; simpl; try (split; congruence).
  rewrite palette_eqb_eq. split; congruence.
Qed.

(** A key of the dict is found, with the value stored under it. *)
Lemma themes_getitem_in (name : string) (p : palette) :
  NoDup (map fst themes) -> In (name, p) themes ->
  themes_getitem themes name = Some p.
Proof.
  unfold themes_getitem. induction themes as [|[k q] l IH]; intros ND H;
    [destruct H|].
  simpl in *. inversion ND as [|? ? Hk ND']; subst.
  destruct (String.eqb_spec k name) as [-> | N].
  - destruct H as [H | H]; [now injection H as <- |].
    exfalso. apply Hk. apply (in_map fst) in H. exact H.
  - destruct H as [H | H]; [congruence|]. now apply IH.
Qed.

Lemma themes_getitem_some (name : string) (p : palette) :
  themes_getitem themes name = Some p -> In (name, p) themes.
Proof.
  unfold themes_getitem.
  destruct (find (fun item => String.eqb (fst item) name) themes)
    as [[k q]|] eqn:F; [|discriminate].
  simpl. intro H. injection H as <-.
  apply find_some in F. destruct F as (F & E). simpl in E.
  apply String.eqb_eq in E. now subst.
Qed.

(** The theme read is a key of the dict, stored with the current
    palette. *)
Lemma theme_some (v : t palette) (name : string) :
  theme palette_eqb themes v = Some name ->
  exists p, In (name, p) themes /\ _palette v = Some p.
Proof.
  unfold theme.
  destruct (find (fun item => eqb palette_eqb (Some (snd item)) (_palette v))
                 themes) as [[k q]|] eqn:F; [|discriminate].
  simpl. intro H. injection H as <-.
  apply find_some in F. destruct F as (F & E). cbn [snd] in E.
  apply eqb_eq in E. eauto.
Qed.

(** X16.  Setting a theme that is no key of [themes] raises [ValueError]
    and leaves the palette, and so the theme read back, as they were;
    nothing is notified. *)
Theorem set_theme_unknown :
  forall (v : t palette) (name : string),
    themes_getitem themes name = None ->
    set_theme palette_eqb themes name v = (Raise ValueError, v).
Proof.
  intros v name H. unfold set_theme.
  destruct (theme palette_eqb themes v) as [current|] eqn:T.
  - destruct (String.eqb_spec name current) as [-> | N]; [|now rewrite H].
    exfalso. apply theme_some in T. destruct T as (p & Hin & _).
    unfold themes_getitem in H.
    destruct (find (fun item => String.eqb (fst item) current) themes)
      eqn:F; [discriminate|].
    pose proof (find_none _ _ F _ Hin) as E. simpl in E.
    now rewrite String.eqb_refl in E.
  - now rewrite H.
Qed.

(** X17.  Setting a theme that is a key of [themes] (a dict: no key
    twice) returns normally and stores the palette kept under that key;
    the theme read back is a key with that very palette, the first such in
    the dict's order, so it is the theme that was set whenever no other
    preset has an equal palette; and the [palette] notification is sent
    exactly when the palette stored has changed. *)
Theorem set_theme_then_get :
  forall (v : t palette) (name : string) (p : palette),
    NoDup (map fst themes) ->
    themes_getitem themes name = Some p ->
    exists v',
      set_theme palette_eqb themes name v = (Ok tt, v')
      /\ _palette v' = Some p
      /\ (exists name',
            theme palette_eqb themes v' = Some name'
            /\ themes_getitem themes name' = Some p
            /\ ((forall n1 n2 q, In (n1, q) themes -> In (n2, q) themes ->
                                 n1 = n2) ->
                name' = name))
      /\ (_palette v = Some p -> v' = v)
      /\ (_palette v <> Some p -> emitted v' = emitted v ++ [Some p]).
Proof.
  intros v name p ND G.
  pose proof (themes_getitem_some _ G) as Hin.
  assert (Read : forall v' : t palette,
             _palette v' = Some p ->
             exists name',
               theme palette_eqb themes v' = Some name'
               /\ themes_getitem themes name' = Some p
               /\ ((forall n1 n2 q, In (n1, q) themes -> In (n2, q) themes ->
                                    n1 = n2) ->
                   name' = name)).
  { intros v' Hp. unfold theme. rewrite Hp.
    destruct (find (fun item => eqb palette_eqb (Some (snd item)) (Some p))
                   themes) as [[k q]|] eqn:F.
    - apply find_some in F. destruct F as (F & E). simpl in E.
      apply palette_eqb_eq in E. subst q.
      exists k. split; [reflexivity|]. split.
      + now apply themes_getitem_in.
      + intro Inj. now apply (Inj k name p).
    - pose proof (find_none _ _ F _ Hin) as E. simpl in E.
      assert (T : palette_eqb p p = true) by now apply palette_eqb_eq.
      congruence. }
  unfold set_theme.
  destruct (theme palette_eqb themes v) as [current|] eqn:T.
  - destruct (String.eqb_spec name current) as [-> | N].
    + apply theme_some in T as T'. destruct T' as (q & Hq & Pq).
      pose proof (themes_getitem_in _ _ ND Hq) as G'.
      rewrite G in G'. injection G' as <-.
      exists v. split; [reflexivity|]. split; [exact Pq|].
      split; [now apply Read|]. split; [reflexivity | congruence].
    + rewrite G. unfold set_palette.
      destruct (eqb palette_eqb (Some p) (_palette v)) eqn:E.
      * apply eqb_eq in E. exists v. split; [reflexivity|].
        split; [now symmetry|]. split; [now apply Read|].
        split; [reflexivity | congruence].
      * eexists. split; [reflexivity|]. simpl. split; [reflexivity|].
        split; [now apply Read|]. split; [|reflexivity].
        intro Hp. rewrite Hp in E.
        assert (T' : eqb palette_eqb (Some p) (Some p) = true)
          by now apply eqb_eq.
        congruence.
  - rewrite G. unfold set_palette.
    destruct (eqb palette_eqb (Some p) (_palette v)) eqn:E.
    + apply eqb_eq in E. exists v. split; [reflexivity|].
      split; [now symmetry|]. split; [now apply Read|].
      split; [reflexivity | congruence].
    + eexists. split; [reflexivity|]. simpl. split; [reflexivity|].
      split; [now apply Read|]. split; [|reflexivity].
      intro Hp. rewrite Hp in E.
      assert (T' : eqb palette_eqb (Some p) (Some p) = true)
        by now apply eqb_eq.
      congruence.
Qed.

End Themes.

Lemma set_theme_unknown_witness :
  ViewerTheme.set_theme String.eqb two_themes "sepia" no_theme
  = (Py.Raise Py.ValueError, no_theme).
Proof.
  apply (@set_theme_unknown string String.eqb String.eqb_eq two_themes).
  reflexivity.
Defined.

Lemma set_theme_then_get_witness :
  exists v',
    ViewerTheme.set_theme String.eqb two_themes "dark" no_theme
    = (Py.Ok tt, v')
    /\ ViewerTheme.theme String.eqb two_themes v' = Some "dark"%string.
Proof.
  destruct (@set_theme_then_get string String.eqb String.eqb_eq two_themes
              no_theme "dark"%string "dark palette"%string)
    as (v' & E & _ & (name' & T & _ & Inj) & _).
  - repeat constructor; simpl; intuition discriminate.
  - reflexivity.
  - exists v'. split; [exact E|]. rewrite T. f_equal. apply Inj.
    intros n1 n2 q H1 H2. simpl in H1, H2.
    destruct H1 as [H1 | [H1 | []]], H2 as [H2 | [H2 | []]]; congruence.
Defined.

(* ------------------------------------------------------------------ *)
(** ** Labels: a fill on the displayed slice, shown in the order of the axes *)

Section FillSliceInOrder.

Import Py.
Import NDArray.
Import Ndimage.
Import Labels.

Variable ndi_label :
  list nat -> (list nat -> bool) -> (list nat -> nat) * nat.









End FillSliceInOrder.

Section FillSliceExample.

Import Py.
Import NDArray.
Import Ndimage.
Import Labels.




End FillSliceExample.

(* ------------------------------------------------------------------ *)
(** ** Labels: how wide the brush is *)

Section BrushWidth.

Import Float.
Import Py.
Import NDArray.
Import Labels.

Lemma Qfloor_plus_Z (q : Q) (z : Z) :
  Qfloor (q + inject_Z z) = (Qfloor q + z)%Z.
Proof.
  pose proof (Qfloor_le q) as A1. pose proof (Qlt_floor q) as A2.
  pose proof (Qfloor_le (q + inject_Z z)) as B1.
  pose proof (Qlt_floor (q + inject_Z z)) as B2.
  assert (C1 : (inject_Z (Qfloor (q + inject_Z z))
                < inject_Z (Qfloor q + z + 1))%Q)
    by (rewrite !inject_Z_plus in *; lra).
  assert (C2 : (inject_Z (Qfloor q + z)
                < inject_Z (Qfloor (q + inject_Z z) + 1))%Q)
    by (rewrite !inject_Z_plus in *; lra).
  rewrite <- Zlt_Qlt in C1, C2. lia.
Qed.

Lemma np_round_comp (x y : Q) : (x == y)%Q -> np_round x = np_round y.
Proof.
  intro H. unfold np_round. rewrite (Qfloor_comp _ _ H).
  assert (C : (x - inject_Z (Qfloor y) ?= 1 # 2)%Q
              = (y - inject_Z (Qfloor y) ?= 1 # 2)%Q)
    by (apply Qcompare_comp; [rewrite H|]; reflexivity).
  now rewrite C.
Qed.

(** Rounding half to even commutes with adding an even integer. *)
Lemma np_round_plus_even (q : Q) (z : Z) :
  Z.even z = true -> np_round (q + inject_Z z) = (np_round q + z)%Z.
Proof.
  intro H. unfold np_round. rewrite Qfloor_plus_Z.
  assert (C : (q + inject_Z z - inject_Z (Qfloor q + z) ?= 1 # 2)%Q
              = (q - inject_Z (Qfloor q) ?= 1 # 2)%Q)
    by (apply Qcompare_comp; [rewrite inject_Z_plus; ring | reflexivity]).
  rewrite C, Z.even_add, H.
  destruct (q - inject_Z (Qfloor q) ?= 1 # 2)%Q; try lia.
  destruct (Z.even (Qfloor q)); simpl; lia.
Qed.

(** Halfway between [z] and [z + 1], [np.round] goes to the even one. *)
Lemma np_round_half (z : Z) :
  np_round (inject_Z z + (1 # 2)) = if Z.even z then z else (z + 1)%Z.
Proof.
  unfold np_round.
  assert (F : Qfloor (inject_Z z + (1 # 2)) = z).
  { rewrite (Qfloor_comp _ ((1 # 2) + inject_Z z)) by ring.
    rewrite Qfloor_plus_Z. reflexivity. }
  rewrite F.
  assert (C : (inject_Z z + (1 # 2) - inject_Z z ?= 1 # 2)%Q = Eq)
    by (apply Qeq_alt; ring).
  now rewrite C.
Qed.

Lemma np_clip_inside (x lo hi : Q) :
  (lo <= x)%Q -> (x <= hi)%Q -> np_clip x lo hi = x.
Proof.
  intros H1 H2. unfold np_clip.
  apply Qltb_ge in H1. rewrite H1. apply Qltb_ge in H2. now rewrite H2.
Qed.

(** Rounding after clipping to integer bounds is clipping after
    rounding. *)
Lemma np_round_clip (x : Q) (s : nat) :
  np_round (np_clip x 0 (inject_Z (Z.of_nat s)))
  = Z.min (Z.max (np_round x) 0) (Z.of_nat s).
Proof.
  pose proof (inject_Z_nonneg s) as S0. unfold np_clip.
  destruct (Qltb x 0) eqn:E1.
  - apply Qltb_lt in E1.
    assert (E2 : Qltb (inject_Z (Z.of_nat s)) 0 = false)
      by now apply Qltb_ge.
    rewrite E2. change 0%Q with (inject_Z 0). rewrite np_round_Z.
    assert (np_round x <= 0)%Z
      by (apply np_round_le_Z; change (inject_Z 0) with 0%Q; lra).
    lia.
  - apply Qltb_ge in E1. destruct (Qltb (inject_Z (Z.of_nat s)) x) eqn:E2.
    + apply Qltb_lt in E2. rewrite np_round_Z.
      assert (Z.of_nat s <= np_round x)%Z by (apply np_round_ge_Z; lra).
      lia.
    + apply Qltb_ge in E2.
      pose proof (@np_round_bounds x (Z.of_nat s) E1 E2). lia.
Qed.

(** With a brush of size one, a coordinate halfway above an odd integer
    falls between the start and the stop of the slice. *)
Lemma brush_unit_gap (c : Q) (z : Z) (s : nat) :
  (c == inject_Z z + (1 # 2))%Q -> Z.odd z = true ->
  (brush_stop c 1 s <= brush_start c 1 s)%Z.
Proof.
  intros H O. unfold brush_stop, brush_start. rewrite !np_round_clip.
  assert (E1 : np_round (c - inject_Z 1 / 2 + (1 # 2)) = (z + 1)%Z).
  { rewrite (np_round_comp (y := inject_Z z + (1 # 2)))
      by (rewrite H; change (inject_Z 1) with 1%Q; field).
    rewrite np_round_half, Zeven.Zeven_odd_bool, O. reflexivity. }
  assert (E2 : np_round (c + inject_Z 1 / 2 + (1 # 2)) = (z + 1)%Z).
  { rewrite (np_round_comp (y := inject_Z (z + 1) + (1 # 2)))
      by (rewrite H, inject_Z_plus; change (inject_Z 1) with 1%Q; field).
    rewrite np_round_half, Z.add_1_r, Z.even_succ, O. reflexivity. }
  rewrite E1, E2. lia.
Qed.

(** An even brush that is not clipped covers as many cells as its
    size. *)
Lemma brush_even_width (c : Q) (brush : Z) (s : nat) :
  Z.even brush = true -> (0 <= brush)%Z ->
  (0 <= c - inject_Z brush / 2 + (1 # 2))%Q ->
  (c + inject_Z brush / 2 + (1 # 2) <= inject_Z (Z.of_nat s))%Q ->
  (brush_stop c brush s - brush_start c brush s = brush)%Z
  /\ (0 <= brush_start c brush s)%Z
  /\ (brush_stop c brush s <= Z.of_nat s)%Z.
Proof.
  intros Ev Hb H0 Hs.
  pose proof (brush_start_bounds c brush s) as B1.
  pose proof (brush_stop_bounds c brush s) as B2.
  split; [|lia].
  unfold brush_stop, brush_start.
  assert (Hh : (0 <= inject_Z brush / 2)%Q).
  { apply Qle_shift_div_l; [reflexivity|].
    change (0 * 2)%Q with (inject_Z 0). now rewrite <- Zle_Qle. }
  assert (Sum : (c + inject_Z brush / 2 + (1 # 2)
                 == c - inject_Z brush / 2 + (1 # 2) + inject_Z brush)%Q)
    by field.
  set (h := (inject_Z brush / 2)%Q) in *.
  set (e := inject_Z (Z.of_nat s)) in *.
  rewrite (np_clip_inside (x := c - h + (1 # 2)) (lo := 0) (hi := e))
    by lra.
  rewrite (np_clip_inside (x := c + h + (1 # 2)) (lo := 0) (hi := e))
    by lra.
  rewrite (np_round_comp Sum), np_round_plus_even by exact Ev. lia.
Qed.

Lemma paint_empty_axis (st : Labels.t) (coord : list Q) (new_label : Z)
  (k : nat) :
  Dims.wf (dims st) -> Dims.ndim (dims st) = ndim st ->
  List.length coord = ndim st ->
  (k < ndim st)%nat -> painted_axis st k = true ->
  (brush_stop (nth k coord 0%Q) (brush_size st) (nth k (shape st) 0%nat)
   <= brush_start (nth k coord 0%Q) (brush_size st)
                  (nth k (shape st) 0%nat))%Z ->
  forall i,
    item (data (snd (paint coord new_label st))) i = item (data st) i.
Proof.
  intros W Dn Lc Hk Pk Emp i.
  destruct (@paint_slice_coord_spec st coord W Dn Lc) as (sc & P & Ls & N).
  pose proof (@paint_slice_coord_clipped st coord sc P) as C.
  destruct (resolve (shape st) sc) as [sel|] eqn:R.
  - rewrite (@paint_data st coord new_label sc sel P R). simpl.
    destruct (selected sel i) eqn:S; [exfalso | reflexivity].
    destruct (@resolve_selected (shape st) sc sel i R C S) as (B & A).
    pose proof (N k Hk) as E. unfold painted_axis in Pk. rewrite Pk in E.
    apply in_bounds_length in B.
    destruct (@nth_error_in_range _ i k) as (j & Hj);
      [rewrite B; exact Hk|].
    destruct (@nth_error_in_range _ (shape st) k) as (s & Hs); [exact Hk|].
    pose proof (A k _ s j E Hs Hj) as Q. simpl in Q. lia.
  - unfold paint. rewrite P, R. reflexivity.
Qed.

(** X19.  With an even brush size and a cursor coordinate on the grid of
    multiples of 2^-16, along an axis of at most 2^36 cells (where the
    sums [paint] takes in binary64 are exact), the slice of the index
    tuple that [paint] builds for the axis spans exactly [brush_size]
    cells, wherever the brush is not cut off by the border of the data. *)
Theorem paint_even_brush_width :
  forall (st : Labels.t) (coord : list Q) (sc : list index) (k : nat)
         (a b : Z),
    Dims.wf (dims st) -> Dims.ndim (dims st) = ndim st ->
    List.length coord = ndim st ->
    Z.even (brush_size st) = true -> (0 <= brush_size st)%Z ->
    on_grid (nth k coord 0) ->
    (Z.of_nat (nth k (shape st) 0%nat) <= 2 ^ 36)%Z ->
    paint_slice_coord st coord = Some sc ->
    nth_error sc k = Some (Slice a b) ->
    (0 <= nth k coord 0 - inject_Z (brush_size st) / 2 + (1 # 2))%Q ->
    (nth k coord 0 + inject_Z (brush_size st) / 2 + (1 # 2)
     <= inject_Z (Z.of_nat (nth k (shape st) 0%nat)))%Q ->
    (b - a = brush_size st)%Z /\ (0 <= a)%Z
    /\ (b <= Z.of_nat (nth k (shape st) 0%nat))%Z.
Proof.
  intros st coord sc k a b W Dn Lc Ev Hb _ _ P E H0 Hs.
  destruct (@paint_slice_coord_spec st coord W Dn Lc) as (sc' & P' & Ls & N).
  rewrite P in P'. injection P' as <-.
  assert (Hk : (k < ndim st)%nat)
    by (rewrite <- Ls; apply nth_error_Some; congruence).
  rewrite (N k Hk) in E. injection E as E.
  destruct (_ || negb _); [|discriminate].
  unfold brush_slice in E. injection E as <- <-.
  now apply brush_even_width.
Qed.

(** X20.  With a brush of size one, [paint] changes nothing when the
    cursor, on an axis that is painted across, is halfway above an odd
    integer: [np.round] takes both ends of the slice to the same even
    integer. *)
Theorem paint_unit_brush_gap :
  forall (st : Labels.t) (coord : list Q) (new_label : Z) (k : nat) (z : Z),
    Dims.wf (dims st) -> Dims.ndim (dims st) = ndim st ->
    List.length coord = ndim st ->
    brush_size st = 1%Z ->
    (k < ndim st)%nat -> painted_axis st k = true ->
    (nth k coord 0 == inject_Z z + (1 # 2))%Q -> Z.odd z = true ->
    forall i,
      item (data (snd (paint coord new_label st))) i = item (data st) i.
Proof.
  intros st coord new_label k z W Dn Lc Hb Hk Pk Hc O.
  apply paint_empty_axis with k; auto.
  rewrite Hb. now apply brush_unit_gap with z.
Qed.

End BrushWidth.

Lemma paint_even_brush_width_witness :
  (2 - 0 = Labels.brush_size fine_brush)%Z /\ (0 <= 0)%Z
  /\ (2 <= Z.of_nat (nth 0 (Labels.shape fine_brush) 0%nat))%Z.
Proof.
  apply (@paint_even_brush_width fine_brush [1; 1]%Q
           [NDArray.Slice 0 2; NDArray.Slice 0 2] 0%nat 0%Z 2%Z).
  - repeat split; try reflexivity. now left.
  - reflexivity.
  - reflexivity.
  - reflexivity.
  - vm_compute. discriminate.
  - exists (2 ^ 16)%Z. reflexivity.
  - vm_compute. discriminate.
  - reflexivity.
  - reflexivity.
  - vm_compute. discriminate.
  - vm_compute. discriminate.
Defined.

Lemma paint_unit_brush_gap_witness :
  NDArray.item
    (Labels.data (snd (Labels.paint [3 # 2; 3 # 2]%Q 7 unit_brush)))
    [2; 2]%nat
  = 0%Z.
Proof.
  apply (@paint_unit_brush_gap unit_brush [3 # 2; 3 # 2]%Q 7%Z 0%nat 1%Z).
  - repeat split; try reflexivity. now left.
  - reflexivity.
  - reflexivity.
  - reflexivity.
  - vm_compute. lia.
  - reflexivity.
  - reflexivity.
  - reflexivity.
Defined.

(* ------------------------------------------------------------------ *)
(** ** ViewerModel: the order of the layers does not matter to the ranges *)

Section LayerOrder.

Import Float.
Import Py.
Import ViewerModel.

Lemma list_max_permutation (l l' : list nat) :
  Permutation l l' -> list_max l = list_max l'.
Proof.
  induction 1; simpl; try lia.
Qed.

Lemma axis_triples_permutation (ls ls' : list Layer.t) (j : nat) :
  Permutation ls ls' ->
  Permutation (axis_triples ls j) (axis_triples ls' j).
Proof.
  intro P. unfold axis_triples.
  induction P; simpl.
  - constructor.
  - now apply Permutation_app_head.
  - rewrite !app_assoc. apply Permutation_app_tail, Permutation_app_comm.
  - eapply Permutation_trans; eassumption.
Qed.

Lemma is_min_permutation (m m' : float) (xs xs' : list float) :
  Permutation xs xs' -> is_min m xs -> is_min m' xs' -> feq m m'.
Proof.
  intros P (I & L) (I' & L'). unfold feq, eqb. apply andb_true_iff. split.
  - apply L. eapply Permutation_in; [apply Permutation_sym; exact P | exact I'].
  - apply L'. eapply Permutation_in; [exact P | exact I].
Qed.

Lemma is_max_permutation (m m' : float) (xs xs' : list float) :
  Permutation xs xs' -> is_max m xs -> is_max m' xs' -> feq m m'.
Proof.
  intros P (I & L) (I' & L'). unfold feq, eqb. apply andb_true_iff. split.
  - apply L'. eapply Permutation_in; [exact P | exact I].
  - apply L. eapply Permutation_in; [apply Permutation_sym; exact P | exact I'].
Qed.

(** X21.  The ranges [_calc_layers_ranges] computes do not depend on the
    order of the layers: for two viewers with the same consistent layers
    in different orders it returns as many ranges, and on every axis the
    mins, the maxes and the steps are equal (as floats compare).  So a
    reordering of the layers, which does not trigger [_on_layers_change],
    leaves nothing to recompute. *)
Theorem calc_layers_ranges_order_independent :
  forall (v v' : t),
    Permutation (layers v) (layers v') ->
    Forall Layer.consistent (layers v) ->
    _calc_layers_num_dims v = _calc_layers_num_dims v'
    /\ List.length (_calc_layers_ranges v)
       = List.length (_calc_layers_ranges v')
    /\ forall g r r',
         nth_error (_calc_layers_ranges v) g = Some r ->
         nth_error (_calc_layers_ranges v') g = Some r' ->
         feq (lo_of r) (lo_of r') /\ feq (hi_of r) (hi_of r')
         /\ feq (step_of r) (step_of r').
Proof.
  intros v v' P F.
  assert (F' : Forall Layer.consistent (layers v')).
  { apply Forall_forall. intros l Hl. rewrite Forall_forall in F.
    apply F. eapply Permutation_in; [apply Permutation_sym; exact P | exact Hl]. }
  assert (M : list_max (map Layer.ndim (layers v))
              = list_max (map Layer.ndim (layers v')))
    by (apply list_max_permutation; now apply Permutation_map).
  split; [now rewrite !calc_layers_num_dims_max|].
  split.
  { now rewrite (@calc_layers_ranges_length v F),
                (@calc_layers_ranges_length v' F'). }
  intros g r r' H H'.
  assert (Hg : (g < list_max (map Layer.ndim (layers v)))%nat).
  { rewrite <- (@calc_layers_ranges_length v F).
    apply nth_error_Some. congruence. }
  destruct (@calc_layers_ranges_axis v g F Hg)
    as (lo & hi & st & E & Hlo & Hhi & Hst).
  rewrite M in Hg.
  destruct (@calc_layers_ranges_axis v' g F' Hg)
    as (lo' & hi' & st' & E' & Hlo' & Hhi' & Hst').
  rewrite H in E. injection E as ->. rewrite H' in E'. injection E' as ->.
  rewrite <- M in Hlo', Hhi', Hst'.
  pose proof (axis_triples_permutation
                (list_max (map Layer.ndim (layers v)) - 1 - g) P) as T.
  unfold lo_of at 1 2, hi_of at 1 2, step_of at 1 2. cbn [fst snd].
  split; [|split].
  - eapply is_min_permutation; [|exact Hlo | exact Hlo'].
    now apply Permutation_map.
  - eapply is_max_permutation; [|exact Hhi | exact Hhi'].
    now apply Permutation_map.
  - eapply is_min_permutation; [|exact Hst | exact Hst'].
    now apply Permutation_map.
Qed.

End LayerOrder.

Lemma calc_layers_ranges_order_independent_witness :
  List.length (ViewerModel._calc_layers_ranges scenario_viewer)
  = List.length (ViewerModel._calc_layers_ranges scenario_reordered).
Proof.
  refine (proj1 (proj2 (@calc_layers_ranges_order_independent
                          scenario_viewer scenario_reordered _ _))).
  - apply Permutation_rev.
  - repeat constructor.
Defined.

(* ------------------------------------------------------------------ *)
(** ** Labels: the selected label and its colour *)

Section SelectedLabel.

Import Py.
Import NDArray.
Import Labels.

Lemma last_cons {A} (l : list A) :
  forall x d, last (x :: l) d = last l x.
Proof.
  induction l as [|y l IH]; intros x d; [reflexivity|].
  change (last (x :: y :: l) d) with (last (y :: l) d).
  now rewrite !IH.
Qed.

Lemma set_selected_label_step (l : Z) (st : Labels.t) :
  (0 <= selected_label st)%Z ->
  selected_color st = get_color st (selected_label st) ->
  let st' := snd (set_selected_label l st) in
  (0 <= selected_label st')%Z
  /\ selected_color st' = get_color st' (selected_label st')
  /\ selected_label st' = (if (0 <=? l)%Z then l else selected_label st)
  /\ data st' = data st.
Proof.
  intros H0 Hc. unfold set_selected_label.
  destruct (l <? 0)%Z eqn:N; [apply Z.ltb_lt in N | apply Z.ltb_ge in N].
  - simpl. replace (0 <=? l)%Z with false by (symmetry; apply Z.leb_gt; lia).
    auto.
  - replace (0 <=? l)%Z with true by (symmetry; apply Z.leb_le; lia).
    destruct (l =? selected_label st)%Z eqn:E; simpl.
    + apply Z.eqb_eq in E. auto.
    + repeat split; auto.
Qed.

(** X22.  After any series of assignments to [selected_label], some of
    them rejected, starting from a state as [__init__] leaves it: the
    selected label is the last one assigned that was not negative (the
    initial one when there is none), it is never negative, the selected
    colour is the colour of that label, [None] exactly for the background
    label 0, and the data are untouched. *)
Theorem selected_label_follows_valid_assignments :
  forall (ls : list Z) (st : Labels.t),
    (0 <= selected_label st)%Z ->
    selected_color st = get_color st (selected_label st) ->
    let st' := select_each ls st in
    selected_label st'
    = last (filter (fun l => (0 <=? l)%Z) ls) (selected_label st)
    /\ (0 <= selected_label st')%Z
    /\ selected_color st' = get_color st' (selected_label st')
    /\ (selected_color st' = None <-> selected_label st' = 0%Z)
    /\ data st' = data st.
Proof.
  induction ls as [|l ls IH]; intros st H0 Hc; cbv zeta.
  - simpl. split; [reflexivity|]. split; [exact H0|]. split; [exact Hc|].
    split; [|reflexivity].
    rewrite Hc. unfold get_color.
    destruct (Z.eqb_spec (selected_label st) 0); split; intro H;
      congruence || discriminate.
  - destruct (set_selected_label_step l st H0 Hc) as (S0 & Sc & Sl & Sd).
    destruct (IH _ S0 Sc) as (I1 & I2 & I3 & I4 & I5).
    unfold select_each in *. cbn [fold_left].
    split; [|split; [exact I2 | split; [exact I3 | split; [exact I4|]]]].
    + rewrite I1, Sl. cbn [filter].
      destruct (0 <=? l)%Z; [|reflexivity].
      symmetry. apply last_cons.
    + now rewrite I5.
Qed.

End SelectedLabel.

Lemma selected_label_follows_valid_assignments_witness :
  Labels.selected_label (select_each [3; -1; 5; -2]%Z blank_image) = 5%Z.
Proof.
  refine (proj1 (@selected_label_follows_valid_assignments
                   [3; -1; 5; -2]%Z blank_image _ _)).
  - vm_compute. discriminate.
  - reflexivity.
Defined.
